(** * Thumbulator load/store execute units and the ODAB energy scheme

    A shallow embedding of [src/thumbulator/src/exmemwb_mem.cpp] (the
    memory execute units of the Thumb interpreter) and of the
    [on_demand_all_backup] scheme, with the properties the specification
    states about them. *)

From Stdlib Require Import ZArith Lia List Bool.
From Stdlib Require Import Floats.PrimFloat.
From stdpp Require Import base gmap list.

Local Open Scope Z_scope.

(** ** 32-bit and 64-bit unsigned arithmetic *)

Definition wrap32 (x : Z) : Z := x mod 2 ^ 32.
Definition add32 (a b : Z) : Z := wrap32 (a + b).
Definition sub32 (a b : Z) : Z := wrap32 (a - b).
Definition shl32 (a n : Z) : Z := wrap32 (Z.shiftl a n).

Definition wrap64 (x : Z) : Z := x mod 2 ^ 64.
Definition sub64 (a b : Z) : Z := wrap64 (a - b).

Module thumbulator.

(** ** Memory *)

(** Modelled from the spec: the memory module ([thumbulator/memory.hpp],
    not among the sources).  "A mapping from a 32-bit word-aligned address
    to a 32-bit word.  Two address ranges are distinguished: RAM
    (read/write) and ROM (read-only)."  A store to ROM and any access to
    an unmapped address is a fatal memory fault. *)
Record memory : Type := Memory { RAM : gmap Z Z; ROM : gmap Z Z }.

Definition mem_load (m : memory) (address : Z) : option Z :=
  match RAM m !! address with
  | Some w => Some w
  | None => ROM m !! address
  end.

Definition mem_store (m : memory) (address value : Z) : option memory :=
  match RAM m !! address with
  | Some _ => Some (Memory (<[address := value]> (RAM m)) (ROM m))
  | None => None
  end.

(** One call of the memory interface, as the energy and access-counting
    hooks observe it. *)
Inductive access : Type :=
| Load (address : Z) (falseRead : Z)
| Store (address : Z) (value : Z).

Definition access_address (e : access) : Z :=
  match e with
  | Load a _ => a
  | Store a _ => a
  end.

(** ** CPU state *)

(** Modelled from the spec: sixteen 32-bit registers, r13 = SP, r14 = LR,
    r15 = PC, and the branch-taken flag ([cpu_flags.hpp] is not among the
    sources).  The state also carries the memory and the calls made to the
    memory interface so far, oldest first. *)
Record state : Type := State {
  gpr : Z -> Z;
  BRANCH_WAS_TAKEN : bool;
  mem : memory;
  accesses : list access
}.

Definition GPR_SP : Z := 13.
Definition GPR_LR : Z := 14.
Definition GPR_PC : Z := 15.

Definition reg_update (f : Z -> Z) (r v : Z) : Z -> Z :=
  fun j => if j =? r then v else f j.

(** Modelled from the spec: the operand fields of a decoded instruction
    (the [decode_result] declaration is not among the sources). *)
Record decode_result : Type := Decoded {
  Rd : Z;
  Rn : Z;
  Rm : Z;
  imm : Z;
  register_list : Z
}.

(** ** Execution monad: state passing with fatal errors *)

Inductive fault : Type :=
| MalformedInstruction
| MemoryFault (address : Z).

Inductive outcome (A : Type) : Type :=
| Done (a : A) (s : state)
| Fatal (f : fault) (s : state).
Arguments Done {A} a s.
Arguments Fatal {A} f s.

Definition exec (A : Type) : Type := state -> outcome A.

Definition ret {A} (a : A) : exec A := fun s => Done a s.

Definition bind {A B} (m : exec A) (k : A -> exec B) : exec B :=
  fun s =>
    match m s with
    | Done a s' => k a s'
    | Fatal f s' => Fatal f s'
    end.

Notation "'do' x <- m ; k" := (bind m (fun x => k))
  (at level 10, x pattern, m at level 100, k at level 200).
Notation "m ;; k" := (bind m (fun _ => k))
  (at level 100, k at level 200, right associativity).

Definition final_state {A} (o : outcome A) : state :=
  match o with
  | Done _ s => s
  | Fatal _ s => s
  end.

(** The calls to the memory interface made by running [m] from [s]. *)
Definition new_accesses {A} (m : exec A) (s : state) : list access :=
  drop (length (accesses s)) (accesses (final_state (m s))).

(** ** CPU and memory primitives *)

(** Modelled from the spec: the accessors of the register file and of the
    branch-taken flag ([cpu_get_gpr], [cpu_set_gpr], [cpu_get_sp],
    [cpu_set_sp], [cpu_get_pc] and [BRANCH_WAS_TAKEN] are declared
    outside the sources); SP is r13 and PC is r15. *)
Definition cpu_get_gpr (r : Z) : exec Z := fun s => Done (gpr s r) s.

Definition cpu_set_gpr (r v : Z) : exec unit :=
  fun s => Done tt (State (reg_update (gpr s) r v) (BRANCH_WAS_TAKEN s) (mem s) (accesses s)).

Definition cpu_get_sp : exec Z := cpu_get_gpr GPR_SP.
Definition cpu_set_sp (v : Z) : exec unit := cpu_set_gpr GPR_SP v.
Definition cpu_get_pc : exec Z := cpu_get_gpr GPR_PC.

Definition get_BRANCH_WAS_TAKEN : exec bool := fun s => Done (BRANCH_WAS_TAKEN s) s.

Definition set_BRANCH_WAS_TAKEN (b : bool) : exec unit :=
  fun s => Done tt (State (gpr s) b (mem s) (accesses s)).

(** Modelled from the spec: [terminate_simulation] ([exit.hpp] is not
    among the sources); a fatal error aborts the run immediately. *)
Definition terminate_simulation {A} (f : fault) : exec A := fun s => Fatal f s.

Definition record_access (e : access) (s : state) : state :=
  State (gpr s) (BRANCH_WAS_TAKEN s) (mem s) (accesses s ++ [e]).

(** [load(address, &value, falseRead)]: the call is observed, then the
    word is read or the run ends in a memory fault. *)
Definition load (address falseRead : Z) : exec Z :=
  fun s =>
    let s' := record_access (Load address falseRead) s in
    match mem_load (mem s) address with
    | Some w => Done w s'
    | None => Fatal (MemoryFault address) s'
    end.

(** [store(address, value)]: the call is observed, then the word is
    written or the run ends in a memory fault. *)
Definition store (address value : Z) : exec unit :=
  fun s =>
    let s' := record_access (Store address value) s in
    match mem_store (mem s) address value with
    | Some m' => Done tt (State (gpr s') (BRANCH_WAS_TAKEN s') m' (accesses s'))
    | None => Fatal (MemoryFault address) s'
    end.

(** Modelled from the spec: cycle costs of the Cortex-M0+ table
    ([TIMING_MEM], [TIMING_PC_UPDATE] are defined outside the sources):
    2 cycles for a single memory access, 2 for a PC update. *)
Definition TIMING_MEM : Z := 2.
Definition TIMING_PC_UPDATE : Z := 2.

(** [zeroExtend32] (defined outside the sources) zero-extends to 32
    bits, which leaves a 32-bit value as it is. *)
Definition zeroExtend32 (x : Z) : Z := wrap32 x.

(** Modelled from the spec: "signed variants sign-extend from the
    appropriate bit" ([signExtend32] is defined outside the sources). *)
Definition signExtend32 (x bits : Z) : Z :=
  if Z.testbit x (bits - 1)
  then wrap32 (Z.lor x (Z.shiftl (-1) bits))
  else wrap32 x.

(** A [for] loop over the register numbers [idx], threading the loop's
    local variables. *)
Fixpoint for_each {A} (body : Z -> A -> exec A) (idx : list Z) (a : A) : exec A :=
  match idx with
  | [] => ret a
  | i :: idx' => do a' <- body i a; for_each body idx' a'
  end.

(** ** Load/store multiple *)

Definition ldm_body (decoded : decode_result) (i : Z) (loc : Z * Z) : exec (Z * Z) :=
  let '(address, numLoaded) := loc in
  let mask := Z.shiftl 1 i in
  if Z.land (register_list decoded) mask =? 0 then ret (address, numLoaded)
  else
    do data <- load address 0;
    cpu_set_gpr i data;;
    ret (add32 address 4, add32 numLoaded 1).

Definition ldm (decoded : decode_result) : exec Z :=
  let rNWritten := Z.land (Z.shiftl 1 (Rn decoded)) (register_list decoded) in
  do base <- cpu_get_gpr (Rn decoded);
  do (address, numLoaded) <- for_each (ldm_body decoded) (seqZ 0 8) (base, 0);
  (if rNWritten =? 0 then cpu_set_gpr (Rn decoded) address else ret tt);;
  ret (add32 1 numLoaded).

Definition stm_body (decoded : decode_result) (i : Z) (loc : Z * Z) : exec (Z * Z) :=
  let '(address, numStored) := loc in
  let mask := Z.shiftl 1 i in
  if Z.land (register_list decoded) mask =? 0 then ret (address, numStored)
  else
    (if (i =? Rn decoded) && (numStored =? 0)
     then terminate_simulation MalformedInstruction
     else ret tt);;
    do data <- cpu_get_gpr i;
    store address data;;
    ret (add32 address 4, add32 numStored 1).

Definition stm (decoded : decode_result) : exec Z :=
  do base <- cpu_get_gpr (Rn decoded);
  do (address, numStored) <- for_each (stm_body decoded) (seqZ 0 8) (base, 0);
  cpu_set_gpr (Rn decoded) address;;
  ret (add32 1 numStored).

(** ** Stack operations *)

(** The values [i] takes in
    [for(int i = 0; i < 16; ++i) { ...; if(i == 7) i = 14; }]. *)
Fixpoint pop_loop_from (fuel : nat) (i : Z) : list Z :=
  match fuel with
  | O => []
  | S fuel' =>
      if i <? 16
      then i :: pop_loop_from fuel' ((if i =? 7 then 14 else i) + 1)
      else []
  end.

Definition pop_loop : list Z := pop_loop_from 16 0.

(** The values [i] takes in
    [for(int i = 14; i >= 0; --i) { ...; if(i == 14) i = 8; }]. *)
Fixpoint push_loop_from (fuel : nat) (i : Z) : list Z :=
  match fuel with
  | O => []
  | S fuel' =>
      if 0 <=? i
      then i :: push_loop_from fuel' ((if i =? 14 then 8 else i) - 1)
      else []
  end.

Definition push_loop : list Z := push_loop_from 16 14.

Definition pop_body (decoded : decode_result) (i : Z) (loc : Z * Z) : exec (Z * Z) :=
  let '(address, numLoaded) := loc in
  let mask := Z.shiftl 1 i in
  if Z.land (register_list decoded) mask =? 0 then ret (address, numLoaded)
  else
    do data <- load address 0;
    cpu_set_gpr i data;;
    (if i =? 15 then set_BRANCH_WAS_TAKEN true else ret tt);;
    ret (add32 address 4, add32 numLoaded 1).

(** The [return] of [pop] is
    [1 + numLoaded + BRANCH_WAS_TAKEN ? TIMING_PC_UPDATE : 0]: in C the
    conditional operator binds weaker than [+], so the sum is the
    condition. *)
Definition pop (decoded : decode_result) : exec Z :=
  do sp <- cpu_get_sp;
  do (address, numLoaded) <- for_each (pop_body decoded) pop_loop (sp, 0);
  cpu_set_sp address;;
  do taken <- get_BRANCH_WAS_TAKEN;
  ret (if add32 (add32 1 numLoaded) (Z.b2z taken) =? 0 then 0 else TIMING_PC_UPDATE).

Definition push_body (decoded : decode_result) (i : Z) (loc : Z * Z) : exec (Z * Z) :=
  let '(address, numStored) := loc in
  let mask := Z.shiftl 1 i in
  if Z.land (register_list decoded) mask =? 0 then ret (address, numStored)
  else
    let address := sub32 address 4 in
    do data <- cpu_get_gpr i;
    store address data;;
    ret (address, add32 numStored 1).

Definition push (decoded : decode_result) : exec Z :=
  do sp <- cpu_get_sp;
  do (address, numStored) <- for_each (push_body decoded) push_loop (sp, 0);
  cpu_set_sp address;;
  ret (add32 1 numStored).

(** ** Single loads *)

(** [effectiveAddress & ~0x3] *)
Definition word_aligned (effectiveAddress : Z) : Z :=
  Z.land effectiveAddress (wrap32 (Z.lnot 3)).

(** [switch(effectiveAddress & 0x3)] of the byte loads. *)
Definition select_byte (effectiveAddress result : Z) : Z :=
  match Z.land effectiveAddress 3 with
  | 0 => result
  | 1 => Z.shiftr result 8
  | 2 => Z.shiftr result 16
  | _ => Z.shiftr result 24
  end.

(** [switch(effectiveAddress & 0x2)] of the halfword loads. *)
Definition select_halfword (effectiveAddress result : Z) : Z :=
  match Z.land effectiveAddress 2 with
  | 0 => result
  | _ => Z.shiftr result 16
  end.

Definition ldr_i (decoded : decode_result) : exec Z :=
  do base <- cpu_get_gpr (Rn decoded);
  let offset := zeroExtend32 (shl32 (imm decoded) 2) in
  let effectiveAddress := add32 base offset in
  do result <- load effectiveAddress 0;
  cpu_set_gpr (Rd decoded) result;;
  ret TIMING_MEM.

Definition ldr_sp (decoded : decode_result) : exec Z :=
  do base <- cpu_get_sp;
  let offset := zeroExtend32 (shl32 (imm decoded) 2) in
  let effectiveAddress := add32 base offset in
  do result <- load effectiveAddress 0;
  cpu_set_gpr (Rd decoded) result;;
  ret TIMING_MEM.

Definition ldr_lit (decoded : decode_result) : exec Z :=
  do pc <- cpu_get_pc;
  let base := Z.land pc 0xFFFFFFFC in
  let offset := zeroExtend32 (shl32 (imm decoded) 2) in
  let effectiveAddress := add32 base offset in
  do result <- load effectiveAddress 0;
  cpu_set_gpr (Rd decoded) result;;
  ret TIMING_MEM.

Definition ldr_r (decoded : decode_result) : exec Z :=
  do base <- cpu_get_gpr (Rn decoded);
  do offset <- cpu_get_gpr (Rm decoded);
  let effectiveAddress := add32 base offset in
  do result <- load effectiveAddress 0;
  cpu_set_gpr (Rd decoded) result;;
  ret TIMING_MEM.

Definition ldrb_i (decoded : decode_result) : exec Z :=
  do base <- cpu_get_gpr (Rn decoded);
  let offset := zeroExtend32 (imm decoded) in
  let effectiveAddress := add32 base offset in
  let effectiveAddressWordAligned := word_aligned effectiveAddress in
  do result <- load effectiveAddressWordAligned 0;
  let result := select_byte effectiveAddress result in
  let result := zeroExtend32 (Z.land result 0xFF) in
  cpu_set_gpr (Rd decoded) result;;
  ret TIMING_MEM.

Definition ldrb_r (decoded : decode_result) : exec Z :=
  do base <- cpu_get_gpr (Rn decoded);
  do offset <- cpu_get_gpr (Rm decoded);
  let effectiveAddress := add32 base offset in
  let effectiveAddressWordAligned := word_aligned effectiveAddress in
  do result <- load effectiveAddressWordAligned 0;
  let result := select_byte effectiveAddress result in
  let result := zeroExtend32 (Z.land result 0xFF) in
  cpu_set_gpr (Rd decoded) result;;
  ret TIMING_MEM.

Definition ldrh_i (decoded : decode_result) : exec Z :=
  do base <- cpu_get_gpr (Rn decoded);
  let offset := zeroExtend32 (shl32 (imm decoded) 1) in
  let effectiveAddress := add32 base offset in
  let effectiveAddressWordAligned := word_aligned effectiveAddress in
  do result <- load effectiveAddressWordAligned 0;
  let result := select_halfword effectiveAddress result in
  let result := zeroExtend32 (Z.land result 0xFFFF) in
  cpu_set_gpr (Rd decoded) result;;
  ret TIMING_MEM.

Definition ldrh_r (decoded : decode_result) : exec Z :=
  do base <- cpu_get_gpr (Rn decoded);
  do offset <- cpu_get_gpr (Rm decoded);
  let effectiveAddress := add32 base offset in
  let effectiveAddressWordAligned := word_aligned effectiveAddress in
  do result <- load effectiveAddressWordAligned 0;
  let result := select_halfword effectiveAddress result in
  let result := zeroExtend32 (Z.land result 0xFFFF) in
  cpu_set_gpr (Rd decoded) result;;
  ret TIMING_MEM.

Definition ldrsb_r (decoded : decode_result) : exec Z :=
  do base <- cpu_get_gpr (Rn decoded);
  do offset <- cpu_get_gpr (Rm decoded);
  let effectiveAddress := add32 base offset in
  let effectiveAddressWordAligned := word_aligned effectiveAddress in
  do result <- load effectiveAddressWordAligned 0;
  let result := select_byte effectiveAddress result in
  let result := signExtend32 (Z.land result 0xFF) 8 in
  cpu_set_gpr (Rd decoded) result;;
  ret TIMING_MEM.

Definition ldrsh_r (decoded : decode_result) : exec Z :=
  do base <- cpu_get_gpr (Rn decoded);
  do offset <- cpu_get_gpr (Rm decoded);
  let effectiveAddress := add32 base offset in
  let effectiveAddressWordAligned := word_aligned effectiveAddress in
  do result <- load effectiveAddressWordAligned 0;
  let result := select_halfword effectiveAddress result in
  let result := signExtend32 (Z.land result 0xFFFF) 16 in
  cpu_set_gpr (Rd decoded) result;;
  ret TIMING_MEM.

(** ** Single stores *)

(** [switch(effectiveAddress & 0x3)] of the byte stores. *)
Definition insert_byte (effectiveAddress orig data : Z) : Z :=
  match Z.land effectiveAddress 3 with
  | 0 => Z.lor (Z.land orig 0xFFFFFF00) (shl32 data 0)
  | 1 => Z.lor (Z.land orig 0xFFFF00FF) (shl32 data 8)
  | 2 => Z.lor (Z.land orig 0xFF00FFFF) (shl32 data 16)
  | _ => Z.lor (Z.land orig 0x00FFFFFF) (shl32 data 24)
  end.

(** [switch(effectiveAddress & 0x2)] of the halfword stores. *)
Definition insert_halfword (effectiveAddress orig data : Z) : Z :=
  match Z.land effectiveAddress 2 with
  | 0 => Z.lor (Z.land orig 0xFFFF0000) (shl32 data 0)
  | _ => Z.lor (Z.land orig 0x0000FFFF) (shl32 data 16)
  end.

Definition str_i (decoded : decode_result) : exec Z :=
  do base <- cpu_get_gpr (Rn decoded);
  let offset := zeroExtend32 (shl32 (imm decoded) 2) in
  let effectiveAddress := add32 base offset in
  do value <- cpu_get_gpr (Rd decoded);
  store effectiveAddress value;;
  ret TIMING_MEM.

Definition str_sp (decoded : decode_result) : exec Z :=
  do base <- cpu_get_sp;
  let offset := zeroExtend32 (shl32 (imm decoded) 2) in
  let effectiveAddress := add32 base offset in
  do value <- cpu_get_gpr (Rd decoded);
  store effectiveAddress value;;
  ret TIMING_MEM.

Definition str_r (decoded : decode_result) : exec Z :=
  do base <- cpu_get_gpr (Rn decoded);
  do offset <- cpu_get_gpr (Rm decoded);
  let effectiveAddress := add32 base offset in
  do value <- cpu_get_gpr (Rd decoded);
  store effectiveAddress value;;
  ret TIMING_MEM.

Definition strb_i (decoded : decode_result) : exec Z :=
  do base <- cpu_get_gpr (Rn decoded);
  let offset := zeroExtend32 (imm decoded) in
  let effectiveAddress := add32 base offset in
  let effectiveAddressWordAligned := word_aligned effectiveAddress in
  do value <- cpu_get_gpr (Rd decoded);
  let data := Z.land value 0xFF in
  do orig <- load effectiveAddressWordAligned 1;
  let orig := insert_byte effectiveAddress orig data in
  store effectiveAddressWordAligned orig;;
  ret TIMING_MEM.

Definition strb_r (decoded : decode_result) : exec Z :=
  do base <- cpu_get_gpr (Rn decoded);
  do offset <- cpu_get_gpr (Rm decoded);
  let effectiveAddress := add32 base offset in
  let effectiveAddressWordAligned := word_aligned effectiveAddress in
  do value <- cpu_get_gpr (Rd decoded);
  let data := Z.land value 0xFF in
  do orig <- load effectiveAddressWordAligned 1;
  let orig := insert_byte effectiveAddress orig data in
  store effectiveAddressWordAligned orig;;
  ret TIMING_MEM.

Definition strh_i (decoded : decode_result) : exec Z :=
  do base <- cpu_get_gpr (Rn decoded);
  let offset := zeroExtend32 (shl32 (imm decoded) 1) in
  let effectiveAddress := add32 base offset in
  let effectiveAddressWordAligned := word_aligned effectiveAddress in
  do value <- cpu_get_gpr (Rd decoded);
  let data := Z.land value 0xFFFF in
  do orig <- load effectiveAddressWordAligned 1;
  let orig := insert_halfword effectiveAddress orig data in
  store effectiveAddressWordAligned orig;;
  ret TIMING_MEM.

Definition strh_r (decoded : decode_result) : exec Z :=
  do base <- cpu_get_gpr (Rn decoded);
  do offset <- cpu_get_gpr (Rm decoded);
  let effectiveAddress := add32 base offset in
  let effectiveAddressWordAligned := word_aligned effectiveAddress in
  do value <- cpu_get_gpr (Rd decoded);
  let data := Z.land value 0xFFFF in
  do orig <- load effectiveAddressWordAligned 1;
  let orig := insert_halfword effectiveAddress orig data in
  store effectiveAddressWordAligned orig;;
  ret TIMING_MEM.

End thumbulator.

Module ehsim.

(** ** Statistics *)

(** Modelled from the spec: the per-active-period record and the bundle
    the driver owns ([stats.hpp] is not among the sources).  "Each record
    accumulates: instruction energy consumed, ..., list of backup
    intervals"; the processor statistics hold the 64-bit cycle counter. *)
Record active_stats : Type := ActiveStats {
  instruction_energy : float;
  backup_times : list Z
}.

Record cpu_stats : Type := CpuStats { cycle_count : Z }.

Record stats_bundle : Type := StatsBundle {
  cpu : cpu_stats;
  models : list active_stats
}.

(** A freshly constructed record, as [emplace_back()] makes it. *)
Definition new_active_stats : active_stats := ActiveStats 0%float [].

(** [models.back()] used as an lvalue: the last record is replaced by its
    image under [f].  It is undefined on an empty vector, which is [None]
    here. *)
Definition update_back (f : active_stats -> active_stats)
    (ms : list active_stats) : option (list active_stats) :=
  match last ms with
  | Some m => Some (removelast ms ++ [f m])
  | None => None
  end.

(** ** The on-demand all backup scheme *)

Definition cpu_frequency : Z := 8000.
Definition normal_running_energy : float := 0.03125%float.
Definition backup_energy_penalty : float := 0.75%float.
Definition backup_time_penalty : Z := 35.
Definition recovery_energy_penalty : float := 0.25%float.
Definition restore_time_penalty : Z := 35.

Section scheme.

(** The battery is a [capacitor] ([capacitor.hpp] is not among the
    sources); the scheme only reads its stored energy and draws energy
    from it. *)
Variable capacitor : Type.
Variable energy_stored : capacitor -> float.
Variable consume_energy : capacitor -> float -> capacitor.

Record on_demand_all_backup : Type := ODAB {
  battery : capacitor;
  last_cycle_count : Z
}.

Definition clock_frequency (this : on_demand_all_backup) : Z := cpu_frequency.

Definition execute_instruction (this : on_demand_all_backup) (stats : stats_bundle)
    : option (on_demand_all_backup * stats_bundle) :=
  let battery' := consume_energy (battery this) normal_running_energy in
  match update_back
          (fun m => ActiveStats (instruction_energy m + normal_running_energy)%float
                                (backup_times m))
          (models stats) with
  | Some ms => Some (ODAB battery' (last_cycle_count this), StatsBundle (cpu stats) ms)
  | None => None
  end.

Definition is_active (this : on_demand_all_backup) : bool :=
  ((normal_running_energy + backup_energy_penalty + recovery_energy_penalty)
   <? energy_stored (battery this))%float.

Definition will_backup (this : on_demand_all_backup) (stats : stats_bundle) : bool :=
  (backup_energy_penalty <? energy_stored (battery this))%float.

Definition backup (this : on_demand_all_backup) (stats : stats_bundle)
    : option (Z * on_demand_all_backup * stats_bundle) :=
  let battery' := consume_energy (battery this) backup_energy_penalty in
  let interval := sub64 (cycle_count (cpu stats)) (last_cycle_count this) in
  match update_back
          (fun m => ActiveStats (instruction_energy m) (backup_times m ++ [interval]))
          (models stats) with
  | Some ms =>
      Some (backup_time_penalty,
            ODAB battery' (cycle_count (cpu stats)),
            StatsBundle (cpu stats) ms)
  | None => None
  end.

Definition restore (this : on_demand_all_backup) (stats : stats_bundle)
    : Z * on_demand_all_backup * stats_bundle :=
  let battery' := consume_energy (battery this) recovery_energy_penalty in
  (restore_time_penalty,
   ODAB battery' (last_cycle_count this),
   StatsBundle (cpu stats) (models stats ++ [new_active_stats])).

End scheme.

Arguments ODAB {capacitor} battery last_cycle_count.
Arguments battery {capacitor} o.
Arguments last_cycle_count {capacitor} o.
Arguments clock_frequency {capacitor} this.
Arguments execute_instruction {capacitor} consume_energy this stats.
Arguments is_active {capacitor} energy_stored this.
Arguments will_backup {capacitor} energy_stored this stats.
Arguments backup {capacitor} consume_energy this stats.
Arguments restore {capacitor} consume_energy this stats.

End ehsim.

Import thumbulator ehsim.

(** * Vocabulary of the specification *)

(** ** The single load/store handlers

    The opcode tags of the single load/store execute units and the
    dispatch on them (the decoder's enumeration is not among the
    sources). *)
Inductive mem_op : Type :=
| LDR_I | LDR_SP | LDR_LIT | LDR_R
| LDRB_I | LDRB_R | LDRH_I | LDRH_R | LDRSB_R | LDRSH_R
| STR_I | STR_SP | STR_R
| STRB_I | STRB_R | STRH_I | STRH_R.

Definition execute (op : mem_op) : decode_result -> exec Z :=
  match op with
  | LDR_I => ldr_i | LDR_SP => ldr_sp | LDR_LIT => ldr_lit | LDR_R => ldr_r
  | LDRB_I => ldrb_i | LDRB_R => ldrb_r | LDRH_I => ldrh_i | LDRH_R => ldrh_r
  | LDRSB_R => ldrsb_r | LDRSH_R => ldrsh_r
  | STR_I => str_i | STR_SP => str_sp | STR_R => str_r
  | STRB_I => strb_i | STRB_R => strb_r | STRH_I => strh_i | STRH_R => strh_r
  end.

(** The handlers that synthesize a byte or halfword access from a word
    access. *)
Definition sub_word (op : mem_op) : bool :=
  match op with
  | LDRB_I | LDRB_R | LDRH_I | LDRH_R | LDRSB_R | LDRSH_R
  | STRB_I | STRB_R | STRH_I | STRH_R => true
  | _ => false
  end.

(** The effective address a handler computes in state [s]: the
    [effectiveAddress] of its source. *)
Definition effective_address (op : mem_op) (decoded : decode_result) (s : state) : Z :=
  match op with
  | LDR_I | STR_I => add32 (gpr s (Rn decoded)) (zeroExtend32 (shl32 (imm decoded) 2))
  | LDR_SP | STR_SP => add32 (gpr s GPR_SP) (zeroExtend32 (shl32 (imm decoded) 2))
  | LDR_LIT => add32 (Z.land (gpr s GPR_PC) 0xFFFFFFFC) (zeroExtend32 (shl32 (imm decoded) 2))
  | LDRB_I | STRB_I => add32 (gpr s (Rn decoded)) (zeroExtend32 (imm decoded))
  | LDRH_I | STRH_I => add32 (gpr s (Rn decoded)) (zeroExtend32 (shl32 (imm decoded) 1))
  | _ => add32 (gpr s (Rn decoded)) (gpr s (Rm decoded))
  end.

(** ** Register lists, addresses and stored words *)

(** Register [i] is in the register list: the loops' test
    [register_list & (1 << i)]. *)
Definition listed (rl i : Z) : bool := negb (Z.land rl (Z.shiftl 1 i) =? 0).

(** The registers of a loop, in the loop's order, that are in the list. *)
Definition transferred (rl : Z) (loop : list Z) : list Z :=
  filter (fun i => listed rl i) loop.

(** The address [k] words above [a], and the address [k] words below it. *)
Definition addr_up (a : Z) (k : nat) : Z := wrap32 (a + 4 * Z.of_nat k).
Definition addr_down (a : Z) (k : nat) : Z := wrap32 (a - 4 * Z.of_nat k).

(** The registers an LDM or STM transfers: those of r0..r7 in the list,
    in ascending order. *)
Definition low_registers (d : decode_result) : list Z :=
  transferred (register_list d) (seqZ 0 8).

(** The decoded instruction [d] with its register list replaced. *)
Definition with_register_list (d : decode_result) (rl : Z) : decode_result :=
  Decoded (Rd d) (Rn d) (Rm d) (imm d) rl.

(** The RAM after the words [ws] (address, value) were written in order. *)
Definition write_words (ws : list (Z * Z)) (ram : gmap Z Z) : gmap Z Z :=
  foldl (fun m w => <[w.1 := w.2]> m) ram ws.

(** The words a store-multiple writes: the [k]-th register of [regs]
    goes to the address [addr k]. *)
Definition store_plan (addr : nat -> Z) (s : state) (regs : list Z) : list (Z * Z) :=
  imap (fun k r => (addr k, gpr s r)) regs.

(** The state after the words [ws] were stored, in order, from [s]. *)
Definition after_stores (s : state) (ws : list (Z * Z)) : state :=
  State (gpr s) (BRANCH_WAS_TAKEN s)
        (Memory (write_words ws (RAM (mem s))) (ROM (mem s)))
        (accesses s ++ map (fun w => Store w.1 w.2) ws).

(** ** Outcomes, alignment and byte lanes *)

(** The cycle cost an execute unit returned, if it returned. *)
Definition cost {A} (o : outcome A) : option A :=
  match o with
  | Done c _ => Some c
  | Fatal _ _ => None
  end.

(** The fault an execute unit ended in, if it did. *)
Definition fault_of {A} (o : outcome A) : option fault :=
  match o with
  | Done _ _ => None
  | Fatal f _ => Some f
  end.

(** An address is a multiple of 4. *)
Definition aligned4 (a : Z) : bool := a mod 4 =? 0.

(** Every call in [es] passes an address that is a multiple of 4. *)
Definition addresses_aligned (es : list access) : bool :=
  forallb (fun e => aligned4 (access_address e)) es.

(** Byte lane [k] (0..3) of a word. *)
Definition byte_lane (w k : Z) : Z := Z.land (Z.shiftr w (8 * k)) 0xFF.

(** The byte stores and the byte loads among the handlers. *)
Definition byte_store (op : mem_op) : bool :=
  match op with
  | STRB_I | STRB_R => true
  | _ => false
  end.

Definition byte_load (op : mem_op) : bool :=
  match op with
  | LDRB_I | LDRB_R => true
  | _ => false
  end.

(** ** The battery and runs of the ODAB scheme *)

(** Modelled from the spec: a capacitor seen through the energy it
    stores ([capacitor.hpp] is not among the sources); "[consume(ΔE)]
    reduces stored energy; if ΔE exceeds stored energy the capacitor goes
    to 0". *)
Definition stored_energy_capacitor : Type := float.

Definition stored_energy (c : stored_energy_capacitor) : float := c.

Definition drain (c : stored_energy_capacitor) (e : float) : stored_energy_capacitor :=
  if (c <? e)%float then 0%float else (c - e)%float.

(** Modelled from the spec: what the driver (not among the sources) does
    to the scheme and the cycle counter.  It adds cycles to
    [stats.cpu.cycle_count] (the cost of an instruction, or the penalty a
    backup or restore returned), and it calls [backup] and [restore]. *)
Inductive event : Type :=
| Cycles (k : Z)
| Backup
| Restore.

Definition step {capacitor} (consume_energy : capacitor -> float -> capacitor)
    (e : event) (c : on_demand_all_backup capacitor * stats_bundle)
    : option (on_demand_all_backup capacitor * stats_bundle) :=
  let '(this, stats) := c in
  match e with
  | Cycles k =>
      Some (this, StatsBundle (CpuStats (wrap64 (cycle_count (cpu stats) + k))) (models stats))
  | Backup =>
      match backup consume_energy this stats with
      | Some (_, this', stats') => Some (this', stats')
      | None => None
      end
  | Restore =>
      let '(_, this', stats') := restore consume_energy this stats in Some (this', stats')
  end.

Fixpoint run {capacitor} (consume_energy : capacitor -> float -> capacitor)
    (es : list event) (c : on_demand_all_backup capacitor * stats_bundle)
    : option (on_demand_all_backup capacitor * stats_bundle) :=
  match es with
  | [] => Some c
  | e :: es' =>
      match step consume_energy e c with
      | Some c' => run consume_energy es' c'
      | None => None
      end
  end.

(** The backup intervals of every active-period record, oldest first. *)
Definition recorded_intervals (stats : stats_bundle) : list (list Z) :=
  map backup_times (models stats).

Definition sum_intervals (ivs : list Z) : Z := foldr Z.add 0 ivs.

Definition total_intervals (stats : stats_bundle) : Z :=
  sum_intervals (concat (recorded_intervals stats)).

(** The cycles a driver adds over a run. *)
Fixpoint total_cycles (es : list event) : Z :=
  match es with
  | [] => 0
  | Cycles k :: es' => k + total_cycles es'
  | _ :: es' => total_cycles es'
  end.

(** The driver only ever adds cycles. *)
Definition forward (e : event) : Prop :=
  match e with
  | Cycles k => 0 <= k
  | _ => True
  end.

(** The cycle count at the last backup of a run that starts at cycle
    count [cc] with the previous backup at [last]. *)
Fixpoint cycles_at_last_backup (cc last : Z) (es : list event) : Z :=
  match es with
  | [] => last
  | Cycles k :: es' => cycles_at_last_backup (cc + k) last es'
  | Backup :: es' => cycles_at_last_backup cc cc es'
  | Restore :: es' => cycles_at_last_backup cc last es'
  end.

(** Following the spec's words: the intervals as the claim has them, each
    measured from the previous event of the same active period, the
    previous backup or the restore that opened the period. *)
Fixpoint claimed_intervals (cc previous : Z) (records : list (list Z))
    (es : list event) : list (list Z) :=
  match es with
  | [] => records
  | Cycles k :: es' => claimed_intervals (cc + k) previous records es'
  | Backup :: es' =>
      claimed_intervals cc cc
        (removelast records ++ [List.last records [] ++ [cc - previous]]) es'
  | Restore :: es' => claimed_intervals cc cc (records ++ [[]]) es'
  end.

(** The scheme and statistics at power-on: no backup yet, cycle count 0
    and one open active-period record. *)
Definition power_on {capacitor} (b : capacitor) : on_demand_all_backup capacitor * stats_bundle :=
  (ODAB b 0, StatsBundle (CpuStats 0) [new_active_stats]).

(** The invariant of a run: there is an open record, the counters are
    64-bit values in order, and the recorded intervals add up to the
    cycle count of the last backup. *)
Definition run_invariant {capacitor}
    (c : on_demand_all_backup capacitor * stats_bundle) : Prop :=
  models c.2 <> []
  /\ 0 <= last_cycle_count c.1 <= cycle_count (cpu c.2)
  /\ cycle_count (cpu c.2) < 2 ^ 64
  /\ total_intervals c.2 = last_cycle_count c.1.

(** ** Kinds of handlers and what they access *)

Definition is_load (op : mem_op) : bool :=
  match op with
  | LDR_I | LDR_SP | LDR_LIT | LDR_R
  | LDRB_I | LDRB_R | LDRH_I | LDRH_R | LDRSB_R | LDRSH_R => true
  | _ => false
  end.

Definition word_load (op : mem_op) : bool :=
  match op with
  | LDR_I | LDR_SP | LDR_LIT | LDR_R => true
  | _ => false
  end.

Definition word_store (op : mem_op) : bool :=
  match op with
  | STR_I | STR_SP | STR_R => true
  | _ => false
  end.

Definition halfword_load (op : mem_op) : bool :=
  match op with
  | LDRH_I | LDRH_R => true
  | _ => false
  end.

Definition halfword_store (op : mem_op) : bool :=
  match op with
  | STRH_I | STRH_R => true
  | _ => false
  end.

(** Halfword lane [k] (0 or 1) of a word. *)
Definition halfword_lane (w k : Z) : Z := Z.land (Z.shiftr w (16 * k)) 0xFFFF.

(** The address a handler passes to the memory interface. *)
Definition access_target (op : mem_op) (d : decode_result) (s : state) : Z :=
  if sub_word op then word_aligned (effective_address op d s)
  else effective_address op d s.

(** The handler's target can be accessed: a load needs a mapped word, a
    store a word of RAM. *)
Definition accessible (op : mem_op) (d : decode_result) (s : state) : bool :=
  if is_load op
  then bool_decide (is_Some (mem_load (mem s) (access_target op d s)))
  else bool_decide (is_Some (RAM (mem s) !! access_target op d s)).

(** What [pop] calls the register that [push] saved as [r]: LR comes
    back as PC. *)
Definition lr_to_pc (r : Z) : Z := if r =? 14 then 15 else r.

(** A register file that kept nothing but register [keep], over the
    memory [m]. *)
Definition scratch_registers (keep v : Z) (m : memory) : state :=
  State (fun r => if r =? keep then v else 0) true m [].

(** ** Records and accounting of the ODAB scheme *)

Fixpoint count_restores (es : list event) : nat :=
  match es with
  | [] => 0
  | Restore :: es' => S (count_restores es')
  | _ :: es' => count_restores es'
  end.

(** What the backup accounting can see of a configuration. *)
Definition accounting_view {capacitor} (c : on_demand_all_backup capacitor * stats_bundle)
    : Z * Z * list (list Z) :=
  (last_cycle_count c.1, cycle_count (cpu c.2), recorded_intervals c.2).

(** ** Example machine states and runs *)

(** Scenario "LDM write-back exclusion": the words 0x100, 0x200, 0x300 at
    0x20000000 and [ldm r0!, {r0, r1, r2}] with r0 = 0x20000000. *)
Definition ldm_example_state : state :=
  State (fun r => if r =? 0 then 0x20000000 else 0) false
        (Memory (list_to_map [(0x20000000, 0x100); (0x20000004, 0x200); (0x20000008, 0x300)]) ∅)
        [].

Definition ldm_example : decode_result := Decoded 0 0 0 0 7.

(** Three words of RAM at 0x20000000; every register holds that address. *)
Definition stm_example_state : state :=
  State (fun _ => 0x20000000) false
        (Memory (list_to_map [(0x20000000, 0); (0x20000004, 0); (0x20000008, 0)]) ∅)
        [].

(** A stack of three words at 0x20000000, with SP pointing at it. *)
Definition stack_example_state : state :=
  State (fun r => if r =? 13 then 0x20000000 else 0) false
        (Memory (list_to_map [(0x20000000, 11); (0x20000004, 22); (0x20000008, 33)]) ∅)
        [].

(** Nine words of RAM below SP = 0x20000024, r0..r7 = 100..107 and
    LR = 0x08000123. *)
Definition round_trip_example_state : state :=
  State (fun r => if r =? 13 then 0x20000024 else if r =? 14 then 0x08000123 else 100 + r)
        false
        (Memory (list_to_map ((fun k => (0x20000000 + 4 * k, 0)) <$> seqZ 0 9)) ∅)
        [].

(** A state whose r1 holds the odd address 1. *)
Definition odd_base_state : state :=
  State (fun r => if r =? 1 then 1 else 0) false (Memory ∅ ∅) [].

(** A state with the word 0xDEADBEEF at 0x20000000, r0 = 0x20000001 and
    r1 = 0x1234ABCD. *)
Definition byte_example_state : state :=
  State (fun r => if r =? 0 then 0x20000001 else if r =? 1 then 0x1234ABCD else 0) false
        (Memory {[ 0x20000000 := 0xDEADBEEF ]} ∅) [].

(** A battery holding 2 units of energy, well above the 1.03125 that one
    instruction, a backup and a restore need together. *)
Definition ample_battery : on_demand_all_backup stored_energy_capacitor :=
  ODAB 2%float 0.

Definition one_period_stats (cycles : Z) : stats_bundle :=
  StatsBundle (CpuStats cycles) [new_active_stats].

(** One backup after 100 cycles, power loss, a restore, and a second
    backup 30 cycles into the second active period. *)
Definition two_period_run : list event :=
  [Cycles 100; Backup; Cycles 35; Restore; Cycles 35; Cycles 30; Backup].

(** The run of [two_period_run] up to, and without, its second backup. *)
Definition before_second_backup : list event :=
  [Cycles 100; Backup; Cycles 35; Restore; Cycles 35; Cycles 30].

(** Three words of RAM at 0x20000000, r3 pointing at them and every
    other register [r] holding 100 + r. *)
Definition block_example_state : state :=
  State (fun r => if r =? 3 then 0x20000000 else 100 + r) false
        (Memory (list_to_map [(0x20000000, 0xDEADBEEF); (0x20000004, 0); (0x20000008, 0)]) ∅)
        [].

(** Scenario "Byte granularity": r0 = 0x20000000, and r1..r4 hold the
    bytes 0xEF, 0xBE, 0xAD, 0xDE. *)
Definition four_bytes_example_state : state :=
  State (fun r => if r =? 0 then 0x20000000
                  else if r =? 1 then 0xEF else if r =? 2 then 0xBE
                  else if r =? 3 then 0xAD else if r =? 4 then 0xDE else 0)
        false (Memory {[ 0x20000000 := 0 ]} ∅) [].

(** A battery that is never consulted. *)
Definition no_battery (u : unit) (e : float) : unit := u.

(** A stack with room for two words only: RAM at 0x20000000 and
    0x20000004, SP = 0x20000008 and every other register [r] holding
    100 + r. *)
Definition shallow_stack_example_state : state :=
  State (fun r => if r =? 13 then 0x20000008 else 100 + r) false
        (Memory (list_to_map [(0x20000000, 0); (0x20000004, 0)]) ∅) [].

(** * Word arithmetic *)

Lemma wrap32_small x : 0 <= x < 2 ^ 32 -> wrap32 x = x.
Proof. intros H. unfold wrap32. apply Z.mod_small. exact H. Qed.

Lemma wrap32_range x : 0 <= wrap32 x < 2 ^ 32.
Proof. unfold wrap32. apply Z.mod_pos_bound. reflexivity. Qed.

Lemma addr_up_0 a : 0 <= a < 2 ^ 32 -> addr_up a 0 = a.
Proof. intros H. unfold addr_up. rewrite Z.add_0_r. by apply wrap32_small. Qed.

Lemma addr_up_S a k : addr_up (add32 a 4) k = addr_up a (S k).
Proof.
  unfold addr_up, add32, wrap32. rewrite Zplus_mod_idemp_l. f_equal. lia.
Qed.

Lemma addr_down_S a k : addr_down (sub32 a 4) k = addr_down a (S k).
Proof.
  unfold addr_down, sub32, wrap32. rewrite Zminus_mod_idemp_l. f_equal. lia.
Qed.

Lemma addr_down_0 a : 0 <= a < 2 ^ 32 -> addr_down a 0 = a.
Proof. intros H. unfold addr_down. rewrite Z.sub_0_r. by apply wrap32_small. Qed.

(** * The execution monad *)

Lemma bind_Done {A B} (m : exec A) (k : A -> exec B) s b s' :
  bind m k s = Done b s' -> exists a s1, m s = Done a s1 /\ k a s1 = Done b s'.
Proof.
  unfold bind. destruct (m s) as [a s1|f s1]; [eauto|discriminate].
Qed.

Lemma state_eta s :
  State (gpr s) (BRANCH_WAS_TAKEN s) (mem s) (accesses s) = s.
Proof. by destruct s. Qed.

Lemma memory_eta m : Memory (RAM m) (ROM m) = m.
Proof. by destruct m. Qed.

Lemma listed_false rl i :
  (Z.land rl (Z.shiftl 1 i) =? 0) = true -> listed rl i = false.
Proof. unfold listed. by intros ->. Qed.

Lemma listed_true rl i :
  (Z.land rl (Z.shiftl 1 i) =? 0) = false -> listed rl i = true.
Proof. unfold listed. by intros ->. Qed.

Lemma transferred_skip rl i l :
  listed rl i = false -> transferred rl (i :: l) = transferred rl l.
Proof.
  intros H. unfold transferred. apply filter_cons_False. rewrite H. simpl. tauto.
Qed.

Lemma transferred_take rl i l :
  listed rl i = true -> transferred rl (i :: l) = i :: transferred rl l.
Proof.
  intros H. unfold transferred. apply filter_cons_True. by rewrite H.
Qed.

Lemma elem_of_transferred rl l r :
  r ∈ transferred rl l <-> listed rl r = true /\ r ∈ l.
Proof.
  unfold transferred. rewrite list_elem_of_filter.
  split; intros [H1 H2]; split; try done.
  - by apply Is_true_true.
  - by apply Is_true_true.
Qed.

(** * LDM *)

Section ldm_loop.

Variable d : decode_result.
Let rl := register_list d.

Lemma ldm_loop_done l : NoDup l -> forall a n s,
  0 <= a < 2 ^ 32 -> 0 <= n -> n + Z.of_nat (length l) < 2 ^ 32 ->
  (forall k, (k < length (transferred rl l))%nat ->
     is_Some (mem_load (mem s) (addr_up a k))) ->
  exists s',
    for_each (ldm_body d) l (a, n) s
    = Done (addr_up a (length (transferred rl l)),
            n + Z.of_nat (length (transferred rl l))) s'
    /\ mem s' = mem s
    /\ BRANCH_WAS_TAKEN s' = BRANCH_WAS_TAKEN s
    /\ accesses s' = accesses s ++ imap (fun k _ => Load (addr_up a k) 0) (transferred rl l)
    /\ (forall r, r ∉ transferred rl l -> gpr s' r = gpr s r)
    /\ (forall k r, transferred rl l !! k = Some r ->
          mem_load (mem s) (addr_up a k) = Some (gpr s' r)).
Proof.
  induction 1 as [|i l Hi Hl IH]; intros a n s Ha Hn Hb Hm.
  - exists s. simpl. rewrite addr_up_0 by done. rewrite Z.add_0_r, app_nil_r.
    split; [reflexivity|]. split; [reflexivity|]. split; [reflexivity|].
    split; [reflexivity|]. split; [intros; reflexivity|]. intros k r Hk. discriminate.
  - rewrite length_cons, Nat2Z.inj_succ in Hb.
    cbn [for_each]. unfold bind at 1. unfold ldm_body at 1. fold rl.
    destruct (Z.land rl (Z.shiftl 1 i) =? 0) eqn:Hbit.
    + apply listed_false in Hbit. rewrite (transferred_skip _ _ _ Hbit) in *.
      unfold ret. apply IH; [done|done|lia|exact Hm].
    + apply listed_true in Hbit. rewrite (transferred_take _ _ _ Hbit) in *.
      destruct (Hm 0%nat) as [w Hw]; [simpl; lia|].
      rewrite addr_up_0 in Hw by done.
      unfold bind at 1. unfold load at 1. rewrite Hw.
      unfold bind at 1, cpu_set_gpr at 1, ret at 1.
      set (s1 := State _ _ _ _).
      destruct (IH (add32 a 4) (add32 n 1) s1) as (s' & Hrun & Hmem & Hbt & Hacc & Hother & Hval).
      * apply wrap32_range.
      * apply wrap32_range.
      * unfold add32. rewrite wrap32_small; lia.
      * intros k Hk. rewrite addr_up_S. apply (Hm (S k)). simpl. lia.
      * exists s'. rewrite Hrun. rewrite addr_up_S. unfold add32 at 1. rewrite wrap32_small by lia.
        rewrite length_cons, Nat2Z.inj_succ.
        split; [f_equal; f_equal; lia|]. split; [done|]. split; [done|].
        split.
        { rewrite Hacc. subst s1. simpl. rewrite <- app_assoc. simpl.
          rewrite addr_up_0 by done. f_equal. f_equal.
          apply imap_ext. intros k x _. simpl. by rewrite addr_up_S. }
        split.
        { intros r Hr. rewrite Hother.
          - subst s1. simpl. unfold reg_update.
            destruct (Z.eqb_spec r i); [|done]. subst r. exfalso. apply Hr. left.
          - intros Hin. apply Hr. by right. }
        { intros [|k] r Hk.
          - simpl in Hk. injection Hk as <-. rewrite addr_up_0 by done. rewrite Hw. f_equal.
            rewrite Hother.
            + subst s1. simpl. unfold reg_update. by rewrite Z.eqb_refl.
            + intros Hin. apply Hi. apply elem_of_transferred in Hin. tauto.
          - simpl in Hk. rewrite <- addr_up_S. apply Hval in Hk. exact Hk. }
Qed.

End ldm_loop.

Lemma NoDup_seqZ_0_8 : NoDup (seqZ 0 8).
Proof. apply NoDup_seqZ. Qed.

Lemma low_registers_length d : (length (low_registers d) <= 8)%nat.
Proof.
  unfold low_registers, transferred. etrans; [apply length_filter|].
  by rewrite length_seqZ.
Qed.

Lemma elem_of_low_registers d r :
  0 <= r < 8 -> (r ∈ low_registers d <-> listed (register_list d) r = true).
Proof.
  intros Hr. unfold low_registers. rewrite elem_of_transferred.
  split; [tauto|]. intros H. split; [done|]. apply elem_of_seqZ. lia.
Qed.

(** C5: an LDM with base register Rn (one of r0..r7, holding a 32-bit
    address) whose words are readable loads the listed registers of
    r0..r7 in ascending order from the consecutive word addresses
    base, base+4, ...; it costs 1 + N cycles; afterwards Rn is
    base + 4N if Rn is not in the list, and the word loaded into it if
    it is; the other registers and the memory are unchanged. *)
Theorem ldm_loads_ascending_then_writes_back (d : decode_result) (s : state) :
  0 <= Rn d < 8 ->
  0 <= gpr s (Rn d) < 2 ^ 32 ->
  (forall k, (k < length (low_registers d))%nat ->
     is_Some (mem_load (mem s) (addr_up (gpr s (Rn d)) k))) ->
  exists s',
    ldm d s = Done (1 + Z.of_nat (length (low_registers d))) s'
    /\ accesses s' = accesses s ++
         imap (fun k _ => Load (addr_up (gpr s (Rn d)) k) 0) (low_registers d)
    /\ mem s' = mem s
    /\ (forall k r, low_registers d !! k = Some r ->
          mem_load (mem s) (addr_up (gpr s (Rn d)) k) = Some (gpr s' r))
    /\ (Rn d ∉ low_registers d ->
          gpr s' (Rn d) = addr_up (gpr s (Rn d)) (length (low_registers d)))
    /\ (forall r, r ∉ low_registers d -> r <> Rn d -> gpr s' r = gpr s r).
Proof.
  intros HRn Hbase Hmem.
  set (base := gpr s (Rn d)) in *. set (regs := low_registers d) in *.
  assert (Hlen : (length regs <= 8)%nat) by apply low_registers_length.
  destruct (ldm_loop_done d (seqZ 0 8) NoDup_seqZ_0_8 base 0 s) as
    (s1 & Hrun & Hm1 & _ & Hacc & Hother & Hval); [done|lia|by rewrite length_seqZ|exact Hmem|].
  fold (low_registers d) in Hrun, Hacc, Hother, Hval. fold regs in Hrun, Hacc, Hother, Hval.
  assert (Hin : Rn d ∈ regs <-> listed (register_list d) (Rn d) = true)
    by (by apply elem_of_low_registers).
  unfold ldm. unfold bind at 1, cpu_get_gpr at 1. fold base.
  unfold bind at 1. rewrite Hrun. rewrite Z.add_0_l.
  rewrite (Z.land_comm (Z.shiftl 1 (Rn d))).
  unfold add32. rewrite wrap32_small by lia.
  destruct (Z.land (register_list d) (Z.shiftl 1 (Rn d)) =? 0) eqn:Hbit.
  - apply listed_false in Hbit.
    assert (Hnot : Rn d ∉ regs) by (rewrite Hin, Hbit; done).
    eexists. unfold bind, cpu_set_gpr, ret. split; [reflexivity|]. simpl.
    split; [done|]. split; [done|]. split.
    { intros k r Hk. rewrite (Hval k r Hk). f_equal. unfold reg_update.
      destruct (Z.eqb_spec r (Rn d)) as [->|]; [|done].
      exfalso. apply Hnot. eapply list_elem_of_lookup_2. exact Hk. }
    split.
    { intros _. unfold reg_update. by rewrite Z.eqb_refl. }
    { intros r Hr Hne. unfold reg_update.
      destruct (Z.eqb_spec r (Rn d)); [done|]. by apply Hother. }
  - apply listed_true in Hbit.
    exists s1. unfold bind, ret. split; [reflexivity|].
    split; [done|]. split; [done|]. split; [done|]. split.
    { intros Hnot. exfalso. apply Hnot. by apply Hin. }
    { intros r Hr _. by apply Hother. }
Qed.

Lemma ldm_loads_ascending_then_writes_back_witness :
  exists s',
    ldm ldm_example ldm_example_state = Done 4 s'
    /\ gpr s' 0 = 0x100 /\ gpr s' 1 = 0x200 /\ gpr s' 2 = 0x300.
Proof.
  destruct (ldm_loads_ascending_then_writes_back ldm_example ldm_example_state)
    as (s' & Hrun & _ & _ & Hval & _).
  - vm_compute. split; congruence.
  - vm_compute. split; congruence.
  - intros k Hk. change (length (low_registers ldm_example)) with 3%nat in Hk.
    destruct k as [|[|[|k]]]; [vm_compute; eauto ..|lia].
  - exists s'. split; [exact Hrun|].
    pose proof (Hval 0%nat 0 eq_refl) as H0.
    pose proof (Hval 1%nat 1 eq_refl) as H1.
    pose proof (Hval 2%nat 2 eq_refl) as H2.
    vm_compute in H0, H1, H2.
    injection H0 as H0. injection H1 as H1. injection H2 as H2.
    split; [symmetry; exact H0|]. split; symmetry; [exact H1|exact H2].
Defined.

(** * The ODAB scheme: activity and backup decisions *)

(** C9: [is_active] is true exactly when the stored energy strictly
    exceeds [normal_running_energy + backup_energy_penalty +
    recovery_energy_penalty]; in binary64 this sum is exactly 1.03125,
    so a battery holding exactly 1.03125 is not active and one holding
    1.0625 is. *)
Theorem is_active_iff_energy_exceeds_reserve
    (capacitor : Type) (energy_stored : capacitor -> float)
    (this : on_demand_all_backup capacitor) :
  is_active energy_stored this
  = (normal_running_energy + backup_energy_penalty + recovery_energy_penalty
     <? energy_stored (battery this))%float
  /\ (normal_running_energy + backup_energy_penalty + recovery_energy_penalty
      = 1.03125)%float
  /\ is_active stored_energy (ODAB 1.03125%float 0) = false
  /\ is_active stored_energy (ODAB 1.0625%float 0) = true.
Proof.
  split; [reflexivity|]. repeat split; vm_compute; reflexivity.
Qed.

(** [will_backup] looks at the stored energy only: it is true exactly
    when that energy strictly exceeds [backup_energy_penalty]. *)
Lemma will_backup_iff_energy_exceeds_penalty
    (capacitor : Type) (energy_stored : capacitor -> float)
    (this : on_demand_all_backup capacitor) (stats : stats_bundle) :
  will_backup energy_stored this stats
  = (0.75 <? energy_stored (battery this))%float.
Proof. reflexivity. Qed.

(** C3: [will_backup] is true whenever the stored energy exceeds the
    backup penalty: with 2 units of stored energy the processor is
    active, and stays so after the next instruction, yet [will_backup]
    answers true before and after it. *)
Theorem will_backup_true_with_ample_energy :
  (forall (this : on_demand_all_backup stored_energy_capacitor) stats,
     will_backup stored_energy this stats = (0.75 <? stored_energy (battery this))%float)
  /\ is_active stored_energy ample_battery = true
  /\ will_backup stored_energy ample_battery (one_period_stats 0) = true
  /\ (exists this' stats',
        execute_instruction drain ample_battery (one_period_stats 0) = Some (this', stats')
        /\ is_active stored_energy this' = true
        /\ will_backup stored_energy this' stats' = true).
Proof.
  split; [intros this stats; apply will_backup_iff_energy_exceeds_penalty|].
  split; [vm_compute; reflexivity|]. split; [vm_compute; reflexivity|].
  eexists _, _. split; [reflexivity|]. split; vm_compute; reflexivity.
Qed.

(** * POP and PUSH *)

Lemma pop_loop_count d l : forall a n s a' n' s',
  0 <= n -> n + Z.of_nat (length l) < 2 ^ 32 ->
  for_each (pop_body d) l (a, n) s = Done (a', n') s' ->
  n <= n' <= n + Z.of_nat (length l).
Proof.
  induction l as [|i l IH]; intros a n s a' n' s' Hn Hb H.
  - simpl in H. injection H as <- <- <-. simpl. lia.
  - simpl in H. apply bind_Done in H as ([a1 n1] & s1 & Hbody & Hrest).
    unfold pop_body in Hbody.
    rewrite length_cons, Nat2Z.inj_succ in *.
    destruct (Z.land (register_list d) (Z.shiftl 1 i) =? 0).
    + injection Hbody as <- <- <-. apply IH in Hrest; lia.
    + apply bind_Done in Hbody as (data & s2 & _ & Hbody).
      apply bind_Done in Hbody as ([] & s3 & _ & Hbody).
      apply bind_Done in Hbody as ([] & s4 & _ & Hbody).
      injection Hbody as <- <- <-.
      unfold add32 in Hrest. rewrite (wrap32_small (n + 1)) in Hrest by lia.
      apply IH in Hrest; lia.
Qed.

(** Whatever [pop] transfers, the cost it returns is [TIMING_PC_UPDATE]:
    the sum [1 + numLoaded + BRANCH_WAS_TAKEN] is never zero. *)
Lemma pop_cost_constant d s c s' : pop d s = Done c s' -> c = TIMING_PC_UPDATE.
Proof.
  unfold pop. intros H.
  apply bind_Done in H as (sp & s1 & _ & H).
  apply bind_Done in H as ([a n] & s2 & Hloop & H).
  apply bind_Done in H as ([] & s3 & _ & H).
  apply bind_Done in H as (taken & s4 & _ & H).
  injection H as <- <-.
  apply pop_loop_count in Hloop; [|lia|vm_compute; reflexivity].
  change (Z.of_nat (length pop_loop)) with 9 in Hloop.
  assert (0 <= Z.b2z taken <= 1) by (destruct taken; simpl; lia).
  unfold add32. rewrite (wrap32_small (1 + n)) by lia.
  rewrite wrap32_small by lia.
  destruct (Z.eqb_spec (1 + n + Z.b2z taken) 0); [lia|reflexivity].
Qed.

(** C1: the cost [pop] returns is [TIMING_PC_UPDATE] whatever it
    transfers; [pop {r0, r1}] transfers two registers and [pop {r0, pc}]
    transfers two and branches, and both return 2 cycles, not
    1 + 2 = 3 and 1 + 2 + 2 = 5. *)
Theorem pop_cost_ignores_transfer_count :
  (forall d s c s', pop d s = Done c s' -> c = TIMING_PC_UPDATE)
  /\ transferred 0x0003 pop_loop = [0; 1]
  /\ cost (pop (Decoded 0 0 0 0 0x0003) stack_example_state) = Some 2
  /\ transferred 0x8001 pop_loop = [0; 15]
  /\ cost (pop (Decoded 0 0 0 0 0x8001) stack_example_state) = Some 2.
Proof.
  split; [exact pop_cost_constant|].
  repeat split; vm_compute; reflexivity.
Qed.

Lemma for_each_ext {A} (f g : Z -> A -> exec A) l :
  (forall i, i ∈ l -> forall a s, f i a s = g i a s) ->
  forall a s, for_each f l a s = for_each g l a s.
Proof.
  induction l as [|i l IH]; intros H a s; [reflexivity|].
  cbn [for_each]. unfold bind. rewrite H by left.
  destruct (g i a s) as [a' s'|]; [|reflexivity].
  apply IH. intros j Hj. apply H. by right.
Qed.

Lemma pop_list_bits i rl : i ∈ pop_loop ->
  Z.land (Z.ldiff rl 0x7F00) (Z.shiftl 1 i) = Z.land rl (Z.shiftl 1 i).
Proof.
  intros H. rewrite Z.ldiff_land, <- Z.land_assoc.
  change pop_loop with [0;1;2;3;4;5;6;7;15] in H.
  repeat (apply elem_of_cons in H as [->|H]; [reflexivity|]).
  by apply elem_of_nil in H.
Qed.

Lemma push_list_bits i rl : i ∈ push_loop ->
  Z.land (Z.ldiff rl 0xBF00) (Z.shiftl 1 i) = Z.land rl (Z.shiftl 1 i).
Proof.
  intros H. rewrite Z.ldiff_land, <- Z.land_assoc.
  change push_loop with [14;7;6;5;4;3;2;1;0] in H.
  repeat (apply elem_of_cons in H as [->|H]; [reflexivity|]).
  by apply elem_of_nil in H.
Qed.

(** C10: [pop] behaves on every register list as on the list with bits
    8..14 cleared, and [push] as on the list with bits 8..13 and 15
    cleared: same outcome, that is the same registers, SP, memory, calls
    to the memory interface and returned cost. *)
Theorem pop_push_ignore_unused_list_bits (d : decode_result) (s : state) :
  pop (with_register_list d (Z.ldiff (register_list d) 0x7F00)) s = pop d s
  /\ push (with_register_list d (Z.ldiff (register_list d) 0xBF00)) s = push d s.
Proof.
  split.
  - unfold pop, bind. destruct (cpu_get_sp s) as [sp s1|]; [|reflexivity].
    rewrite (for_each_ext (pop_body (with_register_list d _)) (pop_body d)); [reflexivity|].
    intros i Hi [a n] s2. unfold pop_body. simpl. by rewrite pop_list_bits.
  - unfold push, bind. destruct (cpu_get_sp s) as [sp s1|]; [|reflexivity].
    rewrite (for_each_ext (push_body (with_register_list d _)) (push_body d)); [reflexivity|].
    intros i Hi [a n] s2. unfold push_body. simpl. by rewrite push_list_bits.
Qed.

(** * Addresses passed to the memory interface *)

Lemma wrap32_mod4 x : wrap32 x mod 4 = x mod 4.
Proof. unfold wrap32. apply Z.mod_mod_divide. exists (2 ^ 30). reflexivity. Qed.

Lemma word_aligned_aligned a : aligned4 (word_aligned a) = true.
Proof.
  unfold aligned4, word_aligned. apply Z.eqb_eq.
  change 4 with (2 ^ 2). rewrite <- Z.land_ones by lia.
  rewrite <- Z.land_assoc. change (Z.land (wrap32 (Z.lnot 3)) (Z.ones 2)) with 0.
  apply Z.land_0_r.
Qed.

Lemma ldr_lit_address_aligned d s : aligned4 (effective_address LDR_LIT d s) = true.
Proof.
  unfold aligned4, effective_address, add32, zeroExtend32, shl32. apply Z.eqb_eq.
  rewrite wrap32_mod4, Z.add_mod by lia. rewrite !wrap32_mod4.
  rewrite Z.shiftl_mul_pow2 by lia. change (2 ^ 2) with 4. rewrite Z.mod_mul by lia.
  change 4 with (2 ^ 2) at 1. rewrite <- Z.land_ones by lia.
  rewrite <- Z.land_assoc. change (Z.land 0xFFFFFFFC (Z.ones 2)) with 0.
  rewrite Z.land_0_r. reflexivity.
Qed.

(** C8 (amended): every single load/store handler calls the memory
    interface; a sub-word handler passes the effective address floored to
    a 4-byte boundary, which is aligned, and [ldr_lit] an aligned
    effective address; a word handler passes its effective address as it
    is.  So the addresses a handler passes are all aligned exactly when
    it is a sub-word handler or its effective address is a multiple
    of 4. *)
Theorem sub_word_floored_word_handlers_raw (op : mem_op) (d : decode_result) (s : state) :
  new_accesses (execute op d) s <> []
  /\ Forall (fun e => access_address e =
                      if sub_word op
                      then word_aligned (effective_address op d s)
                      else effective_address op d s)
            (new_accesses (execute op d) s)
  /\ aligned4 (word_aligned (effective_address op d s)) = true
  /\ aligned4 (effective_address LDR_LIT d s) = true
  /\ addresses_aligned (new_accesses (execute op d) s)
     = sub_word op || aligned4 (effective_address op d s).
Proof.
  assert (H : exists es, new_accesses (execute op d) s = es /\ es <> [] /\
     Forall (fun e => access_address e =
                      if sub_word op
                      then word_aligned (effective_address op d s)
                      else effective_address op d s) es).
  { destruct op; unfold execute, effective_address, sub_word;
    match goal with |- context [new_accesses (?h d) s] => unfold h end;
    unfold new_accesses, bind, cpu_get_gpr, cpu_get_sp, cpu_get_pc, cpu_get_gpr, load, store,
      record_access, cpu_set_gpr, ret; simpl;
    repeat match goal with
    | |- context [match mem_load ?m ?a with _ => _ end] => destruct (mem_load m a); simpl
    | |- context [match mem_store ?m ?a ?v with _ => _ end] => destruct (mem_store m a v); simpl
    end;
    rewrite <- ?app_assoc, drop_app_length; eexists; (split; [reflexivity|]); (split; [discriminate|]);
    repeat constructor. }
  destruct H as (es & -> & Hne & Hall).
  split; [done|]. split; [done|].
  split; [apply word_aligned_aligned|]. split; [apply ldr_lit_address_aligned|].
  assert (Hall' : forall e, In e es -> access_address e =
            if sub_word op then word_aligned (effective_address op d s)
            else effective_address op d s).
  { intros e He. apply (proj1 (Forall_forall _ _) Hall), list_elem_of_In, He. }
  unfold addresses_aligned.
  destruct (sub_word op) eqn:Hsw.
  - simpl. apply forallb_forall. intros e He. rewrite (Hall' e He).
    apply word_aligned_aligned.
  - simpl. destruct es as [|e es]; [done|].
    destruct (aligned4 (effective_address op d s)) eqn:Hal.
    + apply forallb_forall. intros e' He'. by rewrite (Hall' e' He').
    + simpl. rewrite (Hall' e) by (by left). by rewrite Hal.
Qed.

(** C8 as stated fails: [ldr r0, [r1, r2]] with r1 = 1 and r2 = 0 asks
    the memory interface for address 1. *)
Lemma ldr_r_passes_unaligned_address :
  new_accesses (execute LDR_R (Decoded 0 1 2 0 0)) odd_base_state = [Load 1 0]
  /\ addresses_aligned (new_accesses (execute LDR_R (Decoded 0 1 2 0 0)) odd_base_state) = false.
Proof. split; vm_compute; reflexivity. Qed.

(** * Byte stores and loads *)

Lemma land_3_cases a : Z.land a 3 = 0 \/ Z.land a 3 = 1 \/ Z.land a 3 = 2 \/ Z.land a 3 = 3.
Proof.
  assert (Z.land a 3 = a mod 4) as -> by apply (Z.land_ones a 2 ltac:(lia)).
  pose proof (Z.mod_pos_bound a 4 eq_refl). lia.
Qed.

Ltac mask_forms :=
  change 0xFF with (Z.ones 8);
  change 0xFFFFFF00 with (Z.shiftl (Z.ones 24) 8);
  change 0xFFFF00FF with (Z.lor (Z.ones 8) (Z.shiftl (Z.ones 16) 16));
  change 0xFF00FFFF with (Z.lor (Z.ones 16) (Z.shiftl (Z.ones 8) 24));
  change 0x00FFFFFF with (Z.ones 24).

Ltac bit_cases :=
  repeat match goal with
  | |- context [?x <? ?y] => destruct (Z.ltb_spec x y); try lia
  | |- context [?x <=? ?y] => destruct (Z.leb_spec x y); try lia
  end.

Ltac solve_bits :=
  unfold shl32, wrap32; rewrite <- ?(Z.land_ones _ 32) by lia;
  apply Z.bits_inj'; intros n Hn;
  repeat (rewrite ?Z.land_spec, ?Z.lor_spec, ?Z.shiftr_spec, ?Z.shiftl_spec,
            ?Z.testbit_ones by lia);
  bit_cases; simpl;
  rewrite ?andb_true_r, ?andb_false_r, ?orb_false_r, ?orb_true_r, ?orb_false_l;
  try reflexivity; try (f_equal; lia).

Lemma insert_select_byte a w v :
  Z.land (select_byte a (insert_byte a w (Z.land v 0xFF))) 0xFF = Z.land v 0xFF.
Proof.
  unfold select_byte, insert_byte.
  destruct (land_3_cases a) as [H|[H|[H|H]]]; rewrite H; mask_forms; solve_bits.
Qed.

Lemma insert_byte_other_lanes a w v k :
  0 <= k < 4 -> k <> Z.land a 3 ->
  byte_lane (insert_byte a w (Z.land v 0xFF)) k = byte_lane w k.
Proof.
  intros Hk Hne. unfold byte_lane, insert_byte.
  assert (Hk' : k = 0 \/ k = 1 \/ k = 2 \/ k = 3) by lia.
  destruct (land_3_cases a) as [H|[H|[H|H]]]; rewrite H in *; mask_forms;
  destruct Hk' as [->|[->|[->| ->]]]; try lia; solve_bits.
Qed.

(** C6: when the word containing address a is in RAM, a byte store
    ([strb], immediate or register offset) of a register holding v at a,
    followed by a byte load ([ldrb]) from the same address, leaves
    v & 0xFF in the destination register; the other three byte lanes of
    the word, and all other words, keep their values. *)
Theorem strb_then_ldrb_reads_back (sop lop : mem_op) (d1 d2 : decode_result) (s : state) (w : Z) :
  byte_store sop = true ->
  byte_load lop = true ->
  effective_address lop d2 s = effective_address sop d1 s ->
  RAM (mem s) !! word_aligned (effective_address sop d1 s) = Some w ->
  exists s1 s2 w',
    execute sop d1 s = Done TIMING_MEM s1
    /\ execute lop d2 s1 = Done TIMING_MEM s2
    /\ gpr s2 (Rd d2) = Z.land (gpr s (Rd d1)) 0xFF
    /\ mem_load (mem s2) (word_aligned (effective_address sop d1 s)) = Some w'
    /\ (forall k, 0 <= k < 4 -> k <> Z.land (effective_address sop d1 s) 3 ->
          byte_lane w' k = byte_lane w k)
    /\ (forall a', a' <> word_aligned (effective_address sop d1 s) ->
          mem_load (mem s2) a' = mem_load (mem s) a').
Proof.
  intros Hsop Hlop Hea Hw.
  set (a := effective_address sop d1 s) in *.
  set (w' := insert_byte a w (Z.land (gpr s (Rd d1)) 0xFF)).
  assert (Hload : mem_load (mem s) (word_aligned a) = Some w).
  { unfold mem_load. by rewrite Hw. }
  assert (Hstore : execute sop d1 s
    = Done TIMING_MEM (State (gpr s) (BRANCH_WAS_TAKEN s)
        (Memory (<[word_aligned a := w']> (RAM (mem s))) (ROM (mem s)))
        (accesses s ++ [Load (word_aligned a) 1; Store (word_aligned a) w']))).
  { destruct sop; try discriminate; unfold execute, strb_i, strb_r;
      unfold bind, cpu_get_gpr, load, store, mem_store, ret;
      change (add32 _ _) with a; rewrite Hload; simpl; rewrite Hw;
      rewrite <- app_assoc; reflexivity. }
  match type of Hstore with _ = Done _ ?x => set (s1 := x) in * end.
  assert (Hea1 : effective_address lop d2 s1 = a) by (rewrite <- Hea; by destruct lop).
  assert (Hread : execute lop d2 s1
    = Done TIMING_MEM (State (reg_update (gpr s) (Rd d2)
                                (zeroExtend32 (Z.land (select_byte a w') 0xFF)))
        (BRANCH_WAS_TAKEN s) (mem s1)
        (accesses s1 ++ [Load (word_aligned a) 0]))).
  { destruct lop; try discriminate; unfold execute, ldrb_i, ldrb_r;
      unfold effective_address in Hea1;
      unfold bind, cpu_get_gpr, load, cpu_set_gpr, ret, mem_load;
      rewrite Hea1; simpl; rewrite lookup_insert_eq; reflexivity. }
  eexists _, _, w'. split; [exact Hstore|]. split; [exact Hread|].
  split.
  { simpl. unfold reg_update. rewrite Z.eqb_refl. unfold zeroExtend32.
    subst w'. rewrite insert_select_byte. apply wrap32_small.
    change 0xFF with (Z.ones 8). rewrite Z.land_ones by lia.
    pose proof (Z.mod_pos_bound (gpr s (Rd d1)) (2 ^ 8) eq_refl). lia. }
  split.
  { simpl. unfold mem_load. simpl. by rewrite lookup_insert_eq. }
  split.
  { intros k Hk Hne. by apply insert_byte_other_lanes. }
  { intros a' Ha'. simpl. unfold mem_load. simpl. by rewrite lookup_insert_ne. }
Qed.

Lemma strb_then_ldrb_reads_back_witness :
  exists s1 s2 w',
    strb_i (Decoded 1 0 0 0 0) byte_example_state = Done TIMING_MEM s1
    /\ ldrb_i (Decoded 2 0 0 0 0) s1 = Done TIMING_MEM s2
    /\ gpr s2 2 = 0xCD
    /\ mem_load (mem s2) 0x20000000 = Some w'
    /\ byte_lane w' 0 = 0xEF /\ byte_lane w' 2 = 0xAD /\ byte_lane w' 3 = 0xDE.
Proof.
  destruct (strb_then_ldrb_reads_back STRB_I LDRB_I (Decoded 1 0 0 0 0) (Decoded 2 0 0 0 0)
              byte_example_state 0xDEADBEEF eq_refl eq_refl eq_refl eq_refl)
    as (s1 & s2 & w' & H1 & H2 & H3 & H4 & H5 & _).
  exists s1, s2, w'. split; [exact H1|]. split; [exact H2|]. split; [exact H3|].
  split; [exact H4|].
  split; [|split].
  - apply (H5 0); [lia|discriminate].
  - apply (H5 2); [lia|discriminate].
  - apply (H5 3); [lia|discriminate].
Defined.

(** * STM *)

Lemma after_stores_nil s : after_stores s [] = s.
Proof.
  unfold after_stores. simpl. rewrite app_nil_r, memory_eta. apply state_eta.
Qed.

Lemma store_Done s a v :
  is_Some (RAM (mem s) !! a) ->
  store a v s = Done tt (after_stores s [(a, v)]).
Proof.
  intros [w Hw]. unfold store, mem_store. rewrite Hw. reflexivity.
Qed.

Lemma after_stores_cons s a v ws :
  after_stores (after_stores s [(a, v)]) ws = after_stores s ((a, v) :: ws).
Proof.
  unfold after_stores. simpl. by rewrite <- app_assoc.
Qed.

Lemma store_plan_cons addr s r regs :
  store_plan addr s (r :: regs) = (addr 0%nat, gpr s r) :: store_plan (addr ∘ S) s regs.
Proof. reflexivity. Qed.

Lemma store_plan_ext addr addr' s s' regs :
  (forall k, addr k = addr' k) -> gpr s = gpr s' ->
  store_plan addr s regs = store_plan addr' s' regs.
Proof.
  intros Ha Hg. unfold store_plan. apply imap_ext. intros k r _. simpl.
  by rewrite Ha, Hg.
Qed.

Section stm_loop.

Variable d : decode_result.
Let rl := register_list d.

Lemma stm_loop_malformed l : forall a s,
  head (transferred rl l) = Some (Rn d) ->
  for_each (stm_body d) l (a, 0) s = Fatal MalformedInstruction s.
Proof.
  induction l as [|i l IH]; intros a s Hhd; [discriminate|].
  cbn [for_each]. unfold bind at 1. unfold stm_body at 1. fold rl.
  destruct (Z.land rl (Z.shiftl 1 i) =? 0) eqn:Hbit.
  - apply listed_false in Hbit. rewrite (transferred_skip _ _ _ Hbit) in Hhd.
    unfold ret. by apply IH.
  - apply listed_true in Hbit. rewrite (transferred_take _ _ _ Hbit) in Hhd.
    injection Hhd as ->. rewrite Z.eqb_refl. reflexivity.
Qed.

Lemma stm_loop_fault l : forall a n s f s',
  0 <= n -> n + Z.of_nat (length l) < 2 ^ 32 ->
  0 < n \/ head (transferred rl l) <> Some (Rn d) ->
  for_each (stm_body d) l (a, n) s = Fatal f s' ->
  exists address, f = MemoryFault address.
Proof.
  induction l as [|i l IH]; intros a n s f s' Hn Hb Hok Hrun; [discriminate|].
  rewrite length_cons, Nat2Z.inj_succ in Hb.
  cbn [for_each] in Hrun. unfold bind at 1 in Hrun. unfold stm_body at 1 in Hrun. fold rl in Hrun.
  destruct (Z.land rl (Z.shiftl 1 i) =? 0) eqn:Hbit.
  - apply listed_false in Hbit. rewrite (transferred_skip _ _ _ Hbit) in Hok.
    unfold ret in Hrun. apply IH in Hrun; [done|done|lia|done].
  - apply listed_true in Hbit. rewrite (transferred_take _ _ _ Hbit) in Hok.
    assert (Hcond : (i =? Rn d) && (n =? 0) = false).
    { destruct Hok as [Hpos|Hhd].
      - destruct (Z.eqb_spec n 0); [lia|]. apply andb_false_r.
      - destruct (Z.eqb_spec i (Rn d)) as [->|]; [|done]. by destruct Hhd. }
    rewrite Hcond in Hrun.
    unfold bind at 1, ret at 1, bind at 1, cpu_get_gpr at 1, bind at 1 in Hrun.
    unfold store in Hrun.
    destruct (mem_store (mem s) a (gpr s i)) as [m'|].
    + unfold ret at 1 in Hrun. apply IH in Hrun; [done|apply wrap32_range| |].
      * unfold add32. rewrite wrap32_small; lia.
      * left. unfold add32. rewrite wrap32_small; lia.
    + injection Hrun as <- _. eauto.
Qed.

Lemma stm_loop_done l : forall a n s,
  0 <= a < 2 ^ 32 -> 0 <= n -> n + Z.of_nat (length l) < 2 ^ 32 ->
  0 < n \/ head (transferred rl l) <> Some (Rn d) ->
  (forall k, (k < length (transferred rl l))%nat ->
     is_Some (RAM (mem s) !! addr_up a k)) ->
  for_each (stm_body d) l (a, n) s
  = Done (addr_up a (length (transferred rl l)),
          n + Z.of_nat (length (transferred rl l)))
         (after_stores s (store_plan (addr_up a) s (transferred rl l))).
Proof.
  induction l as [|i l IH]; intros a n s Ha Hn Hb Hok Hm.
  - simpl. rewrite addr_up_0 by done. rewrite Z.add_0_r. unfold store_plan. simpl.
    by rewrite after_stores_nil.
  - rewrite length_cons, Nat2Z.inj_succ in Hb.
    cbn [for_each]. unfold bind at 1. unfold stm_body at 1. fold rl.
    destruct (Z.land rl (Z.shiftl 1 i) =? 0) eqn:Hbit.
    + apply listed_false in Hbit. rewrite (transferred_skip _ _ _ Hbit) in *.
      unfold ret. apply IH; [done|done|lia|done|done].
    + apply listed_true in Hbit. rewrite (transferred_take _ _ _ Hbit) in *.
      assert (Hcond : (i =? Rn d) && (n =? 0) = false).
      { destruct Hok as [Hpos|Hhd].
        - destruct (Z.eqb_spec n 0); [lia|]. apply andb_false_r.
        - destruct (Z.eqb_spec i (Rn d)) as [->|]; [|done]. by destruct Hhd. }
      rewrite Hcond.
      unfold bind at 1, ret at 1, bind at 1, cpu_get_gpr at 1, bind at 1.
      rewrite store_Done.
      2:{ specialize (Hm 0%nat). rewrite addr_up_0 in Hm by done. apply Hm. simpl. lia. }
      unfold ret at 1.
      rewrite IH.
      * rewrite addr_up_S, after_stores_cons, store_plan_cons, addr_up_0 by done.
        unfold add32 at 1. rewrite wrap32_small by lia.
        rewrite length_cons, Nat2Z.inj_succ. f_equal; [f_equal; lia|].
        f_equal. f_equal. apply store_plan_ext; [|done].
        intros k. simpl. apply addr_up_S.
      * apply wrap32_range.
      * apply wrap32_range.
      * unfold add32. rewrite wrap32_small; lia.
      * left. unfold add32. rewrite wrap32_small; lia.
      * intros k Hk. simpl. apply lookup_insert_is_Some'. right.
        rewrite addr_up_S. apply Hm. simpl. lia.
Qed.

End stm_loop.

Lemma fault_of_Fatal {A} (o : outcome A) f :
  fault_of o = Some f -> exists s', o = Fatal f s'.
Proof. destruct o as [a s'|f' s']; [discriminate|]. intros [= ->]. eauto. Qed.

Lemma map_store_plan addr s regs :
  map (fun w : Z * Z => Store w.1 w.2) (store_plan addr s regs)
  = imap (fun k r => Store (addr k) (gpr s r)) regs.
Proof.
  revert addr. induction regs as [|r regs IH]; intros addr; [reflexivity|].
  rewrite store_plan_cons. simpl. f_equal. apply IH.
Qed.

(** C2 (amended): [stm] ends in the malformed-instruction fault exactly
    when the base register Rn is the first register stored, that is the
    lowest of r0..r7 in the list.  In every other case, when the N words
    from the base address are in RAM, no fault occurs: the listed
    registers are stored in ascending order at base, base+4, ..., the
    cost is 1 + N and Rn is written back to base + 4N. *)
Theorem stm_faults_iff_base_is_first_listed (d : decode_result) (s : state) :
  0 <= gpr s (Rn d) < 2 ^ 32 ->
  (fault_of (stm d s) = Some MalformedInstruction <-> head (low_registers d) = Some (Rn d))
  /\ (head (low_registers d) <> Some (Rn d) ->
      (forall k, (k < length (low_registers d))%nat ->
         is_Some (RAM (mem s) !! addr_up (gpr s (Rn d)) k)) ->
      exists s',
        stm d s = Done (1 + Z.of_nat (length (low_registers d))) s'
        /\ accesses s' = accesses s ++
             imap (fun k r => Store (addr_up (gpr s (Rn d)) k) (gpr s r)) (low_registers d)
        /\ RAM (mem s') =
             write_words (imap (fun k r => (addr_up (gpr s (Rn d)) k, gpr s r)) (low_registers d))
                         (RAM (mem s))
        /\ gpr s' (Rn d) = addr_up (gpr s (Rn d)) (length (low_registers d))
        /\ (forall r, r <> Rn d -> gpr s' r = gpr s r)).
Proof.
  intros Hbase.
  pose proof (low_registers_length d) as Hlen.
  split; [split|].
  - intros Hf. destruct (decide (head (low_registers d) = Some (Rn d))) as [|Hne]; [done|].
    exfalso. apply fault_of_Fatal in Hf as [s' Hf].
    unfold stm in Hf. unfold bind at 1, cpu_get_gpr at 1 in Hf. unfold bind at 1 in Hf.
    destruct (for_each (stm_body d) (seqZ 0 8) (gpr s (Rn d), 0) s) as [[a n] s1|f s1] eqn:Hrun.
    + discriminate.
    + injection Hf as -> _.
      apply stm_loop_fault in Hrun as [address Hrun]; [discriminate|lia|by rewrite length_seqZ|by right].
  - intros Hhd. unfold stm. unfold bind at 1, cpu_get_gpr at 1. unfold bind at 1.
    by rewrite stm_loop_malformed.
  - intros Hne Hram. unfold stm. unfold bind at 1, cpu_get_gpr at 1. unfold bind at 1.
    rewrite stm_loop_done; [|done|lia|by rewrite length_seqZ|by right|exact Hram].
    fold (low_registers d). eexists. unfold bind, cpu_set_gpr, ret. rewrite Z.add_0_l.
    unfold add32. rewrite wrap32_small by lia.
    split; [reflexivity|]. simpl.
    split. { f_equal. apply map_store_plan. }
    split. { reflexivity. }
    split. { unfold reg_update. by rewrite Z.eqb_refl. }
    { intros r Hr. unfold reg_update. by destruct (Z.eqb_spec r (Rn d)). }
Qed.

Lemma stm_faults_iff_base_is_first_listed_witness :
  fault_of (stm (Decoded 0 0 0 0 3) stm_example_state) = Some MalformedInstruction
  /\ exists s',
       stm (Decoded 0 2 0 0 3) stm_example_state = Done 3 s'
       /\ gpr s' 2 = 0x20000008.
Proof.
  assert (Hb : forall r, 0 <= gpr stm_example_state r < 2 ^ 32)
    by (intros r; vm_compute; split; congruence).
  split.
  - apply (stm_faults_iff_base_is_first_listed (Decoded 0 0 0 0 3) stm_example_state (Hb 0)).
    reflexivity.
  - destruct (stm_faults_iff_base_is_first_listed (Decoded 0 2 0 0 3) stm_example_state (Hb 2))
      as [_ H].
    destruct H as (s' & Hrun & _ & _ & Hrn & _).
    + discriminate.
    + intros k Hk. change (length (low_registers (Decoded 0 2 0 0 3))) with 2%nat in Hk.
      destruct k as [|[|k]]; [vm_compute; eauto ..|lia].
    + exists s'. split; [exact Hrun|exact Hrn].
Defined.

(** C2 as stated fails both ways: with Rn = r0 first in the list
    {r0, r1} [stm] faults, and with Rn = r1 in the list and not first it
    does not. *)
Lemma stm_faults_on_first_not_on_later :
  head (low_registers (Decoded 0 0 0 0 3)) = Some 0
  /\ fault_of (stm (Decoded 0 0 0 0 3) stm_example_state) = Some MalformedInstruction
  /\ low_registers (Decoded 0 1 0 0 3) = [0; 1]
  /\ fault_of (stm (Decoded 0 1 0 0 3) stm_example_state) = None.
Proof. repeat split; vm_compute; reflexivity. Qed.

(** * PUSH followed by POP *)

Section stack_loops.

Variable d : decode_result.
Let rl := register_list d.

Lemma push_loop_done l : forall a n s,
  0 <= a < 2 ^ 32 -> 0 <= n -> n + Z.of_nat (length l) < 2 ^ 32 ->
  (forall k, (k < length (transferred rl l))%nat ->
     is_Some (RAM (mem s) !! addr_down a (S k))) ->
  for_each (push_body d) l (a, n) s
  = Done (addr_down a (length (transferred rl l)),
          n + Z.of_nat (length (transferred rl l)))
         (after_stores s (store_plan (fun k => addr_down a (S k)) s (transferred rl l))).
Proof.
  induction l as [|i l IH]; intros a n s Ha Hn Hb Hm.
  - simpl. rewrite addr_down_0 by done. rewrite Z.add_0_r. unfold store_plan. simpl.
    by rewrite after_stores_nil.
  - rewrite length_cons, Nat2Z.inj_succ in Hb.
    cbn [for_each]. unfold bind at 1. unfold push_body at 1. fold rl.
    destruct (Z.land rl (Z.shiftl 1 i) =? 0) eqn:Hbit.
    + apply listed_false in Hbit. rewrite (transferred_skip _ _ _ Hbit) in *.
      unfold ret. apply IH; [done|done|lia|done].
    + apply listed_true in Hbit. rewrite (transferred_take _ _ _ Hbit) in *.
      assert (Ha1 : sub32 a 4 = addr_down a 1).
      { unfold addr_down, sub32. f_equal. }
      unfold bind at 1, cpu_get_gpr at 1, bind at 1.
      rewrite store_Done.
      2:{ rewrite Ha1. apply Hm. simpl. lia. }
      unfold ret at 1.
      rewrite IH.
      * rewrite addr_down_S, after_stores_cons, store_plan_cons, <- Ha1.
        unfold add32 at 1. rewrite wrap32_small by lia.
        rewrite length_cons, Nat2Z.inj_succ. f_equal; [f_equal; lia|].
        f_equal. f_equal. apply store_plan_ext; [|done].
        intros k. simpl. apply addr_down_S.
      * apply wrap32_range.
      * apply wrap32_range.
      * unfold add32. rewrite wrap32_small; lia.
      * intros k Hk. simpl. apply lookup_insert_is_Some'. right.
        rewrite addr_down_S. apply Hm. simpl. lia.
Qed.

Lemma pop_loop_done l : NoDup l -> forall a n s,
  0 <= a < 2 ^ 32 -> 0 <= n -> n + Z.of_nat (length l) < 2 ^ 32 ->
  (forall k, (k < length (transferred rl l))%nat ->
     is_Some (mem_load (mem s) (addr_up a k))) ->
  exists s',
    for_each (pop_body d) l (a, n) s
    = Done (addr_up a (length (transferred rl l)),
            n + Z.of_nat (length (transferred rl l))) s'
    /\ mem s' = mem s
    /\ BRANCH_WAS_TAKEN s' = (BRANCH_WAS_TAKEN s || bool_decide (15 ∈ transferred rl l))
    /\ accesses s' = accesses s ++ imap (fun k _ => Load (addr_up a k) 0) (transferred rl l)
    /\ (forall r, r ∉ transferred rl l -> gpr s' r = gpr s r)
    /\ (forall k r, transferred rl l !! k = Some r ->
          mem_load (mem s) (addr_up a k) = Some (gpr s' r)).
Proof.
  induction 1 as [|i l Hi Hl IH]; intros a n s Ha Hn Hb Hm.
  - exists s. simpl. rewrite addr_up_0 by done. rewrite Z.add_0_r, app_nil_r.
    split; [reflexivity|]. split; [reflexivity|].
    split; [by rewrite orb_false_r|].
    split; [reflexivity|]. split; [intros; reflexivity|]. intros k r Hk. discriminate.
  - rewrite length_cons, Nat2Z.inj_succ in Hb.
    cbn [for_each]. unfold bind at 1. unfold pop_body at 1. fold rl.
    destruct (Z.land rl (Z.shiftl 1 i) =? 0) eqn:Hbit.
    + apply listed_false in Hbit. rewrite (transferred_skip _ _ _ Hbit) in *.
      unfold ret. apply IH; [done|done|lia|exact Hm].
    + apply listed_true in Hbit. rewrite (transferred_take _ _ _ Hbit) in *.
      destruct (Hm 0%nat) as [w Hw]; [simpl; lia|].
      rewrite addr_up_0 in Hw by done.
      unfold bind at 1. unfold load at 1. rewrite Hw.
      unfold bind at 1, cpu_set_gpr at 1, bind at 1.
      set (s1 := State _ _ _ _).
      set (s2 := final_state ((if i =? 15 then set_BRANCH_WAS_TAKEN true else ret tt) s1)).
      assert (Hs2 : (if i =? 15 then set_BRANCH_WAS_TAKEN true else ret tt) s1 = Done tt s2)
        by (subst s2; by destruct (i =? 15)).
      assert (Hg2 : gpr s2 = gpr s1) by (subst s2; by destruct (i =? 15)).
      assert (Hm2 : mem s2 = mem s) by (subst s2; by destruct (i =? 15)).
      assert (Ha2 : accesses s2 = accesses s1) by (subst s2; by destruct (i =? 15)).
      assert (Hb2 : BRANCH_WAS_TAKEN s2 = BRANCH_WAS_TAKEN s || (i =? 15))
        by (subst s2; destruct (i =? 15); simpl; by rewrite ?orb_true_r, ?orb_false_r).
      rewrite Hs2. unfold ret at 1. clearbody s2.
      destruct (IH (add32 a 4) (add32 n 1) s2) as (s' & Hrun & Hmem & Hbt & Hacc & Hother & Hval).
      * apply wrap32_range.
      * apply wrap32_range.
      * unfold add32. rewrite wrap32_small; lia.
      * intros k Hk. rewrite addr_up_S, Hm2. apply (Hm (S k)). simpl. lia.
      * exists s'. rewrite Hrun. rewrite addr_up_S. unfold add32 at 1. rewrite wrap32_small by lia.
        rewrite length_cons, Nat2Z.inj_succ.
        split; [f_equal; f_equal; lia|]. split; [congruence|].
        split.
        { rewrite Hbt, Hb2.
          destruct (Z.eqb_spec i 15) as [->|Hne].
          - rewrite (bool_decide_eq_true_2 (15 ∈ 15 :: _)) by left.
            by rewrite !orb_true_r.
          - rewrite orb_false_r. f_equal. apply bool_decide_ext.
            rewrite elem_of_cons. split; [by right|]. by intros [?|?]. }
        split.
        { rewrite Hacc, Ha2. subst s1. simpl. rewrite <- app_assoc. simpl.
          rewrite addr_up_0 by done. f_equal. f_equal.
          apply imap_ext. intros k x _. simpl. by rewrite addr_up_S. }
        split.
        { intros r Hr. rewrite Hother.
          - rewrite Hg2. subst s1. simpl. unfold reg_update.
            destruct (Z.eqb_spec r i); [|done]. subst r. exfalso. apply Hr. left.
          - intros Hin. apply Hr. by right. }
        { intros [|k] r Hk.
          - simpl in Hk. injection Hk as <-. rewrite addr_up_0 by done. rewrite Hw. f_equal.
            rewrite Hother.
            + rewrite Hg2. subst s1. simpl. unfold reg_update. by rewrite Z.eqb_refl.
            + intros Hin. apply Hi. apply elem_of_transferred in Hin. tauto.
          - simpl in Hk. rewrite <- addr_up_S. rewrite <- Hm2. apply Hval in Hk. exact Hk. }
Qed.

End stack_loops.

Lemma write_words_lookup_notin ws : forall ram a,
  a ∉ ws.*1 -> write_words ws ram !! a = ram !! a.
Proof.
  induction ws as [|[a0 v0] ws IH]; intros ram a Hnot; [reflexivity|].
  simpl in Hnot. apply not_elem_of_cons in Hnot as [Hne Hnot].
  unfold write_words. simpl. fold (write_words ws (<[a0:=v0]> ram)).
  rewrite IH by done. by apply lookup_insert_ne.
Qed.

Lemma write_words_lookup ws : forall ram k a v,
  NoDup ws.*1 -> ws !! k = Some (a, v) -> write_words ws ram !! a = Some v.
Proof.
  induction ws as [|[a0 v0] ws IH]; intros ram k a v Hnd Hk; [discriminate|].
  simpl in Hnd. apply NoDup_cons in Hnd as [Hnot Hnd].
  unfold write_words. simpl. fold (write_words ws (<[a0:=v0]> ram)).
  destruct k as [|k].
  - injection Hk as -> ->. rewrite write_words_lookup_notin by done.
    apply lookup_insert_eq.
  - simpl in Hk. by eapply IH.
Qed.

Lemma wrap32_inj_near x y :
  wrap32 x = wrap32 y -> Z.abs (x - y) < 2 ^ 32 -> x = y.
Proof.
  unfold wrap32. intros Heq Hnear.
  pose proof (Z.div_mod x (2 ^ 32) ltac:(lia)) as Hx.
  pose proof (Z.div_mod y (2 ^ 32) ltac:(lia)) as Hy.
  rewrite Heq in Hx. lia.
Qed.

Lemma addr_down_inj a i j :
  Z.of_nat i < 2 ^ 30 -> Z.of_nat j < 2 ^ 30 -> addr_down a i = addr_down a j -> i = j.
Proof.
  intros Hi Hj H. unfold addr_down in H. apply wrap32_inj_near in H; lia.
Qed.

Lemma addr_up_down a n k :
  (k <= n)%nat -> addr_up (addr_down a n) k = addr_down a (n - k).
Proof.
  intros Hk. unfold addr_up, addr_down, wrap32. rewrite Zplus_mod_idemp_l.
  f_equal. lia.
Qed.

Lemma NoDup_push_addresses a s regs :
  Z.of_nat (length regs) < 2 ^ 30 ->
  NoDup (store_plan (fun k => addr_down a (S k)) s regs).*1.
Proof.
  intros Hlen. apply NoDup_alt. intros i j x Hi Hj.
  unfold store_plan in Hi, Hj.
  rewrite list_lookup_fmap, list_lookup_imap in Hi, Hj.
  destruct (regs !! i) as [ri|] eqn:Hri; [|discriminate].
  destruct (regs !! j) as [rj|] eqn:Hrj; [|discriminate].
  apply lookup_lt_Some in Hri, Hrj. simpl in Hi, Hj.
  injection Hi as <-. injection Hj as Hj.
  apply addr_down_inj in Hj; lia.
Qed.

(** Reading the stack back upwards from the new SP meets the pushed
    registers in the reverse of the order they were pushed in. *)
Lemma read_back_pushed a s regs k r :
  Z.of_nat (length regs) < 2 ^ 30 ->
  reverse regs !! k = Some r ->
  write_words (store_plan (fun k => addr_down a (S k)) s regs) (RAM (mem s))
    !! addr_up (addr_down a (length regs)) k
  = Some (gpr s r).
Proof.
  intros Hlen Hk.
  assert (Hlt : (k < length regs)%nat).
  { apply lookup_lt_Some in Hk. by rewrite length_reverse in Hk. }
  rewrite reverse_lookup in Hk by done.
  rewrite addr_up_down by lia.
  apply (write_words_lookup _ _ (length regs - S k)%nat).
  - by apply NoDup_push_addresses.
  - unfold store_plan. rewrite list_lookup_imap, Hk. simpl.
    do 3 f_equal. lia.
Qed.

Lemma NoDup_pop_loop : NoDup pop_loop.
Proof. compute_done. Qed.

(** C7: when SP is a 32-bit address with nine words of RAM below it,
    [push {r0-r7, lr}] immediately followed by [pop {r0-r7, pc}]
    restores r0..r7 and SP, sets the branch-taken flag and leaves in PC
    the value LR held before the push. *)
Theorem push_then_pop_round_trip (d1 d2 : decode_result) (s : state) :
  0 <= gpr s GPR_SP < 2 ^ 32 ->
  (forall k, (1 <= k <= 9)%nat -> is_Some (RAM (mem s) !! addr_down (gpr s GPR_SP) k)) ->
  exists s1 s2,
    push (with_register_list d1 0x40FF) s = Done 10 s1
    /\ pop (with_register_list d2 0x80FF) s1 = Done TIMING_PC_UPDATE s2
    /\ (forall r, 0 <= r < 8 -> gpr s2 r = gpr s r)
    /\ gpr s2 GPR_SP = gpr s GPR_SP
    /\ gpr s2 GPR_PC = gpr s GPR_LR
    /\ BRANCH_WAS_TAKEN s2 = true.
Proof.
  intros Hsp Hram.
  set (sp := gpr s GPR_SP) in *.
  set (pushed := [14; 7; 6; 5; 4; 3; 2; 1; 0]).
  set (popped := [0; 1; 2; 3; 4; 5; 6; 7; 15]).
  assert (Hpushed : transferred (register_list (with_register_list d1 0x40FF)) push_loop = pushed)
    by (vm_compute; reflexivity).
  assert (Hpopped : transferred (register_list (with_register_list d2 0x80FF)) pop_loop = popped)
    by (vm_compute; reflexivity).
  (* the push *)
  assert (Hpush : push (with_register_list d1 0x40FF) s
    = Done 10 (State (reg_update (gpr s) GPR_SP (addr_down sp 9)) (BRANCH_WAS_TAKEN s)
                 (Memory (write_words (store_plan (fun k => addr_down sp (S k)) s pushed)
                                      (RAM (mem s))) (ROM (mem s)))
                 (accesses s ++ map (fun w : Z * Z => Store w.1 w.2)
                                    (store_plan (fun k => addr_down sp (S k)) s pushed)))).
  { unfold push. unfold bind at 1, cpu_get_sp, cpu_get_gpr at 1. fold sp.
    unfold bind at 1. rewrite push_loop_done.
    - rewrite Hpushed. reflexivity.
    - done.
    - lia.
    - vm_compute. reflexivity.
    - rewrite Hpushed. intros k Hk. apply Hram. simpl in Hk. lia. }
  match type of Hpush with _ = Done _ ?x => set (s1 := x) in * end.
  assert (Hread : forall k r, reverse pushed !! k = Some r ->
            mem_load (mem s1) (addr_up (addr_down sp 9) k) = Some (gpr s r)).
  { intros k r Hk. unfold mem_load. subst s1. cbn [mem RAM].
    change (addr_down sp 9) with (addr_down sp (length pushed)).
    rewrite (read_back_pushed sp s pushed k r); [done|simpl; lia|done]. }
  destruct (pop_loop_done (with_register_list d2 0x80FF) pop_loop NoDup_pop_loop
              (addr_down sp 9) 0 s1) as (s2 & Hrun & Hmem & Hbt & Hacc & Hother & Hval).
  { apply wrap32_range. }
  { lia. }
  { vm_compute. reflexivity. }
  { rewrite Hpopped. intros k Hk. simpl in Hk.
    destruct (reverse pushed !! k) as [r|] eqn:Hr.
    - rewrite (Hread k r Hr). eauto.
    - apply lookup_ge_None in Hr. simpl in Hr. lia. }
  rewrite Hpopped in Hrun, Hbt, Hacc, Hother, Hval.
  assert (Hpop : pop (with_register_list d2 0x80FF) s1
                 = Done TIMING_PC_UPDATE
                     (State (reg_update (gpr s2) GPR_SP (addr_up (addr_down sp 9) 9))
                            (BRANCH_WAS_TAKEN s2) (mem s2) (accesses s2))).
  { unfold pop. unfold bind at 1, cpu_get_sp, cpu_get_gpr at 1.
    assert (Hsp1 : gpr s1 GPR_SP = addr_down sp 9) by reflexivity.
    rewrite Hsp1. unfold bind at 1. rewrite Hrun. simpl length.
    unfold bind, cpu_set_sp, cpu_set_gpr, get_BRANCH_WAS_TAKEN, ret. simpl.
    rewrite Hbt. simpl. rewrite orb_true_r. reflexivity. }
  eexists _, _. split; [exact Hpush|]. split; [exact Hpop|].
  assert (Hreg : forall k r r', popped !! k = Some r' -> reverse pushed !! k = Some r ->
            gpr s2 r' = gpr s r).
  { intros k r r' Hk' Hk. apply Hval in Hk'. rewrite (Hread k r Hk) in Hk'. congruence. }
  cbn [gpr BRANCH_WAS_TAKEN]. unfold reg_update.
  split.
  { intros r Hr. assert (Hne : (r =? GPR_SP) = false) by (apply Z.eqb_neq; unfold GPR_SP; lia).
    rewrite Hne.
    assert (Hcases : r = 0 \/ r = 1 \/ r = 2 \/ r = 3 \/ r = 4 \/ r = 5 \/ r = 6 \/ r = 7) by lia.
    destruct Hcases as [->|[->|[->|[->|[->|[->|[->| ->]]]]]]].
    - by apply (Hreg 0%nat).
    - by apply (Hreg 1%nat).
    - by apply (Hreg 2%nat).
    - by apply (Hreg 3%nat).
    - by apply (Hreg 4%nat).
    - by apply (Hreg 5%nat).
    - by apply (Hreg 6%nat).
    - by apply (Hreg 7%nat). }
  split.
  { rewrite Z.eqb_refl. rewrite addr_up_down by lia. simpl. by apply addr_down_0. }
  split.
  { change (GPR_PC =? GPR_SP) with false. cbv iota. by apply (Hreg 8%nat). }
  { rewrite Hbt. simpl. apply orb_true_r. }
Qed.

Lemma push_then_pop_round_trip_witness :
  exists s1 s2,
    push (Decoded 0 0 0 0 0x40FF) round_trip_example_state = Done 10 s1
    /\ pop (Decoded 0 0 0 0 0x80FF) s1 = Done 2 s2
    /\ gpr s2 0 = 100 /\ gpr s2 7 = 107
    /\ gpr s2 GPR_SP = 0x20000024
    /\ gpr s2 GPR_PC = 0x08000123
    /\ BRANCH_WAS_TAKEN s2 = true.
Proof.
  destruct (push_then_pop_round_trip (Decoded 0 0 0 0 0) (Decoded 0 0 0 0 0)
              round_trip_example_state)
    as (s1 & s2 & H1 & H2 & H3 & H4 & H5 & H6).
  - vm_compute. split; congruence.
  - intros k Hk.
    destruct k as [|[|[|[|[|[|[|[|[|[|k]]]]]]]]]]; [lia|vm_compute; eauto ..|lia].
  - exists s1, s2. split; [exact H1|]. split; [exact H2|].
    split; [apply (H3 0); lia|]. split; [apply (H3 7); lia|].
    split; [exact H4|]. split; [exact H5|exact H6].
Defined.

(** * Backup intervals of the ODAB scheme *)

Lemma sum_intervals_app xs ys :
  sum_intervals (xs ++ ys) = sum_intervals xs + sum_intervals ys.
Proof.
  unfold sum_intervals. induction xs as [|x xs IH]; simpl; [reflexivity|].
  rewrite IH. lia.
Qed.

Lemma update_back_snoc f ms m :
  update_back f (ms ++ [m]) = Some (ms ++ [f m]).
Proof.
  unfold update_back. rewrite last_snoc. by rewrite removelast_last.
Qed.

Lemma nonempty_snoc {A} (l : list A) : l <> [] -> exists l' x, l = l' ++ [x].
Proof.
  intros H. destruct (last l) as [x|] eqn:Hl.
  - apply last_Some in Hl as [l' ->]. eauto.
  - apply last_None in Hl. done.
Qed.

Lemma total_intervals_snoc cpu ms m :
  total_intervals (StatsBundle cpu (ms ++ [m]))
  = total_intervals (StatsBundle cpu ms) + sum_intervals (backup_times m).
Proof.
  unfold total_intervals, recorded_intervals. simpl.
  rewrite map_app, concat_app, sum_intervals_app. simpl.
  rewrite app_nil_r. reflexivity.
Qed.

Section odab_runs.

Context {capacitor : Type}.
Variable consume_energy : capacitor -> float -> capacitor.

(** What [backup] does to a bundle whose last record is [m]. *)
Lemma backup_snoc (this : on_demand_all_backup capacitor) cpu ms m :
  backup consume_energy this (StatsBundle cpu (ms ++ [m]))
  = Some (backup_time_penalty,
          ODAB (consume_energy (battery this) backup_energy_penalty) (cycle_count cpu),
          StatsBundle cpu
            (ms ++ [ActiveStats (instruction_energy m)
                      (backup_times m ++
                         [sub64 (cycle_count cpu) (last_cycle_count this)])])).
Proof. unfold backup. simpl. by rewrite update_back_snoc. Qed.

Lemma run_preserves_invariant es : forall c,
  run_invariant c ->
  Forall forward es ->
  cycle_count (cpu c.2) + total_cycles es < 2 ^ 64 ->
  exists c',
    run consume_energy es c = Some c'
    /\ run_invariant c'
    /\ cycle_count (cpu c'.2) = cycle_count (cpu c.2) + total_cycles es
    /\ last_cycle_count c'.1
       = cycles_at_last_backup (cycle_count (cpu c.2)) (last_cycle_count c.1) es.
Proof.
  induction es as [|e es IH]; intros [this stats] (Hne & Hord & Hcc & Hsum) Hfw Hb.
  - exists (this, stats). simpl in *. rewrite Z.add_0_r. done.
  - apply Forall_cons in Hfw as [He Hfw]. simpl in Hne, Hord, Hcc, Hsum, Hb.
    destruct e as [k| |]; simpl in He, Hb.
    + pose proof (IH (this, StatsBundle (CpuStats (wrap64 (cycle_count (cpu stats) + k)))
                               (models stats))) as IH'.
      cbn [fst snd cpu cycle_count models] in IH'.
      assert (Hk : wrap64 (cycle_count (cpu stats) + k) = cycle_count (cpu stats) + k).
      { unfold wrap64. apply Z.mod_small.
        assert (0 <= total_cycles es).
        { clear -Hfw. induction Hfw as [|e es He _ IHf]; simpl; [lia|].
          destruct e; simpl in He; lia. }
        lia. }
      rewrite Hk in IH'.
      destruct IH' as (c' & Hrun & Hinv & Hcc' & Hlast); [|done|lia|].
      { split; [done|]. split; [simpl; lia|]. split; [simpl|done].
        assert (0 <= total_cycles es).
        { clear -Hfw. induction Hfw as [|e es He _ IHf]; simpl; [lia|].
          destruct e; simpl in He; lia. }
        lia. }
      exists c'. simpl. rewrite Hk. split; [exact Hrun|]. split; [done|].
      split; [lia|done].
    + destruct (nonempty_snoc _ Hne) as (ms & m & Hms).
      destruct stats as [cpu0 models0]. simpl in *. subst models0.
      rewrite backup_snoc.
      set (c1 := (ODAB _ _, StatsBundle _ _)).
      destruct (IH c1) as (c' & Hrun & Hinv & Hcc' & Hlast); [|done|done|].
      { subst c1. split; [simpl; by destruct ms|]. split; [simpl; lia|].
        split; [done|]. cbn [fst snd last_cycle_count].
        rewrite total_intervals_snoc. cbn [backup_times].
        rewrite total_intervals_snoc in Hsum.
        rewrite sum_intervals_app. unfold sub64, wrap64. rewrite Z.mod_small by lia.
        change (sum_intervals [cycle_count cpu0 - last_cycle_count this])
          with (cycle_count cpu0 - last_cycle_count this + 0). lia. }
      exists c'. split; [exact Hrun|]. split; [done|]. split; [done|done].
    + set (c1 := (ODAB (consume_energy (battery this) recovery_energy_penalty)
                       (last_cycle_count this),
                  StatsBundle (cpu stats) (models stats ++ [new_active_stats]))).
      destruct (IH c1) as (c' & Hrun & Hinv & Hcc' & Hlast); [|done|done|].
      { subst c1. split; [simpl; by destruct (models stats)|]. split; [done|].
        split; [done|]. cbn [fst snd last_cycle_count].
        rewrite total_intervals_snoc. simpl.
        unfold total_intervals, recorded_intervals in *. simpl in *. lia. }
      exists c'. split; [exact Hrun|]. split; [done|]. split; [done|done].
Qed.

End odab_runs.

(** C4 (amended): after any run from power-on in which the cycle counter
    only moves forward and stays below 2^64, the recorded intervals of
    all active-period records add up to the cycle count at the last
    backup; the next backup appends to the current record the cycle
    count now minus the cycle count at that last backup, whichever
    active period it was in (0 when there was none), and a restore opens
    a new record without moving this reference point. *)
Theorem backup_interval_is_cycles_since_last_backup
    (capacitor : Type) (consume_energy : capacitor -> float -> capacitor)
    (b : capacitor) (es : list event) :
  Forall forward es ->
  total_cycles es < 2 ^ 64 ->
  exists this stats ms m,
    run consume_energy es (power_on b) = Some (this, stats)
    /\ models stats = ms ++ [m]
    /\ cycle_count (cpu stats) = total_cycles es
    /\ last_cycle_count this = cycles_at_last_backup 0 0 es
    /\ total_intervals stats = cycles_at_last_backup 0 0 es
    /\ backup consume_energy this stats
       = Some (backup_time_penalty,
               ODAB (consume_energy (battery this) backup_energy_penalty) (total_cycles es),
               StatsBundle (cpu stats)
                 (ms ++ [ActiveStats (instruction_energy m)
                           (backup_times m ++
                              [total_cycles es - cycles_at_last_backup 0 0 es])]))
    /\ restore consume_energy this stats
       = (restore_time_penalty,
          ODAB (consume_energy (battery this) recovery_energy_penalty)
               (cycles_at_last_backup 0 0 es),
          StatsBundle (cpu stats) (models stats ++ [new_active_stats])).
Proof.
  intros Hfw Hb.
  destruct (run_preserves_invariant consume_energy es (power_on b))
    as ([this stats] & Hrun & (Hne & Hord & Hcc & Hsum) & Hcount & Hlast).
  - unfold run_invariant, power_on. simpl. split; [done|]. split; [lia|].
    split; [lia|reflexivity].
  - done.
  - simpl. lia.
  - simpl in Hne, Hord, Hcc, Hsum, Hcount, Hlast.
    destruct (nonempty_snoc _ Hne) as (ms & m & Hms).
    exists this, stats, ms, m.
    split; [exact Hrun|]. split; [exact Hms|]. split; [exact Hcount|].
    split; [exact Hlast|]. split; [congruence|].
    split.
    + destruct stats as [cpu0 models0]. simpl in *. subst models0.
      rewrite backup_snoc. rewrite Hcount, Hlast.
      unfold sub64, wrap64. rewrite Z.mod_small by lia. reflexivity.
    + unfold restore. by rewrite Hlast.
Qed.

Lemma backup_interval_is_cycles_since_last_backup_witness :
  exists this stats,
    run drain before_second_backup (power_on 10%float) = Some (this, stats)
    /\ cycle_count (cpu stats) = 200
    /\ last_cycle_count this = 100
    /\ total_intervals stats = 100.
Proof.
  destruct (backup_interval_is_cycles_since_last_backup
              stored_energy_capacitor drain 10%float before_second_backup)
    as (this & stats & ms & m & Hrun & _ & Hcc & Hlast & Hsum & _).
  - unfold before_second_backup.
    repeat (apply Forall_cons; split; [first [exact I|simpl; lia]|]). constructor.
  - simpl. lia.
  - exists this, stats. split; [exact Hrun|]. split; [exact Hcc|].
    split; [exact Hlast|exact Hsum].
Defined.

(** C4 as stated fails: the first backup after a restore is measured
    from the last backup of the previous active period (100 cycles), not
    from the start of its own period (65 cycles). *)
Lemma first_backup_after_restore_spans_periods :
  option_map (fun c => recorded_intervals c.2)
             (run drain two_period_run (power_on 10%float))
  = Some [[100]; [100]]
  /\ claimed_intervals 0 0 [[]] two_period_run = [[100]; [65]].
Proof. split; vm_compute; reflexivity. Qed.

(** * Stack and block transfers: the whole effect *)

Lemma mem_load_same_ram ram ram' rom a :
  ram' !! a = ram !! a -> mem_load (Memory ram' rom) a = mem_load (Memory ram rom) a.
Proof. intros H. unfold mem_load. simpl. by rewrite H. Qed.

Lemma push_loop_length_bound rl : (length (transferred rl push_loop) <= 9)%nat.
Proof. unfold transferred. etrans; [apply length_filter|]. reflexivity. Qed.

Lemma pop_loop_length_bound rl : (length (transferred rl pop_loop) <= 9)%nat.
Proof. unfold transferred. etrans; [apply length_filter|]. reflexivity. Qed.

Lemma store_plan_fst_lookup addr s regs a :
  a ∈ (store_plan addr s regs).*1 -> exists k, (k < length regs)%nat /\ a = addr k.
Proof.
  intros H. apply list_elem_of_lookup in H as [k Hk].
  unfold store_plan in Hk. rewrite list_lookup_fmap, list_lookup_imap in Hk.
  destruct (regs !! k) as [r|] eqn:Hr; [|discriminate].
  apply lookup_lt_Some in Hr. simpl in Hk. injection Hk as <-. eauto.
Qed.

Lemma push_run (d : decode_result) (s : state) :
  0 <= gpr s GPR_SP < 2 ^ 32 ->
  (forall k, (k < length (transferred (register_list d) push_loop))%nat ->
     is_Some (RAM (mem s) !! addr_down (gpr s GPR_SP) (S k))) ->
  exists s',
    push d s = Done (1 + Z.of_nat (length (transferred (register_list d) push_loop))) s'
    /\ accesses s' = accesses s ++
         imap (fun k r => Store (addr_down (gpr s GPR_SP) (S k)) (gpr s r))
              (transferred (register_list d) push_loop)
    /\ gpr s' GPR_SP
       = addr_down (gpr s GPR_SP) (length (transferred (register_list d) push_loop))
    /\ (forall r, r <> GPR_SP -> gpr s' r = gpr s r)
    /\ BRANCH_WAS_TAKEN s' = BRANCH_WAS_TAKEN s
    /\ (forall j r, reverse (transferred (register_list d) push_loop) !! j = Some r ->
          mem_load (mem s') (addr_up (gpr s' GPR_SP) j) = Some (gpr s r))
    /\ (forall a,
          (forall k, (k < length (transferred (register_list d) push_loop))%nat ->
             a <> addr_down (gpr s GPR_SP) (S k)) ->
          mem_load (mem s') a = mem_load (mem s) a).
Proof.
  intros Hsp Hram.
  set (sp := gpr s GPR_SP) in *. set (regs := transferred (register_list d) push_loop) in *.
  pose proof (push_loop_length_bound (register_list d)) as Hlen. fold regs in Hlen.
  unfold push. unfold bind at 1, cpu_get_sp, cpu_get_gpr at 1. fold sp.
  unfold bind at 1. rewrite push_loop_done; [|done|lia|vm_compute; reflexivity|exact Hram].
  fold regs. eexists. unfold bind, cpu_set_sp, cpu_set_gpr, ret. rewrite Z.add_0_l.
  unfold add32. rewrite wrap32_small by lia.
  split; [reflexivity|]. cbn [gpr BRANCH_WAS_TAKEN mem accesses after_stores].
  split. { f_equal. apply map_store_plan. }
  split. { unfold reg_update. by rewrite Z.eqb_refl. }
  split. { intros r Hr. unfold reg_update. by destruct (Z.eqb_spec r GPR_SP). }
  split. { reflexivity. }
  split.
  { intros j r Hj. unfold reg_update. rewrite Z.eqb_refl. unfold mem_load. cbn [RAM].
    rewrite (read_back_pushed sp s regs j r); [done|lia|done]. }
  { intros a Ha. rewrite <- (memory_eta (mem s)) at 2. apply mem_load_same_ram.
    apply write_words_lookup_notin. intros Hin.
    apply store_plan_fst_lookup in Hin as (k & Hk & ->). by apply (Ha k). }
Qed.

(** X1: when the stack pointer is a 32-bit value and the N words below it
    are RAM, [push] returns 1 + N, makes N stores at SP - 4, SP - 8, ...
    in the order r14, r7, ..., r0 of the listed registers, and leaves
    SP = SP - 4 * N with the lowest-numbered listed register at the new
    SP and the others above it in ascending order.  No other register,
    no other address and not the branch flag changes. *)
Theorem push_stores_descending_below_sp (d : decode_result) (s : state) :
  0 <= gpr s GPR_SP < 2 ^ 32 ->
  (forall k, (k < length (transferred (register_list d) push_loop))%nat ->
     is_Some (RAM (mem s) !! addr_down (gpr s GPR_SP) (S k))) ->
  exists s',
    push d s = Done (1 + Z.of_nat (length (transferred (register_list d) push_loop))) s'
    /\ accesses s' = accesses s ++
         imap (fun k r => Store (addr_down (gpr s GPR_SP) (S k)) (gpr s r))
              (transferred (register_list d) push_loop)
    /\ gpr s' GPR_SP
       = addr_down (gpr s GPR_SP) (length (transferred (register_list d) push_loop))
    /\ (forall r, r <> GPR_SP -> gpr s' r = gpr s r)
    /\ BRANCH_WAS_TAKEN s' = BRANCH_WAS_TAKEN s
    /\ (forall j r, reverse (transferred (register_list d) push_loop) !! j = Some r ->
          mem_load (mem s') (addr_up (gpr s' GPR_SP) j) = Some (gpr s r))
    /\ (forall a,
          (forall k, (k < length (transferred (register_list d) push_loop))%nat ->
             a <> addr_down (gpr s GPR_SP) (S k)) ->
          mem_load (mem s') a = mem_load (mem s) a).
Proof. exact (push_run d s). Qed.

Lemma push_stores_descending_below_sp_witness :
  exists s',
    push (Decoded 0 0 0 0 0x4011) round_trip_example_state = Done 4 s'
    /\ gpr s' GPR_SP = 0x20000018
    /\ mem_load (mem s') 0x20000018 = Some 100
    /\ mem_load (mem s') 0x2000001C = Some 104
    /\ mem_load (mem s') 0x20000020 = Some 0x08000123.
Proof.
  destruct (push_stores_descending_below_sp (Decoded 0 0 0 0 0x4011) round_trip_example_state)
    as (s' & Hpush & _ & Hsp & _ & _ & Hread & _).
  - vm_compute. split; congruence.
  - intros k Hk. change (length (transferred _ _)) with 3%nat in Hk.
    destruct k as [|[|[|k]]]; [vm_compute; eauto ..|lia].
  - exists s'. split; [exact Hpush|]. split; [exact Hsp|].
    pose proof (Hread 0%nat 0 eq_refl) as H0.
    pose proof (Hread 1%nat 4 eq_refl) as H1.
    pose proof (Hread 2%nat 14 eq_refl) as H2.
    rewrite Hsp in H0, H1, H2.
    split; [exact H0|]. split; [exact H1|exact H2].
Defined.

Lemma SP_not_popped rl : GPR_SP ∉ transferred rl pop_loop.
Proof.
  intros H. apply elem_of_transferred in H as [_ H].
  change pop_loop with [0;1;2;3;4;5;6;7;15] in H.
  repeat (apply elem_of_cons in H as [H|H]; [discriminate|]).
  by apply elem_of_nil in H.
Qed.

Lemma listed_15_popped rl : bool_decide (15 ∈ transferred rl pop_loop) = listed rl 15.
Proof.
  destruct (listed rl 15) eqn:H.
  - apply bool_decide_eq_true. apply elem_of_transferred. split; [done|].
    change pop_loop with [0;1;2;3;4;5;6;7;15]. repeat first [by left | right].
  - apply bool_decide_eq_false. intros Hin. apply elem_of_transferred in Hin as [Hin _].
    congruence.
Qed.

Lemma pop_run (d : decode_result) (s : state) :
  0 <= gpr s GPR_SP < 2 ^ 32 ->
  (forall k, (k < length (transferred (register_list d) pop_loop))%nat ->
     is_Some (mem_load (mem s) (addr_up (gpr s GPR_SP) k))) ->
  exists s',
    pop d s = Done TIMING_PC_UPDATE s'
    /\ accesses s' = accesses s ++
         imap (fun k _ => Load (addr_up (gpr s GPR_SP) k) 0)
              (transferred (register_list d) pop_loop)
    /\ mem s' = mem s
    /\ gpr s' GPR_SP
       = addr_up (gpr s GPR_SP) (length (transferred (register_list d) pop_loop))
    /\ (forall k r, transferred (register_list d) pop_loop !! k = Some r ->
          mem_load (mem s) (addr_up (gpr s GPR_SP) k) = Some (gpr s' r))
    /\ (forall r, r ∉ transferred (register_list d) pop_loop -> r <> GPR_SP ->
          gpr s' r = gpr s r)
    /\ BRANCH_WAS_TAKEN s' = BRANCH_WAS_TAKEN s || listed (register_list d) 15.
Proof.
  intros Hsp Hmem.
  set (sp := gpr s GPR_SP) in *. set (regs := transferred (register_list d) pop_loop) in *.
  pose proof (pop_loop_length_bound (register_list d)) as Hlen. fold regs in Hlen.
  destruct (pop_loop_done d pop_loop NoDup_pop_loop sp 0 s)
    as (s1 & Hrun & Hm1 & Hbt & Hacc & Hother & Hval);
    [done|lia|vm_compute; reflexivity|exact Hmem|].
  fold regs in Hrun, Hbt, Hacc, Hother, Hval.
  assert (Hpop : pop d s
                 = Done TIMING_PC_UPDATE
                     (State (reg_update (gpr s1) GPR_SP (addr_up sp (length regs)))
                            (BRANCH_WAS_TAKEN s1) (mem s1) (accesses s1))).
  { unfold pop. unfold bind at 1, cpu_get_sp, cpu_get_gpr at 1. fold sp.
    unfold bind at 1. rewrite Hrun.
    unfold bind, cpu_set_sp, cpu_set_gpr, get_BRANCH_WAS_TAKEN, ret.
    cbn [BRANCH_WAS_TAKEN]. f_equal.
    assert (0 <= Z.b2z (BRANCH_WAS_TAKEN s1) <= 1)
      by (destruct (BRANCH_WAS_TAKEN s1); simpl; lia).
    unfold add32. rewrite (wrap32_small (1 + _)) by lia. rewrite wrap32_small by lia.
    destruct (Z.eqb_spec (1 + (0 + Z.of_nat (length regs)) + Z.b2z (BRANCH_WAS_TAKEN s1)) 0);
      [lia|reflexivity]. }
  eexists. split; [exact Hpop|]. cbn [gpr BRANCH_WAS_TAKEN mem accesses].
  split; [exact Hacc|]. split; [exact Hm1|].
  split. { unfold reg_update. by rewrite Z.eqb_refl. }
  split.
  { intros k r Hk. rewrite (Hval k r Hk). f_equal. unfold reg_update.
    destruct (Z.eqb_spec r GPR_SP) as [->|]; [|done].
    exfalso. apply (SP_not_popped (register_list d)). eapply list_elem_of_lookup_2. exact Hk. }
  split.
  { intros r Hr Hne. unfold reg_update. destruct (Z.eqb_spec r GPR_SP); [done|].
    by apply Hother. }
  { rewrite Hbt. f_equal. apply listed_15_popped. }
Qed.

(** X2: when the stack pointer is a 32-bit value and the N words at it can
    be read, [pop] returns TIMING_PC_UPDATE, makes N loads at SP, SP + 4,
    ... and gives the k-th word to the k-th listed register in the order
    r0, ..., r7, PC; it leaves SP = SP + 4 * N, memory and the unlisted
    registers as they were, and sets the branch flag exactly when PC is
    listed. *)
Theorem pop_loads_ascending_from_sp (d : decode_result) (s : state) :
  0 <= gpr s GPR_SP < 2 ^ 32 ->
  (forall k, (k < length (transferred (register_list d) pop_loop))%nat ->
     is_Some (mem_load (mem s) (addr_up (gpr s GPR_SP) k))) ->
  exists s',
    pop d s = Done TIMING_PC_UPDATE s'
    /\ accesses s' = accesses s ++
         imap (fun k _ => Load (addr_up (gpr s GPR_SP) k) 0)
              (transferred (register_list d) pop_loop)
    /\ mem s' = mem s
    /\ gpr s' GPR_SP
       = addr_up (gpr s GPR_SP) (length (transferred (register_list d) pop_loop))
    /\ (forall k r, transferred (register_list d) pop_loop !! k = Some r ->
          mem_load (mem s) (addr_up (gpr s GPR_SP) k) = Some (gpr s' r))
    /\ (forall r, r ∉ transferred (register_list d) pop_loop -> r <> GPR_SP ->
          gpr s' r = gpr s r)
    /\ BRANCH_WAS_TAKEN s' = BRANCH_WAS_TAKEN s || listed (register_list d) 15.
Proof. exact (pop_run d s). Qed.

Lemma pop_loads_ascending_from_sp_witness :
  exists s',
    pop (Decoded 0 0 0 0 0x8003) stack_example_state = Done 2 s'
    /\ gpr s' 0 = 11 /\ gpr s' 1 = 22 /\ gpr s' GPR_PC = 33
    /\ gpr s' GPR_SP = 0x2000000C
    /\ BRANCH_WAS_TAKEN s' = true.
Proof.
  destruct (pop_loads_ascending_from_sp (Decoded 0 0 0 0 0x8003) stack_example_state)
    as (s' & Hpop & _ & _ & Hsp & Hval & _ & Hbt).
  - vm_compute. split; congruence.
  - intros k Hk. change (length (transferred _ _)) with 3%nat in Hk.
    destruct k as [|[|[|k]]]; [vm_compute; eauto ..|lia].
  - exists s'. split; [exact Hpop|].
    pose proof (Hval 0%nat 0 eq_refl) as H0.
    pose proof (Hval 1%nat 1 eq_refl) as H1.
    pose proof (Hval 2%nat 15 eq_refl) as H2.
    vm_compute in H0, H1, H2.
    injection H0 as H0. injection H1 as H1. injection H2 as H2.
    split; [symmetry; exact H0|]. split; [symmetry; exact H1|].
    split; [symmetry; exact H2|]. split; [exact Hsp|exact Hbt].
Defined.

Lemma low_bits_listed rl rl' i :
  Z.land rl' 0xFF = Z.land rl 0xFF -> i ∈ seqZ 0 8 -> listed rl' i = listed rl i.
Proof.
  intros Hlow Hi. unfold listed. f_equal. f_equal.
  assert (Hmask : forall x, Z.land x (Z.shiftl 1 i) = Z.land (Z.land x 0xFF) (Z.shiftl 1 i)).
  { intros x. rewrite <- Z.land_assoc. f_equal.
    change (seqZ 0 8) with [0;1;2;3;4;5;6;7] in Hi.
    repeat (apply elem_of_cons in Hi as [->|Hi]; [reflexivity|]).
    by apply elem_of_nil in Hi. }
  by rewrite (Hmask rl'), (Hmask rl), Hlow.
Qed.

Lemma transferred_ext rl rl' l :
  (forall i, i ∈ l -> listed rl' i = listed rl i) ->
  transferred rl' l = transferred rl l.
Proof.
  induction l as [|i l IH]; intros H; [reflexivity|].
  assert (Hi : listed rl' i = listed rl i) by (apply H; left).
  assert (Hl : transferred rl' l = transferred rl l) by (apply IH; intros j Hj; apply H; by right).
  destruct (listed rl i) eqn:Hb.
  - by rewrite !transferred_take, Hl.
  - by rewrite !transferred_skip, Hl.
Qed.

Lemma transferred_app rl l1 l2 :
  transferred rl (l1 ++ l2) = transferred rl l1 ++ transferred rl l2.
Proof. unfold transferred. apply filter_app. Qed.

Lemma transferred_reverse rl l :
  transferred rl (reverse l) = reverse (transferred rl l).
Proof. unfold transferred. apply filter_reverse. Qed.

Lemma popped_is_reverse_pushed rl rl' :
  Z.land rl' 0xFF = Z.land rl 0xFF ->
  listed rl' 15 = listed rl 14 ->
  transferred rl' pop_loop = lr_to_pc <$> reverse (transferred rl push_loop).
Proof.
  intros Hlow Hpc.
  change pop_loop with (seqZ 0 8 ++ [15]).
  change push_loop with ([14] ++ reverse (seqZ 0 8)).
  rewrite !transferred_app, transferred_reverse, reverse_app, reverse_involutive, fmap_app.
  rewrite (transferred_ext rl rl' (seqZ 0 8)) by (intros i Hi; by apply low_bits_listed).
  f_equal.
  - symmetry. etrans; [|apply list_fmap_id]. apply list_fmap_ext.
    intros k r Hr. apply list_elem_of_lookup_2, elem_of_transferred in Hr as [_ Hr].
    apply elem_of_seqZ in Hr. unfold lr_to_pc. destruct (Z.eqb_spec r 14); [lia|done].
  - destruct (listed rl 14) eqn:H14.
    + by rewrite (transferred_take rl' 15 []), (transferred_take rl 14 []).
    + by rewrite (transferred_skip rl' 15 []), (transferred_skip rl 14 []).
Qed.

(** X3: for any register list, [push] followed by [pop] of the same low
    registers, with PC in place of LR, gives every pushed register its
    value back (LR's value arrives in PC) and SP its old value, whatever
    happened to the registers in between, as long as memory and SP are
    those [push] left.  The pop leaves memory and the registers it does
    not list alone. *)
Theorem push_then_pop_restores_any_list (d d' : decode_result) (s : state) :
  0 <= gpr s GPR_SP < 2 ^ 32 ->
  (forall k, (k < length (transferred (register_list d) push_loop))%nat ->
     is_Some (RAM (mem s) !! addr_down (gpr s GPR_SP) (S k))) ->
  Z.land (register_list d') 0xFF = Z.land (register_list d) 0xFF ->
  listed (register_list d') 15 = listed (register_list d) 14 ->
  exists s1,
    push d s = Done (1 + Z.of_nat (length (transferred (register_list d) push_loop))) s1
    /\ forall t, mem t = mem s1 -> gpr t GPR_SP = gpr s1 GPR_SP ->
       exists t',
         pop d' t = Done TIMING_PC_UPDATE t'
         /\ (forall r, r ∈ transferred (register_list d) push_loop ->
               gpr t' (lr_to_pc r) = gpr s r)
         /\ (forall r, r ∉ transferred (register_list d') pop_loop -> r <> GPR_SP ->
               gpr t' r = gpr t r)
         /\ gpr t' GPR_SP = gpr s GPR_SP
         /\ mem t' = mem t
         /\ BRANCH_WAS_TAKEN t' = BRANCH_WAS_TAKEN t || listed (register_list d) 14.
Proof.
  intros Hsp Hram Hlow Hpc.
  destruct (push_run d s Hsp Hram)
    as (s1 & Hpush & _ & Hsp1 & _ & _ & Hread & _).
  exists s1. split; [exact Hpush|]. intros t Hmt Hspt.
  pose proof (popped_is_reverse_pushed _ _ Hlow Hpc) as Hlist.
  set (pushed := transferred (register_list d) push_loop) in *.
  assert (Hlen : length (transferred (register_list d') pop_loop) = length pushed).
  { by rewrite Hlist, length_fmap, length_reverse. }
  pose proof (push_loop_length_bound (register_list d)) as Hbound. fold pushed in Hbound.
  destruct (pop_run d' t) as (t' & Hpop & _ & Hmt' & Hspt' & Hval & Hother & Hbt).
  { rewrite Hspt, Hsp1. apply wrap32_range. }
  { intros k Hk. rewrite Hlen in Hk. rewrite Hspt, Hmt.
    destruct (reverse pushed !! k) as [r|] eqn:Hr.
    - rewrite (Hread k r Hr). eauto.
    - apply lookup_ge_None in Hr. rewrite length_reverse in Hr. lia. }
  exists t'. split; [exact Hpop|]. split; [|split; [exact Hother|split; [|split]]].
  - intros r Hr. apply elem_of_reverse, list_elem_of_lookup in Hr as [k Hk].
    assert (Hk' : transferred (register_list d') pop_loop !! k = Some (lr_to_pc r)).
    { by rewrite Hlist, list_lookup_fmap, Hk. }
    apply Hval in Hk'. rewrite Hspt, Hmt, (Hread k r Hk) in Hk'. congruence.
  - rewrite Hspt', Hlen, Hspt, Hsp1. rewrite addr_up_down by lia.
    rewrite Nat.sub_diag. by apply addr_down_0.
  - exact Hmt'.
  - by rewrite Hbt, Hpc.
Qed.

Lemma push_then_pop_restores_any_list_witness :
  exists s1 t',
    push (Decoded 0 0 0 0 0x4011) round_trip_example_state = Done 4 s1
    /\ pop (Decoded 0 0 0 0 0x8011) (scratch_registers GPR_SP (gpr s1 GPR_SP) (mem s1))
       = Done 2 t'
    /\ gpr t' 0 = 100 /\ gpr t' 4 = 104 /\ gpr t' GPR_PC = 0x08000123
    /\ gpr t' GPR_SP = 0x20000024.
Proof.
  destruct (push_then_pop_restores_any_list
              (Decoded 0 0 0 0 0x4011) (Decoded 0 0 0 0 0x8011) round_trip_example_state)
    as (s1 & Hpush & Hpop).
  - vm_compute. split; congruence.
  - intros k Hk. change (length (transferred _ _)) with 3%nat in Hk.
    destruct k as [|[|[|k]]]; [vm_compute; eauto ..|lia].
  - reflexivity.
  - reflexivity.
  - destruct (Hpop (scratch_registers GPR_SP (gpr s1 GPR_SP) (mem s1)) eq_refl eq_refl)
      as (t' & Hrun & Hregs & _ & Hsp & _).
    exists s1, t'. split; [exact Hpush|]. split; [exact Hrun|].
    split; [apply (Hregs 0), (list_elem_of_lookup_2 _ 2%nat); reflexivity|].
    split; [apply (Hregs 4), (list_elem_of_lookup_2 _ 1%nat); reflexivity|].
    split; [apply (Hregs 14), (list_elem_of_lookup_2 _ 0%nat); reflexivity|].
    exact Hsp.
Defined.

Lemma addr_up_inj a i j :
  Z.of_nat i < 2 ^ 30 -> Z.of_nat j < 2 ^ 30 -> addr_up a i = addr_up a j -> i = j.
Proof.
  intros Hi Hj H. unfold addr_up in H. apply wrap32_inj_near in H; lia.
Qed.

Lemma NoDup_stm_addresses a s regs :
  Z.of_nat (length regs) < 2 ^ 30 ->
  NoDup (store_plan (addr_up a) s regs).*1.
Proof.
  intros Hlen. apply NoDup_alt. intros i j x Hi Hj.
  unfold store_plan in Hi, Hj.
  rewrite list_lookup_fmap, list_lookup_imap in Hi, Hj.
  destruct (regs !! i) as [ri|] eqn:Hri; [|discriminate].
  destruct (regs !! j) as [rj|] eqn:Hrj; [|discriminate].
  apply lookup_lt_Some in Hri, Hrj. simpl in Hi, Hj.
  injection Hi as <-. injection Hj as Hj.
  apply addr_up_inj in Hj; lia.
Qed.

Lemma stm_run (d : decode_result) (s : state) :
  0 <= gpr s (Rn d) < 2 ^ 32 ->
  head (low_registers d) <> Some (Rn d) ->
  (forall k, (k < length (low_registers d))%nat ->
     is_Some (RAM (mem s) !! addr_up (gpr s (Rn d)) k)) ->
  exists s',
    stm d s = Done (1 + Z.of_nat (length (low_registers d))) s'
    /\ (forall k r, low_registers d !! k = Some r ->
          mem_load (mem s') (addr_up (gpr s (Rn d)) k) = Some (gpr s r))
    /\ (forall a,
          (forall k, (k < length (low_registers d))%nat -> a <> addr_up (gpr s (Rn d)) k) ->
          mem_load (mem s') a = mem_load (mem s) a)
    /\ ROM (mem s') = ROM (mem s)
    /\ BRANCH_WAS_TAKEN s' = BRANCH_WAS_TAKEN s.
Proof.
  intros Hbase Hne Hram.
  pose proof (low_registers_length d) as Hlen.
  unfold stm. unfold bind at 1, cpu_get_gpr at 1. unfold bind at 1.
  rewrite stm_loop_done; [|done|lia|by rewrite length_seqZ|by right|exact Hram].
  fold (low_registers d). eexists. unfold bind, cpu_set_gpr, ret. rewrite Z.add_0_l.
  unfold add32. rewrite wrap32_small by lia.
  split; [reflexivity|]. cbn [gpr BRANCH_WAS_TAKEN mem accesses after_stores RAM ROM].
  split.
  { intros k r Hk. unfold mem_load. cbn [RAM].
    rewrite (write_words_lookup _ _ k (addr_up (gpr s (Rn d)) k) (gpr s r)); [done| |].
    - apply NoDup_stm_addresses. lia.
    - unfold store_plan. by rewrite list_lookup_imap, Hk. }
  split.
  { intros a Ha. rewrite <- (memory_eta (mem s)) at 2. apply mem_load_same_ram.
    apply write_words_lookup_notin. intros Hin.
    apply store_plan_fst_lookup in Hin as (k & Hk & ->). by apply (Ha k). }
  split; reflexivity.
Qed.

(** X4: when [stm] does not fault (the base is a 32-bit value, is not the
    first listed register, and the N words at it are RAM), it returns
    1 + N and leaves the k-th listed register, in ascending order, in
    the word at base + 4 * k.  No other address, nor ROM, nor the branch
    flag changes. *)
Theorem stm_memory_image (d : decode_result) (s : state) :
  0 <= gpr s (Rn d) < 2 ^ 32 ->
  head (low_registers d) <> Some (Rn d) ->
  (forall k, (k < length (low_registers d))%nat ->
     is_Some (RAM (mem s) !! addr_up (gpr s (Rn d)) k)) ->
  exists s',
    stm d s = Done (1 + Z.of_nat (length (low_registers d))) s'
    /\ (forall k r, low_registers d !! k = Some r ->
          mem_load (mem s') (addr_up (gpr s (Rn d)) k) = Some (gpr s r))
    /\ (forall a,
          (forall k, (k < length (low_registers d))%nat -> a <> addr_up (gpr s (Rn d)) k) ->
          mem_load (mem s') a = mem_load (mem s) a)
    /\ ROM (mem s') = ROM (mem s)
    /\ BRANCH_WAS_TAKEN s' = BRANCH_WAS_TAKEN s.
Proof. exact (stm_run d s). Qed.

Lemma stm_memory_image_witness :
  exists s',
    stm (Decoded 0 3 0 0 7) block_example_state = Done 4 s'
    /\ mem_load (mem s') 0x20000000 = Some 100
    /\ mem_load (mem s') 0x20000004 = Some 101
    /\ mem_load (mem s') 0x20000008 = Some 102.
Proof.
  destruct (stm_memory_image (Decoded 0 3 0 0 7) block_example_state)
    as (s' & Hstm & Hread & _).
  - vm_compute. split; congruence.
  - vm_compute. congruence.
  - intros k Hk. change (length (low_registers _)) with 3%nat in Hk.
    destruct k as [|[|[|k]]]; [vm_compute; eauto ..|lia].
  - exists s'. split; [exact Hstm|].
    split; [exact (Hread 0%nat 0 eq_refl)|].
    split; [exact (Hread 1%nat 1 eq_refl)|exact (Hread 2%nat 2 eq_refl)].
Defined.

(** What [ldm] does when the words it reads are there. *)
Lemma ldm_run (d : decode_result) (s : state) :
  0 <= Rn d < 8 ->
  0 <= gpr s (Rn d) < 2 ^ 32 ->
  (forall k, (k < length (low_registers d))%nat ->
     is_Some (mem_load (mem s) (addr_up (gpr s (Rn d)) k))) ->
  exists s',
    ldm d s = Done (1 + Z.of_nat (length (low_registers d))) s'
    /\ mem s' = mem s
    /\ (forall k r, low_registers d !! k = Some r ->
          mem_load (mem s) (addr_up (gpr s (Rn d)) k) = Some (gpr s' r))
    /\ (Rn d ∉ low_registers d ->
          gpr s' (Rn d) = addr_up (gpr s (Rn d)) (length (low_registers d)))
    /\ (forall r, r ∉ low_registers d -> r <> Rn d -> gpr s' r = gpr s r).
Proof.
  intros HRn Hbase Hmem.
  set (base := gpr s (Rn d)) in *. set (regs := low_registers d) in *.
  assert (Hlen : (length regs <= 8)%nat) by apply low_registers_length.
  destruct (ldm_loop_done d (seqZ 0 8) NoDup_seqZ_0_8 base 0 s) as
    (s1 & Hrun & Hm1 & _ & _ & Hother & Hval); [done|lia|by rewrite length_seqZ|exact Hmem|].
  fold (low_registers d) in Hrun, Hother, Hval. fold regs in Hrun, Hother, Hval.
  assert (Hin : Rn d ∈ regs <-> listed (register_list d) (Rn d) = true)
    by (by apply elem_of_low_registers).
  unfold ldm. unfold bind at 1, cpu_get_gpr at 1. fold base.
  unfold bind at 1. rewrite Hrun. rewrite Z.add_0_l.
  rewrite (Z.land_comm (Z.shiftl 1 (Rn d))).
  unfold add32. rewrite wrap32_small by lia.
  destruct (Z.land (register_list d) (Z.shiftl 1 (Rn d)) =? 0) eqn:Hbit.
  - apply listed_false in Hbit.
    assert (Hnot : Rn d ∉ regs) by (rewrite Hin, Hbit; done).
    eexists. unfold bind, cpu_set_gpr, ret. split; [reflexivity|]. simpl.
    split; [done|]. split.
    { intros k r Hk. rewrite (Hval k r Hk). f_equal. unfold reg_update.
      destruct (Z.eqb_spec r (Rn d)) as [->|]; [|done].
      exfalso. apply Hnot. eapply list_elem_of_lookup_2. exact Hk. }
    split.
    { intros _. unfold reg_update. by rewrite Z.eqb_refl. }
    { intros r Hr Hne. unfold reg_update.
      destruct (Z.eqb_spec r (Rn d)); [done|]. by apply Hother. }
  - apply listed_true in Hbit.
    exists s1. unfold bind, ret. split; [reflexivity|].
    split; [done|]. split; [done|]. split.
    { intros Hnot. exfalso. apply Hnot. by apply Hin. }
    { intros r Hr _. by apply Hother. }
Qed.

(** X5: [stm] followed by [ldm] of the same low registers from the same
    base address gives every stored register its value back, whatever
    happened to the registers in between, as long as memory is the one
    [stm] left.  The load costs what the store cost, leaves memory and
    the unlisted registers alone, and writes the end address back to its
    base register when that is not listed. *)
Theorem stm_then_ldm_restores (d d' : decode_result) (s : state) :
  0 <= gpr s (Rn d) < 2 ^ 32 ->
  head (low_registers d) <> Some (Rn d) ->
  (forall k, (k < length (low_registers d))%nat ->
     is_Some (RAM (mem s) !! addr_up (gpr s (Rn d)) k)) ->
  Z.land (register_list d') 0xFF = Z.land (register_list d) 0xFF ->
  0 <= Rn d' < 8 ->
  exists s1,
    stm d s = Done (1 + Z.of_nat (length (low_registers d))) s1
    /\ forall t, mem t = mem s1 -> gpr t (Rn d') = gpr s (Rn d) ->
       exists t',
         ldm d' t = Done (1 + Z.of_nat (length (low_registers d))) t'
         /\ (forall r, r ∈ low_registers d -> gpr t' r = gpr s r)
         /\ (Rn d' ∉ low_registers d ->
               gpr t' (Rn d') = addr_up (gpr s (Rn d)) (length (low_registers d)))
         /\ (forall r, r ∉ low_registers d -> r <> Rn d' -> gpr t' r = gpr t r)
         /\ mem t' = mem t.
Proof.
  intros Hbase Hne Hram Hlow HRn'.
  destruct (stm_run d s Hbase Hne Hram) as (s1 & Hstm & Hread & _).
  exists s1. split; [exact Hstm|]. intros t Hmt Hbt.
  assert (Hregs : low_registers d' = low_registers d).
  { unfold low_registers. apply transferred_ext. intros i Hi. by apply low_bits_listed. }
  destruct (ldm_run d' t) as (t' & Hldm & Hmt' & Hval & Hwb & Hother).
  { done. }
  { by rewrite Hbt. }
  { rewrite Hregs, Hbt, Hmt. intros k Hk.
    destruct (low_registers d !! k) as [r|] eqn:Hr.
    - rewrite (Hread k r Hr). eauto.
    - apply lookup_ge_None in Hr. lia. }
  rewrite Hregs in Hldm, Hval, Hwb, Hother. rewrite Hbt in Hval, Hwb.
  exists t'. split; [exact Hldm|]. split; [|split; [exact Hwb|split; [exact Hother|exact Hmt']]].
  intros r Hr. apply list_elem_of_lookup in Hr as [k Hk].
  pose proof (Hval k r Hk) as Hv. rewrite Hmt, (Hread k r Hk) in Hv. congruence.
Qed.

Lemma stm_then_ldm_restores_witness :
  exists s1 t',
    stm (Decoded 0 3 0 0 7) block_example_state = Done 4 s1
    /\ ldm (Decoded 0 3 0 0 7) (scratch_registers 3 0x20000000 (mem s1)) = Done 4 t'
    /\ gpr t' 0 = 100 /\ gpr t' 1 = 101 /\ gpr t' 2 = 102
    /\ gpr t' 3 = 0x2000000C.
Proof.
  destruct (stm_then_ldm_restores (Decoded 0 3 0 0 7) (Decoded 0 3 0 0 7) block_example_state)
    as (s1 & Hstm & Hldm).
  - vm_compute. split; congruence.
  - vm_compute. congruence.
  - intros k Hk. change (length (low_registers _)) with 3%nat in Hk.
    destruct k as [|[|[|k]]]; [vm_compute; eauto ..|lia].
  - reflexivity.
  - vm_compute. split; congruence.
  - destruct (Hldm (scratch_registers 3 0x20000000 (mem s1)) eq_refl eq_refl)
      as (t' & Hrun & Hregs & Hwb & _).
    exists s1, t'. split; [exact Hstm|]. split; [exact Hrun|].
    split; [apply (Hregs 0), (list_elem_of_lookup_2 _ 0%nat); reflexivity|].
    split; [apply (Hregs 1), (list_elem_of_lookup_2 _ 1%nat); reflexivity|].
    split; [apply (Hregs 2), (list_elem_of_lookup_2 _ 2%nat); reflexivity|].
    apply Hwb. intros Hin. apply list_elem_of_lookup in Hin as [k Hk].
    destruct k as [|[|[|k]]]; vm_compute in Hk; congruence.
Defined.

(** * Empty register lists *)

Lemma for_each_skip {A} (body : Z -> A -> exec A) l :
  (forall i, i ∈ l -> forall a s, body i a s = Done a s) ->
  forall a s, for_each body l a s = Done a s.
Proof.
  induction l as [|i l IH]; intros H a s; [reflexivity|].
  cbn [for_each]. unfold bind. rewrite H by left. apply IH.
  intros j Hj. apply H. by right.
Qed.

Ltac elem_of_literal H :=
  repeat (apply elem_of_cons in H as [->|H]; [solve [repeat first [by left | right]]|]);
  by apply elem_of_nil in H.

Lemma unlisted_bit rl i :
  Z.land rl 0xC0FF = 0 -> i ∈ [0; 1; 2; 3; 4; 5; 6; 7; 14; 15] ->
  (Z.land rl (Z.shiftl 1 i) =? 0) = true.
Proof.
  intros Hrl Hi. apply Z.eqb_eq.
  assert (Hmask : Z.land rl (Z.shiftl 1 i) = Z.land (Z.land rl 0xC0FF) (Z.shiftl 1 i)).
  { rewrite <- Z.land_assoc. f_equal.
    repeat (apply elem_of_cons in Hi as [->|Hi]; [reflexivity|]).
    by apply elem_of_nil in Hi. }
  rewrite Hmask, Hrl. apply Z.land_0_l.
Qed.

(** X6: a register list with none of the bits 0-7, 14 and 15 set makes
    [ldm], [stm] and [push] return 1 and [pop] return TIMING_PC_UPDATE
    without a single memory access and without changing the value of
    any register, memory, or (for [pop]) the branch flag; [stm] does not
    fault on it. *)
Theorem empty_register_list_transfers_nothing (d : decode_result) (s : state) :
  Z.land (register_list d) 0xC0FF = 0 ->
  (exists s', ldm d s = Done 1 s'
     /\ (forall r, gpr s' r = gpr s r) /\ mem s' = mem s /\ accesses s' = accesses s)
  /\ (exists s', stm d s = Done 1 s'
     /\ (forall r, gpr s' r = gpr s r) /\ mem s' = mem s /\ accesses s' = accesses s)
  /\ (exists s', push d s = Done 1 s'
     /\ (forall r, gpr s' r = gpr s r) /\ mem s' = mem s /\ accesses s' = accesses s)
  /\ (exists s', pop d s = Done TIMING_PC_UPDATE s'
     /\ (forall r, gpr s' r = gpr s r) /\ mem s' = mem s /\ accesses s' = accesses s
     /\ BRANCH_WAS_TAKEN s' = BRANCH_WAS_TAKEN s).
Proof.
  intros Hrl.
  assert (Hupd : forall r j, reg_update (gpr s) j (gpr s j) r = gpr s r).
  { intros r j. unfold reg_update. by destruct (Z.eqb_spec r j) as [->|]. }
  split; [|split; [|split]].
  - unfold ldm. unfold bind at 1, cpu_get_gpr at 1. unfold bind at 1.
    rewrite for_each_skip.
    + destruct (Z.land (Z.shiftl 1 (Rn d)) (register_list d) =? 0);
        eexists; (split; [reflexivity|]); cbn [gpr mem accesses]; auto.
    + intros i Hi [a n] s0. unfold ldm_body. rewrite unlisted_bit; [done|done|].
      change (seqZ 0 8) with [0;1;2;3;4;5;6;7] in Hi. elem_of_literal Hi.
  - unfold stm. unfold bind at 1, cpu_get_gpr at 1. unfold bind at 1.
    rewrite for_each_skip.
    + eexists. split; [reflexivity|]. cbn [gpr mem accesses]. auto.
    + intros i Hi [a n] s0. unfold stm_body. rewrite unlisted_bit; [done|done|].
      change (seqZ 0 8) with [0;1;2;3;4;5;6;7] in Hi. elem_of_literal Hi.
  - unfold push. unfold bind at 1, cpu_get_sp, cpu_get_gpr at 1. unfold bind at 1.
    rewrite for_each_skip.
    + eexists. split; [reflexivity|]. cbn [gpr mem accesses]. auto.
    + intros i Hi [a n] s0. unfold push_body. rewrite unlisted_bit; [done|done|].
      change push_loop with [14;7;6;5;4;3;2;1;0] in Hi. elem_of_literal Hi.
  - unfold pop. unfold bind at 1, cpu_get_sp, cpu_get_gpr at 1. unfold bind at 1.
    rewrite for_each_skip.
    + eexists. unfold bind, cpu_set_sp, cpu_set_gpr, get_BRANCH_WAS_TAKEN, ret.
      cbn [BRANCH_WAS_TAKEN]. split.
      * f_equal. by destruct (BRANCH_WAS_TAKEN s).
      * cbn [gpr mem accesses BRANCH_WAS_TAKEN]. auto.
    + intros i Hi [a n] s0. unfold pop_body. rewrite unlisted_bit; [done|done|].
      change pop_loop with [0;1;2;3;4;5;6;7;15] in Hi. elem_of_literal Hi.
Qed.

Lemma empty_register_list_transfers_nothing_witness :
  cost (ldm (Decoded 0 0 0 0 0x3F00) stack_example_state) = Some 1
  /\ cost (stm (Decoded 0 0 0 0 0x3F00) stack_example_state) = Some 1
  /\ cost (push (Decoded 0 0 0 0 0x3F00) stack_example_state) = Some 1
  /\ cost (pop (Decoded 0 0 0 0 0x3F00) stack_example_state) = Some 2.
Proof.
  destruct (empty_register_list_transfers_nothing (Decoded 0 0 0 0 0x3F00) stack_example_state)
    as ((s1 & H1 & _) & (s2 & H2 & _) & (s3 & H3 & _) & (s4 & H4 & _)).
  - reflexivity.
  - rewrite H1, H2, H3, H4. repeat split.
Defined.

(** * Stack and block transfers: memory faults *)

Lemma for_each_app {A} (body : Z -> A -> exec A) l1 l2 a s :
  for_each body (l1 ++ l2) a s
  = match for_each body l1 a s with
    | Done a' s' => for_each body l2 a' s'
    | Fatal f s' => Fatal f s'
    end.
Proof.
  revert a s. induction l1 as [|i l1 IH]; intros a s; [reflexivity|].
  cbn [app for_each]. unfold bind.
  destruct (body i a s) as [a' s'|f s']; [apply IH|reflexivity].
Qed.

(** The index list up to the [j]-th listed register. *)
Lemma transferred_lookup_split rl l : forall j i,
  transferred rl l !! j = Some i ->
  exists l1 l2,
    l = l1 ++ i :: l2
    /\ transferred rl l1 = take j (transferred rl l)
    /\ listed rl i = true.
Proof.
  induction l as [|x l IH]; intros j i Hj; [discriminate|].
  destruct (listed rl x) eqn:Hx.
  - rewrite (transferred_take _ _ _ Hx) in Hj |- *. destruct j as [|j].
    + injection Hj as <-. by exists [], l.
    + simpl in Hj. destruct (IH j i Hj) as (l1 & l2 & -> & Hl1 & Hi).
      exists (x :: l1), l2. split; [done|]. split; [|done].
      rewrite (transferred_take _ _ _ Hx). simpl. by rewrite Hl1.
  - rewrite (transferred_skip _ _ _ Hx) in Hj |- *.
    destruct (IH j i Hj) as (l1 & l2 & -> & Hl1 & Hi).
    exists (x :: l1), l2. split; [done|]. split; [|done].
    by rewrite (transferred_skip _ _ _ Hx).
Qed.

Lemma listed_bit rl i : listed rl i = true -> (Z.land rl (Z.shiftl 1 i) =? 0) = false.
Proof. unfold listed. by intros ->%negb_true_iff. Qed.

Lemma imap_take_S {A B} (f : nat -> A -> B) (l : list A) j x :
  l !! j = Some x -> imap f (take (S j) l) = imap f (take j l) ++ [f j x].
Proof.
  intros Hj. pose proof (lookup_lt_Some _ _ _ Hj).
  rewrite (take_S_r _ _ _ Hj), imap_app. simpl.
  rewrite length_take_le by lia. by rewrite Nat.add_0_r.
Qed.

Lemma ldm_loop_fault d l j i a n s :
  NoDup l -> 0 <= a < 2 ^ 32 -> 0 <= n -> n + Z.of_nat (length l) < 2 ^ 32 ->
  transferred (register_list d) l !! j = Some i ->
  (forall k, (k < j)%nat -> is_Some (mem_load (mem s) (addr_up a k))) ->
  mem_load (mem s) (addr_up a j) = None ->
  exists s',
    for_each (ldm_body d) l (a, n) s = Fatal (MemoryFault (addr_up a j)) s'
    /\ mem s' = mem s
    /\ accesses s' = accesses s ++ imap (fun k _ => Load (addr_up a k) 0)
                                     (take (S j) (transferred (register_list d) l))
    /\ (forall r, r ∉ take j (transferred (register_list d) l) -> gpr s' r = gpr s r)
    /\ (forall k r, take j (transferred (register_list d) l) !! k = Some r ->
          mem_load (mem s) (addr_up a k) = Some (gpr s' r)).
Proof.
  intros Hnd Ha Hn Hb Hj Hread Hnone.
  pose proof (lookup_lt_Some _ _ _ Hj) as Hlt.
  rewrite (imap_take_S _ _ _ _ Hj).
  destruct (transferred_lookup_split _ _ _ _ Hj) as (l1 & l2 & -> & Hl1 & Hi).
  apply NoDup_app in Hnd as (Hnd1 & _ & _).
  rewrite length_app in Hb.
  assert (Hlen1 : length (transferred (register_list d) l1) = j).
  { rewrite Hl1, length_take_le; lia. }
  destruct (ldm_loop_done d l1 Hnd1 a n s) as (s1 & Hrun & Hm1 & _ & Hacc & Hother & Hval);
    [done|done|lia|intros k Hk; apply Hread; lia|].
  rewrite Hlen1 in Hrun. rewrite Hl1 in Hacc, Hother, Hval.
  exists (record_access (Load (addr_up a j) 0) s1).
  rewrite for_each_app, Hrun. cbn [for_each]. unfold bind at 1, ldm_body at 1.
  rewrite (listed_bit _ _ Hi). unfold bind at 1, load at 1. rewrite Hm1, Hnone.
  split; [reflexivity|]. cbn [record_access mem accesses gpr].
  split; [exact Hm1|]. split; [by rewrite Hacc, <- app_assoc|].
  split; [exact Hother|exact Hval].
Qed.

Lemma pop_loop_fault d l j i a n s :
  NoDup l -> 0 <= a < 2 ^ 32 -> 0 <= n -> n + Z.of_nat (length l) < 2 ^ 32 ->
  transferred (register_list d) l !! j = Some i ->
  (forall k, (k < j)%nat -> is_Some (mem_load (mem s) (addr_up a k))) ->
  mem_load (mem s) (addr_up a j) = None ->
  exists s',
    for_each (pop_body d) l (a, n) s = Fatal (MemoryFault (addr_up a j)) s'
    /\ mem s' = mem s
    /\ BRANCH_WAS_TAKEN s'
       = (BRANCH_WAS_TAKEN s || bool_decide (15 ∈ take j (transferred (register_list d) l)))
    /\ accesses s' = accesses s ++ imap (fun k _ => Load (addr_up a k) 0)
                                     (take (S j) (transferred (register_list d) l))
    /\ (forall r, r ∉ take j (transferred (register_list d) l) -> gpr s' r = gpr s r)
    /\ (forall k r, take j (transferred (register_list d) l) !! k = Some r ->
          mem_load (mem s) (addr_up a k) = Some (gpr s' r)).
Proof.
  intros Hnd Ha Hn Hb Hj Hread Hnone.
  pose proof (lookup_lt_Some _ _ _ Hj) as Hlt.
  rewrite (imap_take_S _ _ _ _ Hj).
  destruct (transferred_lookup_split _ _ _ _ Hj) as (l1 & l2 & -> & Hl1 & Hi).
  apply NoDup_app in Hnd as (Hnd1 & _ & _).
  rewrite length_app in Hb.
  assert (Hlen1 : length (transferred (register_list d) l1) = j).
  { rewrite Hl1, length_take_le; lia. }
  destruct (pop_loop_done d l1 Hnd1 a n s) as (s1 & Hrun & Hm1 & Hbt & Hacc & Hother & Hval);
    [done|done|lia|intros k Hk; apply Hread; lia|].
  rewrite Hlen1 in Hrun. rewrite Hl1 in Hbt, Hacc, Hother, Hval.
  exists (record_access (Load (addr_up a j) 0) s1).
  rewrite for_each_app, Hrun. cbn [for_each]. unfold bind at 1, pop_body at 1.
  rewrite (listed_bit _ _ Hi). unfold bind at 1, load at 1. rewrite Hm1, Hnone.
  split; [reflexivity|]. cbn [record_access mem accesses gpr BRANCH_WAS_TAKEN].
  split; [exact Hm1|]. split; [exact Hbt|]. split; [by rewrite Hacc, <- app_assoc|].
  split; [exact Hother|exact Hval].
Qed.

(** PC is the last register [pop] loads. *)
Lemma PC_popped_last rl j :
  (j < length (transferred rl pop_loop))%nat -> 15 ∉ take j (transferred rl pop_loop).
Proof.
  change pop_loop with (seqZ 0 8 ++ [15]). unfold transferred.
  rewrite filter_app, length_app, take_app. intros Hj [Hin|Hin]%elem_of_app.
  - apply subseteq_take, list_elem_of_filter in Hin as [_ Hin].
    apply elem_of_seqZ in Hin. lia.
  - destruct (listed rl 15) eqn:H15.
    + fold (transferred rl [15]) in Hin, Hj.
      rewrite (transferred_take _ _ _ H15) in Hin, Hj. simpl in Hj.
      change (transferred rl []) with (@nil Z) in Hin, Hj. simpl in Hj.
      replace (j - _)%nat with 0%nat in Hin by lia. by apply elem_of_nil in Hin.
    + fold (transferred rl [15]) in Hin. rewrite (transferred_skip _ _ _ H15) in Hin.
      change (transferred rl []) with (@nil Z) in Hin. rewrite take_nil in Hin. by apply elem_of_nil in Hin.
Qed.

Lemma stm_loop_mem_fault d l j i a n s :
  0 <= a < 2 ^ 32 -> 0 <= n -> n + Z.of_nat (length l) < 2 ^ 30 ->
  0 < n \/ head (transferred (register_list d) l) <> Some (Rn d) ->
  transferred (register_list d) l !! j = Some i ->
  (forall k, (k < j)%nat -> is_Some (RAM (mem s) !! addr_up a k)) ->
  RAM (mem s) !! addr_up a j = None ->
  for_each (stm_body d) l (a, n) s
  = Fatal (MemoryFault (addr_up a j))
      (record_access (Store (addr_up a j) (gpr s i))
         (after_stores s (store_plan (addr_up a) s (take j (transferred (register_list d) l))))).
Proof.
  intros Ha Hn Hb Hok Hj Hram Hnone.
  pose proof (lookup_lt_Some _ _ _ Hj) as Hlt.
  pose proof (length_filter (fun i => listed (register_list d) i) l) as Hfl.
  fold (transferred (register_list d) l) in Hfl.
  destruct (transferred_lookup_split _ _ _ _ Hj) as (l1 & l2 & -> & Hl1 & Hi).
  assert (Hlen1 : length (transferred (register_list d) l1) = j).
  { rewrite Hl1, length_take_le; lia. }
  rewrite length_app in Hb, Hfl. cbn [length] in Hb, Hfl.
  rewrite for_each_app, stm_loop_done; [|done|done|lia| |].
  - rewrite Hlen1, Hl1. cbn [for_each]. unfold bind at 1, stm_body at 1.
    rewrite (listed_bit _ _ Hi).
    assert (Hcond : (i =? Rn d) && (n + Z.of_nat j =? 0) = false).
    { destruct (Z.eqb_spec (n + Z.of_nat j) 0) as [H0|]; [|apply andb_false_r].
      destruct Hok as [Hpos|Hhd]; [lia|].
      assert (j = 0%nat) as -> by lia. rewrite head_lookup, Hj in Hhd.
      destruct (Z.eqb_spec i (Rn d)) as [->|]; [by destruct Hhd|done]. }
    rewrite Hcond.
    unfold bind at 1, ret at 1, bind at 1, cpu_get_gpr at 1, bind at 1.
    unfold store, mem_store. cbn [after_stores gpr mem RAM record_access].
    rewrite write_words_lookup_notin, Hnone; [reflexivity|].
    intros Hin. apply store_plan_fst_lookup in Hin as (k & Hk & Heq).
    rewrite length_take_le in Hk by lia. apply addr_up_inj in Heq; lia.
  - rewrite Hl1. destruct j as [|j]; [right; by rewrite take_0|].
    destruct Hok as [Hpos|Hhd]; [by left|right].
    rewrite head_lookup, lookup_take_lt by lia. by rewrite <- head_lookup.
  - rewrite Hlen1. exact Hram.
Qed.

Lemma push_loop_mem_fault d l j i a n s :
  0 <= a < 2 ^ 32 -> 0 <= n -> n + Z.of_nat (length l) < 2 ^ 30 ->
  transferred (register_list d) l !! j = Some i ->
  (forall k, (k < j)%nat -> is_Some (RAM (mem s) !! addr_down a (S k))) ->
  RAM (mem s) !! addr_down a (S j) = None ->
  for_each (push_body d) l (a, n) s
  = Fatal (MemoryFault (addr_down a (S j)))
      (record_access (Store (addr_down a (S j)) (gpr s i))
         (after_stores s (store_plan (fun k => addr_down a (S k)) s
                            (take j (transferred (register_list d) l))))).
Proof.
  intros Ha Hn Hb Hj Hram Hnone.
  pose proof (lookup_lt_Some _ _ _ Hj) as Hlt.
  pose proof (length_filter (fun i => listed (register_list d) i) l) as Hfl.
  fold (transferred (register_list d) l) in Hfl.
  destruct (transferred_lookup_split _ _ _ _ Hj) as (l1 & l2 & -> & Hl1 & Hi).
  assert (Hlen1 : length (transferred (register_list d) l1) = j).
  { rewrite Hl1, length_take_le; lia. }
  rewrite length_app in Hb, Hfl. cbn [length] in Hb, Hfl.
  rewrite for_each_app, push_loop_done; [|done|done|lia|].
  - rewrite Hlen1, Hl1. cbn [for_each]. unfold bind at 1, push_body at 1.
    rewrite (listed_bit _ _ Hi).
    unfold bind at 1, cpu_get_gpr at 1, bind at 1.
    rewrite <- (addr_down_0 (sub32 (addr_down a j) 4)) by apply wrap32_range.
    rewrite addr_down_S. 
    replace (addr_down (addr_down a j) 1) with (addr_down a (S j)).
    2:{ unfold addr_down, wrap32. rewrite Zminus_mod_idemp_l. f_equal. lia. }
    unfold store, mem_store. cbn [after_stores gpr mem RAM record_access].
    rewrite write_words_lookup_notin, Hnone; [reflexivity|].
    intros Hin. apply store_plan_fst_lookup in Hin as (k & Hk & Heq).
    rewrite length_take_le in Hk by lia. apply addr_down_inj in Heq; lia.
  - rewrite Hlen1. exact Hram.
Qed.

(** X7: when the [j]-th word [ldm] reads is the first that is unmapped,
    [ldm] ends in a memory fault at base + 4 * j after j + 1 load calls.
    The first j listed registers hold their loaded words already; no
    other register changed, so the base is not written back, and memory
    is as it was. *)
Theorem ldm_stops_at_first_unreadable_word
    (d : decode_result) (s : state) (j : nat) (i : Z) :
  0 <= gpr s (Rn d) < 2 ^ 32 ->
  low_registers d !! j = Some i ->
  (forall k, (k < j)%nat -> is_Some (mem_load (mem s) (addr_up (gpr s (Rn d)) k))) ->
  mem_load (mem s) (addr_up (gpr s (Rn d)) j) = None ->
  exists s',
    ldm d s = Fatal (MemoryFault (addr_up (gpr s (Rn d)) j)) s'
    /\ accesses s' = accesses s ++
         imap (fun k _ => Load (addr_up (gpr s (Rn d)) k) 0) (take (S j) (low_registers d))
    /\ mem s' = mem s
    /\ (forall k r, take j (low_registers d) !! k = Some r ->
          mem_load (mem s) (addr_up (gpr s (Rn d)) k) = Some (gpr s' r))
    /\ (forall r, r ∉ take j (low_registers d) -> gpr s' r = gpr s r).
Proof.
  intros Hbase Hj Hread Hnone.
  destruct (ldm_loop_fault d (seqZ 0 8) j i (gpr s (Rn d)) 0 s NoDup_seqZ_0_8)
    as (s' & Hrun & Hm & Hacc & Hother & Hval);
    [done|lia|by rewrite length_seqZ|exact Hj|exact Hread|exact Hnone|].
  exists s'. unfold ldm. unfold bind at 1, cpu_get_gpr at 1. unfold bind at 1.
  rewrite Hrun. split; [reflexivity|]. split; [exact Hacc|]. split; [exact Hm|].
  split; [exact Hval|exact Hother].
Qed.

Lemma ldm_stops_at_first_unreadable_word_witness :
  exists s',
    ldm (Decoded 0 0 0 0 0x1E) ldm_example_state = Fatal (MemoryFault 0x2000000C) s'
    /\ gpr s' 1 = 0x100 /\ gpr s' 2 = 0x200 /\ gpr s' 3 = 0x300
    /\ gpr s' 4 = 0 /\ gpr s' 0 = 0x20000000.
Proof.
  destruct (ldm_stops_at_first_unreadable_word (Decoded 0 0 0 0 0x1E) ldm_example_state 3 4)
    as (s' & Hrun & _ & _ & Hval & Hother).
  - vm_compute. split; congruence.
  - reflexivity.
  - intros k Hk. destruct k as [|[|[|k]]]; [vm_compute; eauto ..|lia].
  - reflexivity.
  - exists s'. split; [exact Hrun|].
    pose proof (Hval 0%nat 1 eq_refl) as H1.
    pose proof (Hval 1%nat 2 eq_refl) as H2.
    pose proof (Hval 2%nat 3 eq_refl) as H3.
    vm_compute in H1, H2, H3.
    injection H1 as H1. injection H2 as H2. injection H3 as H3.
    split; [symmetry; exact H1|]. split; [symmetry; exact H2|].
    split; [symmetry; exact H3|].
    split; apply Hother; intros Hin; apply list_elem_of_lookup in Hin as [k Hk];
      destruct k as [|[|[|k]]]; vm_compute in Hk; congruence.
Defined.

(** X8: when the [j]-th word [pop] reads is the first that is unmapped,
    [pop] ends in a memory fault at SP + 4 * j after j + 1 load calls.
    The first j listed registers hold their loaded words already; no
    other register changed, SP and the branch flag are not updated, and
    memory is as it was. *)
Theorem pop_stops_at_first_unreadable_word
    (d : decode_result) (s : state) (j : nat) (i : Z) :
  0 <= gpr s GPR_SP < 2 ^ 32 ->
  transferred (register_list d) pop_loop !! j = Some i ->
  (forall k, (k < j)%nat -> is_Some (mem_load (mem s) (addr_up (gpr s GPR_SP) k))) ->
  mem_load (mem s) (addr_up (gpr s GPR_SP) j) = None ->
  exists s',
    pop d s = Fatal (MemoryFault (addr_up (gpr s GPR_SP) j)) s'
    /\ accesses s' = accesses s ++
         imap (fun k _ => Load (addr_up (gpr s GPR_SP) k) 0)
              (take (S j) (transferred (register_list d) pop_loop))
    /\ mem s' = mem s
    /\ (forall k r, take j (transferred (register_list d) pop_loop) !! k = Some r ->
          mem_load (mem s) (addr_up (gpr s GPR_SP) k) = Some (gpr s' r))
    /\ (forall r, r ∉ take j (transferred (register_list d) pop_loop) -> gpr s' r = gpr s r)
    /\ gpr s' GPR_SP = gpr s GPR_SP
    /\ BRANCH_WAS_TAKEN s' = BRANCH_WAS_TAKEN s.
Proof.
  intros Hsp Hj Hread Hnone.
  pose proof (lookup_lt_Some _ _ _ Hj) as Hlt.
  destruct (pop_loop_fault d pop_loop j i (gpr s GPR_SP) 0 s NoDup_pop_loop)
    as (s' & Hrun & Hm & Hbt & Hacc & Hother & Hval);
    [done|lia|vm_compute; reflexivity|exact Hj|exact Hread|exact Hnone|].
  exists s'. unfold pop. unfold bind at 1, cpu_get_sp, cpu_get_gpr at 1. unfold bind at 1.
  rewrite Hrun. split; [reflexivity|]. split; [exact Hacc|]. split; [exact Hm|].
  split; [exact Hval|]. split; [exact Hother|]. split.
  - apply Hother. intros Hin%subseteq_take. by apply SP_not_popped in Hin.
  - rewrite Hbt, bool_decide_eq_false_2; [apply orb_false_r|by apply PC_popped_last].
Qed.

Lemma pop_stops_at_first_unreadable_word_witness :
  exists s',
    pop (Decoded 0 0 0 0 0x800F) stack_example_state = Fatal (MemoryFault 0x2000000C) s'
    /\ gpr s' 0 = 11 /\ gpr s' 1 = 22 /\ gpr s' 2 = 33
    /\ gpr s' GPR_SP = 0x20000000
    /\ BRANCH_WAS_TAKEN s' = false.
Proof.
  destruct (pop_stops_at_first_unreadable_word (Decoded 0 0 0 0 0x800F) stack_example_state 3 3)
    as (s' & Hrun & _ & _ & Hval & _ & Hsp & Hbt).
  - vm_compute. split; congruence.
  - reflexivity.
  - intros k Hk. destruct k as [|[|[|k]]]; [vm_compute; eauto ..|lia].
  - reflexivity.
  - exists s'. split; [exact Hrun|].
    pose proof (Hval 0%nat 0 eq_refl) as H0.
    pose proof (Hval 1%nat 1 eq_refl) as H1.
    pose proof (Hval 2%nat 2 eq_refl) as H2.
    vm_compute in H0, H1, H2.
    injection H0 as H0. injection H1 as H1. injection H2 as H2.
    split; [symmetry; exact H0|]. split; [symmetry; exact H1|].
    split; [symmetry; exact H2|]. split; [exact Hsp|exact Hbt].
Defined.

(** X9: when the [j]-th word [stm] writes is the first outside RAM (and
    the base is not the first listed register), [stm] ends in a memory
    fault at base + 4 * j after j + 1 store calls.  The first j listed
    registers are in memory already, every other address is as it was,
    and no register changed: the base is not written back. *)
Theorem stm_stops_at_first_word_outside_ram
    (d : decode_result) (s : state) (j : nat) (i : Z) :
  0 <= gpr s (Rn d) < 2 ^ 32 ->
  head (low_registers d) <> Some (Rn d) ->
  low_registers d !! j = Some i ->
  (forall k, (k < j)%nat -> is_Some (RAM (mem s) !! addr_up (gpr s (Rn d)) k)) ->
  RAM (mem s) !! addr_up (gpr s (Rn d)) j = None ->
  exists s',
    stm d s = Fatal (MemoryFault (addr_up (gpr s (Rn d)) j)) s'
    /\ accesses s' = accesses s ++
         imap (fun k r => Store (addr_up (gpr s (Rn d)) k) (gpr s r))
              (take (S j) (low_registers d))
    /\ (forall r, gpr s' r = gpr s r)
    /\ (forall k r, take j (low_registers d) !! k = Some r ->
          mem_load (mem s') (addr_up (gpr s (Rn d)) k) = Some (gpr s r))
    /\ (forall a, (forall k, (k < j)%nat -> a <> addr_up (gpr s (Rn d)) k) ->
          mem_load (mem s') a = mem_load (mem s) a).
Proof.
  intros Hbase Hne Hj Hram Hnone.
  pose proof (lookup_lt_Some _ _ _ Hj) as Hlt.
  pose proof (low_registers_length d) as Hlen.
  eexists. unfold stm. unfold bind at 1, cpu_get_gpr at 1. unfold bind at 1.
  rewrite (stm_loop_mem_fault d (seqZ 0 8) j i);
    [|done|lia|by rewrite length_seqZ|by right|exact Hj|exact Hram|exact Hnone].
  fold (low_registers d). split; [reflexivity|].
  cbn [record_access after_stores accesses gpr mem].
  split.
  { rewrite map_store_plan, (imap_take_S _ _ _ _ Hj). by rewrite <- app_assoc. }
  split; [reflexivity|]. split.
  - intros k r Hk. unfold mem_load. cbn [RAM].
    rewrite (write_words_lookup _ _ k (addr_up (gpr s (Rn d)) k) (gpr s r)); [done| |].
    + apply NoDup_stm_addresses. rewrite length_take_le; lia.
    + unfold store_plan. by rewrite list_lookup_imap, Hk.
  - intros a Ha. rewrite <- (memory_eta (mem s)) at 2. apply mem_load_same_ram.
    apply write_words_lookup_notin. intros Hin.
    apply store_plan_fst_lookup in Hin as (k & Hk & ->).
    rewrite length_take_le in Hk by lia. by apply (Ha k).
Qed.

Lemma stm_stops_at_first_word_outside_ram_witness :
  exists s',
    stm (Decoded 0 3 0 0 0x17) block_example_state = Fatal (MemoryFault 0x2000000C) s'
    /\ mem_load (mem s') 0x20000000 = Some 100
    /\ mem_load (mem s') 0x20000004 = Some 101
    /\ mem_load (mem s') 0x20000008 = Some 102
    /\ gpr s' 3 = 0x20000000.
Proof.
  destruct (stm_stops_at_first_word_outside_ram (Decoded 0 3 0 0 0x17) block_example_state 3 4)
    as (s' & Hrun & _ & Hregs & Hmem & _).
  - vm_compute. split; congruence.
  - vm_compute. congruence.
  - reflexivity.
  - intros k Hk. destruct k as [|[|[|k]]]; [vm_compute; eauto ..|lia].
  - reflexivity.
  - exists s'. split; [exact Hrun|].
    split; [exact (Hmem 0%nat 0 eq_refl)|].
    split; [exact (Hmem 1%nat 1 eq_refl)|].
    split; [exact (Hmem 2%nat 2 eq_refl)|exact (Hregs 3)].
Defined.

(** X10: when the [j]-th word [push] writes is the first outside RAM,
    [push] ends in a memory fault at SP - 4 * (j + 1) after j + 1 store
    calls.  The first j listed registers, highest first, are in memory
    already, every other address is as it was, and no register changed:
    SP is not updated. *)
Theorem push_stops_at_first_word_outside_ram
    (d : decode_result) (s : state) (j : nat) (i : Z) :
  0 <= gpr s GPR_SP < 2 ^ 32 ->
  transferred (register_list d) push_loop !! j = Some i ->
  (forall k, (k < j)%nat -> is_Some (RAM (mem s) !! addr_down (gpr s GPR_SP) (S k))) ->
  RAM (mem s) !! addr_down (gpr s GPR_SP) (S j) = None ->
  exists s',
    push d s = Fatal (MemoryFault (addr_down (gpr s GPR_SP) (S j))) s'
    /\ accesses s' = accesses s ++
         imap (fun k r => Store (addr_down (gpr s GPR_SP) (S k)) (gpr s r))
              (take (S j) (transferred (register_list d) push_loop))
    /\ (forall r, gpr s' r = gpr s r)
    /\ (forall k r, take j (transferred (register_list d) push_loop) !! k = Some r ->
          mem_load (mem s') (addr_down (gpr s GPR_SP) (S k)) = Some (gpr s r))
    /\ (forall a, (forall k, (k < j)%nat -> a <> addr_down (gpr s GPR_SP) (S k)) ->
          mem_load (mem s') a = mem_load (mem s) a).
Proof.
  intros Hsp Hj Hram Hnone.
  pose proof (lookup_lt_Some _ _ _ Hj) as Hlt.
  pose proof (push_loop_length_bound (register_list d)) as Hlen.
  eexists. unfold push. unfold bind at 1, cpu_get_sp, cpu_get_gpr at 1. unfold bind at 1.
  rewrite (push_loop_mem_fault d push_loop j i);
    [|done|lia|vm_compute; reflexivity|exact Hj|exact Hram|exact Hnone].
  split; [reflexivity|].
  cbn [record_access after_stores accesses gpr mem].
  split.
  { rewrite map_store_plan.
    rewrite (imap_take_S (fun k r => Store (addr_down (gpr s GPR_SP) (S k)) (gpr s r)) _ _ _ Hj).
    by rewrite <- app_assoc. }
  split; [reflexivity|]. split.
  - intros k r Hk. unfold mem_load. cbn [RAM].
    rewrite (write_words_lookup _ _ k (addr_down (gpr s GPR_SP) (S k)) (gpr s r)); [done| |].
    + apply NoDup_push_addresses. rewrite length_take_le; lia.
    + unfold store_plan. by rewrite list_lookup_imap, Hk.
  - intros a Ha. rewrite <- (memory_eta (mem s)) at 2. apply mem_load_same_ram.
    apply write_words_lookup_notin. intros Hin.
    apply store_plan_fst_lookup in Hin as (k & Hk & ->).
    rewrite length_take_le in Hk by lia. by apply (Ha k).
Qed.

Lemma push_stops_at_first_word_outside_ram_witness :
  exists s',
    push (Decoded 0 0 0 0 0x4003) shallow_stack_example_state
    = Fatal (MemoryFault 0x1FFFFFFC) s'
    /\ mem_load (mem s') 0x20000004 = Some 114
    /\ mem_load (mem s') 0x20000000 = Some 101
    /\ gpr s' GPR_SP = 0x20000008.
Proof.
  destruct (push_stops_at_first_word_outside_ram (Decoded 0 0 0 0 0x4003)
              shallow_stack_example_state 2 0)
    as (s' & Hrun & _ & Hregs & Hmem & _).
  - vm_compute. split; congruence.
  - reflexivity.
  - intros k Hk. destruct k as [|[|k]]; [vm_compute; eauto ..|lia].
  - reflexivity.
  - exists s'. split; [exact Hrun|].
    split; [exact (Hmem 0%nat 14 eq_refl)|].
    split; [exact (Hmem 1%nat 1 eq_refl)|exact (Hregs GPR_SP)].
Defined.

(** * Single loads and stores *)

(** ** Results *)

Ltac unfold_handler :=
  unfold execute, ldr_i, ldr_sp, ldr_lit, ldr_r, ldrb_i, ldrb_r, ldrh_i, ldrh_r,
    ldrsb_r, ldrsh_r, str_i, str_sp, str_r, strb_i, strb_r, strh_i, strh_r;
  unfold bind, cpu_get_gpr, cpu_get_sp, cpu_get_pc, cpu_get_gpr, cpu_set_gpr, ret.

Lemma word_load_result op d s w :
  word_load op = true ->
  mem_load (mem s) (effective_address op d s) = Some w ->
  execute op d s
  = Done TIMING_MEM
      (State (reg_update (gpr s) (Rd d) w) (BRANCH_WAS_TAKEN s) (mem s)
             (accesses s ++ [Load (effective_address op d s) 0])).
Proof.
  intros Hop Hw. destruct op; try discriminate; unfold effective_address in Hw;
    unfold_handler; unfold load; cbn [mem]; rewrite Hw; reflexivity.
Qed.

Lemma word_store_result op d s w :
  word_store op = true ->
  RAM (mem s) !! effective_address op d s = Some w ->
  execute op d s
  = Done TIMING_MEM
      (State (gpr s) (BRANCH_WAS_TAKEN s)
             (Memory (<[effective_address op d s := gpr s (Rd d)]> (RAM (mem s))) (ROM (mem s)))
             (accesses s ++ [Store (effective_address op d s) (gpr s (Rd d))])).
Proof.
  intros Hop Hw. destruct op; try discriminate; unfold effective_address in Hw;
    unfold_handler; unfold store, mem_store; cbn [mem gpr]; rewrite Hw; reflexivity.
Qed.

Lemma byte_load_result op d s w :
  byte_load op = true ->
  mem_load (mem s) (word_aligned (effective_address op d s)) = Some w ->
  execute op d s
  = Done TIMING_MEM
      (State (reg_update (gpr s) (Rd d)
                (zeroExtend32 (Z.land (select_byte (effective_address op d s) w) 0xFF)))
             (BRANCH_WAS_TAKEN s) (mem s)
             (accesses s ++ [Load (word_aligned (effective_address op d s)) 0])).
Proof.
  intros Hop Hw. destruct op; try discriminate; unfold effective_address in Hw;
    unfold_handler; unfold load; cbn [mem]; rewrite Hw; reflexivity.
Qed.

Lemma halfword_load_result op d s w :
  halfword_load op = true ->
  mem_load (mem s) (word_aligned (effective_address op d s)) = Some w ->
  execute op d s
  = Done TIMING_MEM
      (State (reg_update (gpr s) (Rd d)
                (zeroExtend32 (Z.land (select_halfword (effective_address op d s) w) 0xFFFF)))
             (BRANCH_WAS_TAKEN s) (mem s)
             (accesses s ++ [Load (word_aligned (effective_address op d s)) 0])).
Proof.
  intros Hop Hw. destruct op; try discriminate; unfold effective_address in Hw;
    unfold_handler; unfold load; cbn [mem]; rewrite Hw; reflexivity.
Qed.

Lemma byte_store_result op d s w :
  byte_store op = true ->
  RAM (mem s) !! word_aligned (effective_address op d s) = Some w ->
  execute op d s
  = Done TIMING_MEM
      (State (gpr s) (BRANCH_WAS_TAKEN s)
         (Memory (<[word_aligned (effective_address op d s)
                    := insert_byte (effective_address op d s) w (Z.land (gpr s (Rd d)) 0xFF)]>
                    (RAM (mem s))) (ROM (mem s)))
         (accesses s ++
            [Load (word_aligned (effective_address op d s)) 1;
             Store (word_aligned (effective_address op d s))
                   (insert_byte (effective_address op d s) w (Z.land (gpr s (Rd d)) 0xFF))])).
Proof.
  intros Hop Hw.
  assert (Hload : mem_load (mem s) (word_aligned (effective_address op d s)) = Some w)
    by (unfold mem_load; by rewrite Hw).
  destruct op; try discriminate; unfold effective_address in Hw, Hload;
    unfold_handler; unfold load, store, mem_store; cbn [mem gpr]; rewrite Hload;
    cbn [record_access mem gpr BRANCH_WAS_TAKEN accesses]; rewrite Hw;
    rewrite <- app_assoc; reflexivity.
Qed.

Lemma halfword_store_result op d s w :
  halfword_store op = true ->
  RAM (mem s) !! word_aligned (effective_address op d s) = Some w ->
  execute op d s
  = Done TIMING_MEM
      (State (gpr s) (BRANCH_WAS_TAKEN s)
         (Memory (<[word_aligned (effective_address op d s)
                    := insert_halfword (effective_address op d s) w (Z.land (gpr s (Rd d)) 0xFFFF)]>
                    (RAM (mem s))) (ROM (mem s)))
         (accesses s ++
            [Load (word_aligned (effective_address op d s)) 1;
             Store (word_aligned (effective_address op d s))
                   (insert_halfword (effective_address op d s) w (Z.land (gpr s (Rd d)) 0xFFFF))])).
Proof.
  intros Hop Hw.
  assert (Hload : mem_load (mem s) (word_aligned (effective_address op d s)) = Some w)
    by (unfold mem_load; by rewrite Hw).
  destruct op; try discriminate; unfold effective_address in Hw, Hload;
    unfold_handler; unfold load, store, mem_store; cbn [mem gpr]; rewrite Hload;
    cbn [record_access mem gpr BRANCH_WAS_TAKEN accesses]; rewrite Hw;
    rewrite <- app_assoc; reflexivity.
Qed.

Lemma effective_address_frame op d s s' :
  gpr s' = gpr s -> effective_address op d s' = effective_address op d s.
Proof. intros H. unfold effective_address. by rewrite H. Qed.

Lemma land_2_cases a : Z.land a 2 = 0 \/ Z.land a 2 = 2.
Proof.
  assert (H : Z.land a 2 = Z.land (Z.land a 3) 2).
  { rewrite <- Z.land_assoc. reflexivity. }
  rewrite H. destruct (land_3_cases a) as [->|[->|[->| ->]]]; simpl; auto.
Qed.

Lemma land_3_mod a : Z.land a 3 = a mod 4.
Proof. apply (Z.land_ones a 2). lia. Qed.

Lemma land_2_mod a : Z.land a 2 = 2 * (a mod 4 / 2).
Proof.
  assert (H : Z.land a 2 = Z.land (Z.land a 3) 2).
  { rewrite <- Z.land_assoc. reflexivity. }
  rewrite H, land_3_mod.
  pose proof (Z.mod_pos_bound a 4 eq_refl) as Hb.
  assert (Hc : a mod 4 = 0 \/ a mod 4 = 1 \/ a mod 4 = 2 \/ a mod 4 = 3) by lia.
  destruct Hc as [->|[->|[->| ->]]]; reflexivity.
Qed.

Ltac halfword_mask_forms :=
  change 0xFFFF with (Z.ones 16);
  change 0xFFFF0000 with (Z.shiftl (Z.ones 16) 16).

Lemma insert_select_halfword a w v :
  Z.land (select_halfword a (insert_halfword a w (Z.land v 0xFFFF))) 0xFFFF
  = Z.land v 0xFFFF.
Proof.
  unfold select_halfword, insert_halfword.
  destruct (land_2_cases a) as [H|H]; rewrite H; halfword_mask_forms; solve_bits.
Qed.

Lemma insert_halfword_other_lane a w v k :
  0 <= k < 2 -> 2 * k <> Z.land a 2 ->
  halfword_lane (insert_halfword a w (Z.land v 0xFFFF)) k = halfword_lane w k.
Proof.
  intros Hk Hne. unfold halfword_lane, insert_halfword.
  assert (Hk' : k = 0 \/ k = 1) by lia.
  destruct (land_2_cases a) as [H|H]; rewrite H in *; halfword_mask_forms;
  destruct Hk' as [->| ->]; try lia; solve_bits.
Qed.

Lemma select_byte_lane a w : Z.land (select_byte a w) 0xFF = byte_lane w (a mod 4).
Proof.
  unfold select_byte, byte_lane. rewrite <- land_3_mod.
  destruct (land_3_cases a) as [H|[H|[H|H]]]; rewrite H; reflexivity.
Qed.

Lemma select_halfword_lane a w :
  Z.land (select_halfword a w) 0xFFFF = halfword_lane w (a mod 4 / 2).
Proof.
  unfold select_halfword, halfword_lane.
  pose proof (land_2_mod a) as Hm.
  destruct (land_2_cases a) as [H|H]; rewrite H in *.
  - assert (a mod 4 / 2 = 0) as -> by lia. reflexivity.
  - assert (a mod 4 / 2 = 1) as -> by lia. reflexivity.
Qed.

Lemma byte_lane_range w k : 0 <= byte_lane w k < 2 ^ 8.
Proof.
  unfold byte_lane. change 0xFF with (Z.ones 8). rewrite Z.land_ones by lia.
  apply Z.mod_pos_bound. reflexivity.
Qed.

Lemma halfword_lane_range w k : 0 <= halfword_lane w k < 2 ^ 16.
Proof.
  unfold halfword_lane. change 0xFFFF with (Z.ones 16). rewrite Z.land_ones by lia.
  apply Z.mod_pos_bound. reflexivity.
Qed.

(** X11: a word store ([str_i], [str_sp], [str_r]) to a word of RAM,
    followed by a word load ([ldr_i], [ldr_sp], [ldr_lit], [ldr_r]) from
    the same effective address, loads the stored register value; both
    return TIMING_MEM, and every other address and every register but
    the load's destination keep their contents. *)
Theorem str_then_ldr_reads_back
    (sop lop : mem_op) (d1 d2 : decode_result) (s : state) (w : Z) :
  word_store sop = true ->
  word_load lop = true ->
  effective_address lop d2 s = effective_address sop d1 s ->
  RAM (mem s) !! effective_address sop d1 s = Some w ->
  exists s1 s2,
    execute sop d1 s = Done TIMING_MEM s1
    /\ execute lop d2 s1 = Done TIMING_MEM s2
    /\ gpr s2 (Rd d2) = gpr s (Rd d1)
    /\ (forall r, r <> Rd d2 -> gpr s2 r = gpr s r)
    /\ mem_load (mem s2) (effective_address sop d1 s) = Some (gpr s (Rd d1))
    /\ (forall a', a' <> effective_address sop d1 s ->
          mem_load (mem s2) a' = mem_load (mem s) a').
Proof.
  intros Hsop Hlop Hea Hw.
  pose proof (word_store_result sop d1 s w Hsop Hw) as Hstore.
  match type of Hstore with _ = Done _ ?x => set (s1 := x) in * end.
  assert (Hea1 : effective_address lop d2 s1 = effective_address sop d1 s)
    by (rewrite <- Hea; by apply effective_address_frame).
  assert (Hl : mem_load (mem s1) (effective_address lop d2 s1) = Some (gpr s (Rd d1))).
  { rewrite Hea1. unfold mem_load. cbn [s1 mem RAM]. by rewrite lookup_insert_eq. }
  pose proof (word_load_result lop d2 s1 _ Hlop Hl) as Hload.
  eexists _, _. split; [exact Hstore|]. split; [exact Hload|].
  cbn [gpr mem s1]. unfold reg_update.
  split; [by rewrite Z.eqb_refl|].
  split. { intros r Hr. by destruct (Z.eqb_spec r (Rd d2)). }
  split. { unfold mem_load. cbn [RAM]. by rewrite lookup_insert_eq. }
  { intros a' Ha'. unfold mem_load. cbn [RAM ROM]. by rewrite lookup_insert_ne. }
Qed.

Lemma str_then_ldr_reads_back_witness :
  exists s1 s2,
    str_i (Decoded 1 3 0 1 0) block_example_state = Done TIMING_MEM s1
    /\ ldr_i (Decoded 5 3 0 1 0) s1 = Done TIMING_MEM s2
    /\ gpr s2 5 = 101
    /\ mem_load (mem s2) 0x20000004 = Some 101.
Proof.
  destruct (str_then_ldr_reads_back STR_I LDR_I (Decoded 1 3 0 1 0) (Decoded 5 3 0 1 0)
              block_example_state 0 eq_refl eq_refl eq_refl eq_refl)
    as (s1 & s2 & H1 & H2 & H3 & _ & H4 & _).
  exists s1, s2. split; [exact H1|]. split; [exact H2|]. split; [exact H3|exact H4].
Defined.

(** X12: a halfword store ([strh_i], [strh_r]) into a word of RAM,
    followed by a halfword load ([ldrh_i], [ldrh_r]) from the same
    effective address, loads the low 16 bits of the stored register; the
    other halfword of the word and every other address keep their
    contents. *)
Theorem strh_then_ldrh_reads_back
    (sop lop : mem_op) (d1 d2 : decode_result) (s : state) (w : Z) :
  halfword_store sop = true ->
  halfword_load lop = true ->
  effective_address lop d2 s = effective_address sop d1 s ->
  RAM (mem s) !! word_aligned (effective_address sop d1 s) = Some w ->
  exists s1 s2 w',
    execute sop d1 s = Done TIMING_MEM s1
    /\ execute lop d2 s1 = Done TIMING_MEM s2
    /\ gpr s2 (Rd d2) = Z.land (gpr s (Rd d1)) 0xFFFF
    /\ mem_load (mem s2) (word_aligned (effective_address sop d1 s)) = Some w'
    /\ (forall k, 0 <= k < 2 -> 2 * k <> Z.land (effective_address sop d1 s) 2 ->
          halfword_lane w' k = halfword_lane w k)
    /\ (forall a', a' <> word_aligned (effective_address sop d1 s) ->
          mem_load (mem s2) a' = mem_load (mem s) a').
Proof.
  intros Hsop Hlop Hea Hw.
  pose proof (halfword_store_result sop d1 s w Hsop Hw) as Hstore.
  set (a := effective_address sop d1 s) in *.
  set (w' := insert_halfword a w (Z.land (gpr s (Rd d1)) 0xFFFF)) in *.
  match type of Hstore with _ = Done _ ?x => set (s1 := x) in * end.
  assert (Hea1 : effective_address lop d2 s1 = a)
    by (rewrite <- Hea; by apply effective_address_frame).
  assert (Hl : mem_load (mem s1) (word_aligned (effective_address lop d2 s1)) = Some w').
  { rewrite Hea1. unfold mem_load. cbn [s1 mem RAM]. by rewrite lookup_insert_eq. }
  pose proof (halfword_load_result lop d2 s1 _ Hlop Hl) as Hload.
  rewrite Hea1 in Hload.
  eexists _, _, w'. split; [exact Hstore|]. split; [exact Hload|].
  cbn [gpr mem s1]. unfold reg_update.
  split.
  { rewrite Z.eqb_refl. unfold zeroExtend32. subst w'. rewrite insert_select_halfword.
    apply wrap32_small. change 0xFFFF with (Z.ones 16). rewrite Z.land_ones by lia.
    pose proof (Z.mod_pos_bound (gpr s (Rd d1)) (2 ^ 16) eq_refl). lia. }
  split. { unfold mem_load. cbn [RAM]. by rewrite lookup_insert_eq. }
  split. { intros k Hk Hne. by apply insert_halfword_other_lane. }
  { intros a' Ha'. unfold mem_load. cbn [RAM ROM]. by rewrite lookup_insert_ne. }
Qed.

Lemma strh_then_ldrh_reads_back_witness :
  exists s1 s2 w',
    strh_i (Decoded 1 3 0 1 0) block_example_state = Done TIMING_MEM s1
    /\ ldrh_i (Decoded 5 3 0 1 0) s1 = Done TIMING_MEM s2
    /\ gpr s2 5 = 101
    /\ mem_load (mem s2) 0x20000000 = Some w'
    /\ halfword_lane w' 0 = 0xBEEF.
Proof.
  destruct (strh_then_ldrh_reads_back STRH_I LDRH_I (Decoded 1 3 0 1 0) (Decoded 5 3 0 1 0)
              block_example_state 0xDEADBEEF eq_refl eq_refl eq_refl eq_refl)
    as (s1 & s2 & w' & H1 & H2 & H3 & H4 & H5 & _).
  exists s1, s2, w'. split; [exact H1|]. split; [exact H2|]. split; [exact H3|].
  split; [exact H4|]. apply (H5 0); [lia|discriminate].
Defined.

(** X13: [ldrb_i] and [ldrb_r] load byte (address mod 4) of the containing
    word, and [ldrh_i] and [ldrh_r] load halfword ((address mod 4) / 2)
    of it, counted from the least significant end and zero-extended: an
    odd halfword address reads the halfword it lies in.  Only the
    destination register changes. *)
Theorem sub_word_loads_select_little_endian_lane
    (op : mem_op) (d : decode_result) (s : state) (w : Z) :
  byte_load op || halfword_load op = true ->
  mem_load (mem s) (word_aligned (effective_address op d s)) = Some w ->
  exists s',
    execute op d s = Done TIMING_MEM s'
    /\ gpr s' (Rd d)
       = (if byte_load op
          then byte_lane w (effective_address op d s mod 4)
          else halfword_lane w (effective_address op d s mod 4 / 2))
    /\ (forall r, r <> Rd d -> gpr s' r = gpr s r)
    /\ mem s' = mem s.
Proof.
  intros Hop Hw. destruct (byte_load op) eqn:Hb.
  - rewrite (byte_load_result op d s w Hb Hw). eexists. split; [reflexivity|].
    cbn [gpr mem]. unfold reg_update. split.
    + rewrite Z.eqb_refl, select_byte_lane. unfold zeroExtend32. apply wrap32_small.
      pose proof (byte_lane_range w (effective_address op d s mod 4)). lia.
    + split; [|reflexivity]. intros r Hr. by destruct (Z.eqb_spec r (Rd d)).
  - simpl in Hop. rewrite (halfword_load_result op d s w Hop Hw). eexists. split; [reflexivity|].
    cbn [gpr mem]. unfold reg_update. split.
    + rewrite Z.eqb_refl, select_halfword_lane. unfold zeroExtend32. apply wrap32_small.
      pose proof (halfword_lane_range w (effective_address op d s mod 4 / 2)). lia.
    + split; [|reflexivity]. intros r Hr. by destruct (Z.eqb_spec r (Rd d)).
Qed.

Lemma sub_word_loads_select_little_endian_lane_witness :
  exists s',
    ldrh_i (Decoded 2 0 0 1 0) byte_example_state = Done TIMING_MEM s'
    /\ effective_address LDRH_I (Decoded 2 0 0 1 0) byte_example_state = 0x20000003
    /\ gpr s' 2 = 0xDEAD.
Proof.
  destruct (sub_word_loads_select_little_endian_lane LDRH_I (Decoded 2 0 0 1 0)
              byte_example_state 0xDEADBEEF eq_refl eq_refl)
    as (s' & H1 & H2 & _).
  exists s'. split; [exact H1|]. split; [reflexivity|exact H2].
Defined.

Lemma effective_address_range op d s : 0 <= effective_address op d s < 2 ^ 32.
Proof. destruct op; apply wrap32_range. Qed.

Lemma word_aligned_floor x : 0 <= x < 2 ^ 32 -> word_aligned x = 4 * (x / 4).
Proof.
  intros Hx. unfold word_aligned.
  change 4 with (2 ^ 2). rewrite Z.mul_comm, <- Z.shiftr_div_pow2, <- Z.shiftl_mul_pow2 by lia.
  rewrite <- (Z.mod_small x (2 ^ 32)) by lia. rewrite <- Z.land_ones by lia.
  change (wrap32 (Z.lnot 3)) with (Z.shiftl (Z.ones 30) 2).
  apply Z.bits_inj'; intros n Hn. destruct (Z.ltb_spec n 2).
  - rewrite Z.shiftl_spec_low by lia.
    rewrite !Z.land_spec, (Z.shiftl_spec_low (Z.ones 30)) by lia.
    apply andb_false_r.
  - rewrite (Z.shiftl_spec (Z.shiftr _ _)), Z.shiftr_spec by lia.
    rewrite !Z.land_spec, Z.shiftl_spec, !Z.testbit_ones by lia.
    replace (n - 2 + 2) with n by lia.
    bit_cases; simpl; rewrite ?andb_true_r, ?andb_false_r; reflexivity.
Qed.

Lemma same_word a k :
  0 <= a < 2 ^ 32 -> a mod 4 = 0 -> 0 <= k < 4 ->
  0 <= a + k < 2 ^ 32 /\ word_aligned (a + k) = a /\ Z.land (a + k) 3 = k.
Proof.
  intros Ha Hal Hk.
  assert (Hdiv : a = 4 * (a / 4)) by (pose proof (Z.div_mod a 4); lia).
  assert (Hlt : a / 4 < 2 ^ 30) by (apply Z.div_lt_upper_bound; lia).
  assert (Hr : 0 <= a + k < 2 ^ 32) by lia.
  split; [exact Hr|]. split.
  - rewrite word_aligned_floor by exact Hr.
    assert ((a + k) / 4 = a / 4) as ->.
    { rewrite Hdiv at 1. rewrite Z.mul_comm, Z.div_add_l by lia.
      rewrite (Z.div_small k 4) by lia. lia. }
    lia.
  - rewrite land_3_mod. rewrite Hdiv, Z.add_comm, (Z.mul_comm 4), Z.mod_add by lia.
    apply Z.mod_small. lia.
Qed.

Lemma byte_store_step op d s a w :
  byte_store op = true ->
  word_aligned (effective_address op d s) = a ->
  RAM (mem s) !! a = Some w ->
  exists s',
    execute op d s = Done TIMING_MEM s'
    /\ gpr s' = gpr s
    /\ RAM (mem s')
       = <[a := insert_byte (effective_address op d s) w (Z.land (gpr s (Rd d)) 0xFF)]>
           (RAM (mem s))
    /\ ROM (mem s') = ROM (mem s).
Proof.
  intros Hop <- Hw. rewrite (byte_store_result op d s w Hop Hw).
  eexists. split; [reflexivity|]. done.
Qed.

Lemma four_bytes_compose e0 e1 e2 e3 w v0 v1 v2 v3 :
  Z.land e0 3 = 0 -> Z.land e1 3 = 1 -> Z.land e2 3 = 2 -> Z.land e3 3 = 3 ->
  insert_byte e3
    (insert_byte e2
       (insert_byte e1 (insert_byte e0 w (Z.land v0 0xFF)) (Z.land v1 0xFF))
       (Z.land v2 0xFF))
    (Z.land v3 0xFF)
  = Z.lor (Z.lor (Z.lor (Z.land v0 0xFF) (Z.shiftl (Z.land v1 0xFF) 8))
                 (Z.shiftl (Z.land v2 0xFF) 16))
          (Z.shiftl (Z.land v3 0xFF) 24).
Proof.
  intros H0 H1 H2 H3. unfold insert_byte. rewrite H0, H1, H2, H3.
  mask_forms. solve_bits.
Qed.

(** X14: four byte stores ([strb_i] or [strb_r]) to the addresses a, a + 1,
    a + 2, a + 3 of a word of RAM, a word-aligned, followed by a word
    load from a, load the four low bytes of the stored registers put
    together least significant byte first. *)
Theorem four_strb_then_ldr_little_endian
    (sop lop : mem_op) (d0 d1 d2 d3 d : decode_result) (s : state) (a w : Z) :
  byte_store sop = true ->
  word_load lop = true ->
  a mod 4 = 0 ->
  effective_address sop d0 s = a ->
  effective_address sop d1 s = a + 1 ->
  effective_address sop d2 s = a + 2 ->
  effective_address sop d3 s = a + 3 ->
  effective_address lop d s = a ->
  RAM (mem s) !! a = Some w ->
  exists s1 s2 s3 s4 s5,
    execute sop d0 s = Done TIMING_MEM s1
    /\ execute sop d1 s1 = Done TIMING_MEM s2
    /\ execute sop d2 s2 = Done TIMING_MEM s3
    /\ execute sop d3 s3 = Done TIMING_MEM s4
    /\ execute lop d s4 = Done TIMING_MEM s5
    /\ gpr s5 (Rd d)
       = Z.lor (Z.lor (Z.lor (Z.land (gpr s (Rd d0)) 0xFF)
                             (Z.shiftl (Z.land (gpr s (Rd d1)) 0xFF) 8))
                      (Z.shiftl (Z.land (gpr s (Rd d2)) 0xFF) 16))
               (Z.shiftl (Z.land (gpr s (Rd d3)) 0xFF) 24).
Proof.
  intros Hsop Hlop Hal He0 He1 He2 He3 Hel Hw.
  assert (Ha : 0 <= a < 2 ^ 32) by (rewrite <- He0; apply effective_address_range).
  destruct (same_word a 0 Ha Hal ltac:(lia)) as (_ & Hw0 & Hl0).
  destruct (same_word a 1 Ha Hal ltac:(lia)) as (_ & Hw1 & Hl1).
  destruct (same_word a 2 Ha Hal ltac:(lia)) as (_ & Hw2 & Hl2).
  destruct (same_word a 3 Ha Hal ltac:(lia)) as (_ & Hw3 & Hl3).
  rewrite Z.add_0_r in Hw0, Hl0.
  set (w1 := insert_byte a w (Z.land (gpr s (Rd d0)) 0xFF)).
  set (w2 := insert_byte (a + 1) w1 (Z.land (gpr s (Rd d1)) 0xFF)).
  set (w3 := insert_byte (a + 2) w2 (Z.land (gpr s (Rd d2)) 0xFF)).
  set (w4 := insert_byte (a + 3) w3 (Z.land (gpr s (Rd d3)) 0xFF)).
  destruct (byte_store_step sop d0 s a w Hsop) as (s1 & Hr1 & Hg1 & Hm1 & _);
    [by rewrite He0|done|].
  rewrite He0 in Hm1. fold w1 in Hm1.
  destruct (byte_store_step sop d1 s1 a w1 Hsop) as (s2 & Hr2 & Hg2 & Hm2 & _);
    [by rewrite (effective_address_frame _ _ s), He1|by rewrite Hm1, lookup_insert_eq|].
  rewrite (effective_address_frame _ _ s), He1, Hg1 in Hm2 by done. fold w2 in Hm2.
  assert (Hg2' : gpr s2 = gpr s) by congruence.
  destruct (byte_store_step sop d2 s2 a w2 Hsop) as (s3 & Hr3 & Hg3 & Hm3 & _);
    [by rewrite (effective_address_frame _ _ s), He2|by rewrite Hm2, lookup_insert_eq|].
  rewrite (effective_address_frame _ _ s), He2, Hg2' in Hm3 by done. fold w3 in Hm3.
  assert (Hg3' : gpr s3 = gpr s) by congruence.
  destruct (byte_store_step sop d3 s3 a w3 Hsop) as (s4 & Hr4 & Hg4 & Hm4 & _);
    [by rewrite (effective_address_frame _ _ s), He3|by rewrite Hm3, lookup_insert_eq|].
  rewrite (effective_address_frame _ _ s), He3, Hg3' in Hm4 by done. fold w4 in Hm4.
  assert (Hg4' : gpr s4 = gpr s) by congruence.
  assert (Hl : mem_load (mem s4) (effective_address lop d s4) = Some w4).
  { rewrite (effective_address_frame lop d s s4 Hg4'), Hel. unfold mem_load.
    by rewrite Hm4, lookup_insert_eq. }
  pose proof (word_load_result lop d s4 _ Hlop Hl) as Hr5.
  eexists s1, s2, s3, s4, _.
  split; [exact Hr1|]. split; [exact Hr2|]. split; [exact Hr3|]. split; [exact Hr4|].
  split; [exact Hr5|].
  cbn [gpr]. unfold reg_update. rewrite Z.eqb_refl.
  subst w4 w3 w2 w1. by apply four_bytes_compose.
Qed.

Lemma four_strb_then_ldr_little_endian_witness :
  exists s1 s2 s3 s4 s5,
    strb_i (Decoded 1 0 0 0 0) four_bytes_example_state = Done TIMING_MEM s1
    /\ strb_i (Decoded 2 0 0 1 0) s1 = Done TIMING_MEM s2
    /\ strb_i (Decoded 3 0 0 2 0) s2 = Done TIMING_MEM s3
    /\ strb_i (Decoded 4 0 0 3 0) s3 = Done TIMING_MEM s4
    /\ ldr_i (Decoded 5 0 0 0 0) s4 = Done TIMING_MEM s5
    /\ gpr s5 5 = 0xDEADBEEF.
Proof.
  destruct (four_strb_then_ldr_little_endian STRB_I LDR_I
              (Decoded 1 0 0 0 0) (Decoded 2 0 0 1 0) (Decoded 3 0 0 2 0) (Decoded 4 0 0 3 0)
              (Decoded 5 0 0 0 0) four_bytes_example_state 0x20000000 0
              eq_refl eq_refl eq_refl eq_refl eq_refl eq_refl eq_refl eq_refl eq_refl)
    as (s1 & s2 & s3 & s4 & s5 & H1 & H2 & H3 & H4 & H5 & H6).
  exists s1, s2, s3, s4, s5.
  split; [exact H1|]. split; [exact H2|]. split; [exact H3|]. split; [exact H4|].
  split; [exact H5|exact H6].
Defined.

(** ** What they leave alone, faults and calls *)

Lemma mem_store_Some m a v m' :
  mem_store m a v = Some m' ->
  m' = Memory (<[a := v]> (RAM m)) (ROM m) /\ is_Some (RAM m !! a).
Proof.
  unfold mem_store. destruct (RAM m !! a) as [w|] eqn:Hw; [|discriminate].
  intros [= <-]. eauto.
Qed.

Lemma dom_insert_present (ram : gmap Z Z) a v :
  is_Some (ram !! a) -> dom (<[a := v]> ram) = dom ram.
Proof.
  intros H. rewrite dom_insert_L. apply elem_of_dom in H.
  apply subseteq_union_1_L, singleton_subseteq_l, H.
Qed.

Ltac split_access :=
  repeat match goal with
  | H : context [match mem_load ?m ?a with _ => _ end] |- _ =>
      destruct (mem_load m a) eqn:?; cbn [record_access mem gpr BRANCH_WAS_TAKEN accesses] in H
  | H : context [match mem_store ?m ?a ?v with _ => _ end] |- _ =>
      let E := fresh "Hst" in
      destruct (mem_store m a v) eqn:E;
      [apply mem_store_Some in E as [-> ?]|];
      cbn [record_access mem gpr BRANCH_WAS_TAKEN accesses] in H
  end.

(** X15: a load or store handler that returns, returns TIMING_MEM and
    leaves the branch flag, ROM and the set of RAM addresses as they
    were.  A load changes no memory and no register but Rd; a store
    changes no register and no word but the one it targets. *)
Theorem single_access_frame (op : mem_op) (d : decode_result) (s s' : state) (c : Z) :
  execute op d s = Done c s' ->
  c = TIMING_MEM
  /\ BRANCH_WAS_TAKEN s' = BRANCH_WAS_TAKEN s
  /\ ROM (mem s') = ROM (mem s)
  /\ dom (RAM (mem s')) = dom (RAM (mem s))
  /\ (if is_load op
      then mem s' = mem s /\ (forall r, r <> Rd d -> gpr s' r = gpr s r)
      else (forall r, gpr s' r = gpr s r)
           /\ (forall a, a <> access_target op d s ->
                 mem_load (mem s') a = mem_load (mem s) a)).
Proof.
  intros H.
  destruct op; unfold access_target, effective_address, sub_word, is_load;
    revert H; unfold_handler; unfold load, store; intros H;
    cbn [record_access mem gpr BRANCH_WAS_TAKEN accesses] in H; split_access;
    try discriminate; injection H as <- <-;
    cbn [gpr mem BRANCH_WAS_TAKEN RAM ROM];
    (split; [reflexivity|]); (split; [reflexivity|]); (split; [reflexivity|]);
    (split; [first [reflexivity | by apply dom_insert_present]|]);
    (split;
      [first [reflexivity | intros r; reflexivity]
      |first [ intros r Hr; unfold reg_update; by destruct (Z.eqb_spec r (Rd d))
             | intros a Ha; unfold mem_load; cbn [RAM ROM]; by rewrite lookup_insert_ne ]]).
Qed.

Lemma single_access_frame_witness :
  exists s',
    strb_i (Decoded 1 3 0 5 0) block_example_state = Done TIMING_MEM s'
    /\ gpr s' 1 = 101
    /\ mem_load (mem s') 0x20000000 = Some 0xDEADBEEF
    /\ BRANCH_WAS_TAKEN s' = false.
Proof.
  destruct (strb_i (Decoded 1 3 0 5 0) block_example_state) as [c s'|f s'] eqn:Hrun;
    [|vm_compute in Hrun; discriminate].
  destruct (single_access_frame STRB_I (Decoded 1 3 0 5 0) block_example_state s' c Hrun)
    as (-> & Hbt & _ & _ & Hregs & Hmem).
  exists s'. split; [reflexivity|]. split; [exact (Hregs 1)|].
  split; [|exact Hbt]. apply (Hmem 0x20000000). vm_compute. congruence.
Defined.

(** X16: each of the seventeen load and store handlers returns TIMING_MEM
    exactly when its target can be accessed (a mapped word for a load, a
    word of RAM for a store, also for the read of a sub-word store);
    otherwise it ends in a memory fault at that target with registers,
    memory and the branch flag unchanged. *)
Theorem single_access_faults_iff_inaccessible (op : mem_op) (d : decode_result) (s : state) :
  if accessible op d s
  then exists s', execute op d s = Done TIMING_MEM s'
  else exists s',
         execute op d s = Fatal (MemoryFault (access_target op d s)) s'
         /\ gpr s' = gpr s /\ mem s' = mem s
         /\ BRANCH_WAS_TAKEN s' = BRANCH_WAS_TAKEN s.
Proof.
  unfold accessible.
  destruct op; unfold access_target, effective_address, sub_word, is_load;
    unfold_handler; unfold load, store, mem_store, mem_load;
    cbn [record_access mem gpr BRANCH_WAS_TAKEN accesses];
    match goal with
    | |- context [RAM (mem s) !! ?a] =>
        destruct (RAM (mem s) !! a) as [w|] eqn:Hram;
        [|destruct (ROM (mem s) !! a) as [w|] eqn:Hrom]
    end;
    cbn [record_access mem gpr BRANCH_WAS_TAKEN accesses];
    rewrite ?Hram, ?Hrom;
    first [ rewrite bool_decide_eq_true_2 by eauto
          | rewrite bool_decide_eq_false_2 by (by intros [? ?]) ];
    eexists; first [reflexivity | (split; [reflexivity|]); done].
Qed.


(** ** Signed loads *)

(** On a [bits]-wide value, [signExtend32] adds the ones above the sign
    bit. *)
Lemma signExtend32_value x bits :
  0 < bits <= 32 -> 0 <= x < 2 ^ bits ->
  signExtend32 x bits = if x <? 2 ^ (bits - 1) then x else x + (2 ^ 32 - 2 ^ bits).
Proof.
  intros Hbits Hx.
  assert (Hpow : 2 ^ bits = 2 * 2 ^ (bits - 1)).
  { rewrite <- Z.pow_succ_r by lia. f_equal. lia. }
  assert (Hle : 2 ^ bits <= 2 ^ 32) by (apply Z.pow_le_mono_r; lia).
  assert (Hbit : Z.testbit x (bits - 1) = negb (x <? 2 ^ (bits - 1))).
  { assert (Hspec := Z.testbit_spec' x (bits - 1) ltac:(lia)).
    destruct (Z.ltb_spec x (2 ^ (bits - 1))) as [Hlt|Hge]; simpl.
    - rewrite Z.div_small, Z.mod_0_l in Hspec by lia.
      by destruct (Z.testbit x (bits - 1)).
    - assert (x / 2 ^ (bits - 1) = 1) as Hq.
      { symmetry. apply (Z.div_unique _ _ 1 (x - 2 ^ (bits - 1))); lia. }
      rewrite Hq in Hspec. by destruct (Z.testbit x (bits - 1)). }
  unfold signExtend32. rewrite Hbit.
  destruct (Z.ltb_spec x (2 ^ (bits - 1))) as [Hlt|Hge]; simpl.
  - apply wrap32_small. lia.
  - assert (Hland : Z.land x (Z.shiftl (-1) bits) = 0).
    { apply Z.bits_inj'. intros n Hn. rewrite Z.land_spec, Z.bits_0.
      destruct (Z.ltb_spec n bits).
      - rewrite Z.shiftl_spec_low by lia. apply andb_false_r.
      - rewrite <- (Z.mod_small x (2 ^ bits)) by lia.
        by rewrite Z.mod_pow2_bits_high by lia. }
    assert (Hlor : Z.lor x (Z.shiftl (-1) bits) = x - 2 ^ bits).
    { pose proof (Z.add_lor_land x (Z.shiftl (-1) bits)) as Hadd.
      rewrite Hland, Z.shiftl_mul_pow2 in Hadd by lia. rewrite Z.shiftl_mul_pow2 by lia. lia. }
    rewrite Hlor. unfold wrap32. symmetry.
    apply (Z.mod_unique_pos _ _ (-1)); lia.
Qed.

Lemma signed_byte_load_result d s w :
  mem_load (mem s) (word_aligned (effective_address LDRSB_R d s)) = Some w ->
  ldrsb_r d s
  = Done TIMING_MEM
      (State (reg_update (gpr s) (Rd d)
                (signExtend32 (Z.land (select_byte (effective_address LDRSB_R d s) w) 0xFF) 8))
             (BRANCH_WAS_TAKEN s) (mem s)
             (accesses s ++ [Load (word_aligned (effective_address LDRSB_R d s)) 0])).
Proof.
  intros Hw. unfold effective_address in *.
  unfold ldrsb_r, bind, cpu_get_gpr, cpu_set_gpr, ret, load. cbn [mem]. by rewrite Hw.
Qed.

Lemma signed_halfword_load_result d s w :
  mem_load (mem s) (word_aligned (effective_address LDRSH_R d s)) = Some w ->
  ldrsh_r d s
  = Done TIMING_MEM
      (State (reg_update (gpr s) (Rd d)
                (signExtend32
                   (Z.land (select_halfword (effective_address LDRSH_R d s) w) 0xFFFF) 16))
             (BRANCH_WAS_TAKEN s) (mem s)
             (accesses s ++ [Load (word_aligned (effective_address LDRSH_R d s)) 0])).
Proof.
  intros Hw. unfold effective_address in *.
  unfold ldrsh_r, bind, cpu_get_gpr, cpu_set_gpr, ret, load. cbn [mem]. by rewrite Hw.
Qed.

(** X18: [ldrsb_r] loads byte (address mod 4) and [ldrsh_r] halfword
    ((address mod 4) / 2) of the containing word, counted from the least
    significant end, and fills the bits above with the loaded value's
    top bit: a byte b >= 0x80 arrives as 0xFFFFFF00 + b, a halfword
    h >= 0x8000 as 0xFFFF0000 + h.  Only the destination register
    changes. *)
Theorem signed_loads_sign_extend_selected_lane (d : decode_result) (s : state) (w : Z) :
  mem_load (mem s) (word_aligned (add32 (gpr s (Rn d)) (gpr s (Rm d)))) = Some w ->
  (exists s',
     ldrsb_r d s = Done TIMING_MEM s'
     /\ gpr s' (Rd d)
        = (if byte_lane w (add32 (gpr s (Rn d)) (gpr s (Rm d)) mod 4) <? 0x80
           then byte_lane w (add32 (gpr s (Rn d)) (gpr s (Rm d)) mod 4)
           else 0xFFFFFF00 + byte_lane w (add32 (gpr s (Rn d)) (gpr s (Rm d)) mod 4))
     /\ (forall r, r <> Rd d -> gpr s' r = gpr s r)
     /\ mem s' = mem s)
  /\ (exists s',
        ldrsh_r d s = Done TIMING_MEM s'
        /\ gpr s' (Rd d)
           = (if halfword_lane w (add32 (gpr s (Rn d)) (gpr s (Rm d)) mod 4 / 2) <? 0x8000
              then halfword_lane w (add32 (gpr s (Rn d)) (gpr s (Rm d)) mod 4 / 2)
              else 0xFFFF0000 + halfword_lane w (add32 (gpr s (Rn d)) (gpr s (Rm d)) mod 4 / 2))
        /\ (forall r, r <> Rd d -> gpr s' r = gpr s r)
        /\ mem s' = mem s).
Proof.
  intros Hw. split.
  - rewrite (signed_byte_load_result d s w Hw). eexists. split; [reflexivity|].
    cbn [gpr mem]. unfold reg_update. split.
    + rewrite Z.eqb_refl, select_byte_lane. cbn [effective_address].
      pose proof (byte_lane_range w (add32 (gpr s (Rn d)) (gpr s (Rm d)) mod 4)).
      rewrite signExtend32_value by (simpl; lia).
      change (2 ^ (8 - 1)) with 0x80. change (2 ^ 32 - 2 ^ 8) with 0xFFFFFF00.
      destruct (_ <? 0x80); lia.
    + split; [|reflexivity]. intros r Hr. by destruct (Z.eqb_spec r (Rd d)).
  - rewrite (signed_halfword_load_result d s w Hw). eexists. split; [reflexivity|].
    cbn [gpr mem]. unfold reg_update. split.
    + rewrite Z.eqb_refl, select_halfword_lane. cbn [effective_address].
      pose proof (halfword_lane_range w (add32 (gpr s (Rn d)) (gpr s (Rm d)) mod 4 / 2)).
      rewrite signExtend32_value by (simpl; lia).
      change (2 ^ (16 - 1)) with 0x8000. change (2 ^ 32 - 2 ^ 16) with 0xFFFF0000.
      destruct (_ <? 0x8000); lia.
    + split; [|reflexivity]. intros r Hr. by destruct (Z.eqb_spec r (Rd d)).
Qed.

Lemma signed_loads_sign_extend_selected_lane_witness :
  (exists s', ldrsb_r (Decoded 2 0 3 0 0) byte_example_state = Done TIMING_MEM s'
              /\ gpr s' 2 = 0xFFFFFFBE)
  /\ (exists s', ldrsh_r (Decoded 2 0 3 0 0) byte_example_state = Done TIMING_MEM s'
                 /\ gpr s' 2 = 0xFFFFBEEF).
Proof.
  destruct (signed_loads_sign_extend_selected_lane (Decoded 2 0 3 0 0) byte_example_state
              0xDEADBEEF eq_refl)
    as ((s1 & Hb & Hvb & _) & (s2 & Hh & Hvh & _)).
  split; [exists s1|exists s2]; (split; [done|]); [exact Hvb|exact Hvh].
Defined.

(** * The ODAB scheme: records and accounting *)

Lemma removelast_snoc {A} (l : list A) x : removelast (l ++ [x]) = l.
Proof. apply removelast_last. Qed.

Section odab_records.

Context {capacitor : Type}.
Variable consume_energy : capacitor -> float -> capacitor.

Lemma step_records e (c : on_demand_all_backup capacitor * stats_bundle) :
  models c.2 <> [] ->
  exists c',
    step consume_energy e c = Some c'
    /\ models c'.2 <> []
    /\ length (models c'.2)
       = (length (models c.2) + count_restores [e])%nat
    /\ removelast (models c.2) `prefix_of` removelast (models c'.2)
    /\ map instruction_energy (models c'.2)
       = map instruction_energy (models c.2) ++ replicate (count_restores [e]) 0%float.
Proof.
  destruct c as [this [cpu0 ms]]. cbn [fst snd models]. intros Hne.
  destruct e as [k| |]; cbn [step count_restores].
  - eexists. split; [reflexivity|]. cbn [snd models replicate].
    rewrite Nat.add_0_r, app_nil_r. done.
  - destruct (nonempty_snoc _ Hne) as (ms' & m & ->).
    rewrite backup_snoc. eexists. split; [reflexivity|]. cbn [snd models replicate].
    rewrite !removelast_snoc, !length_app, !map_app, app_nil_r. cbn.
    split; [by destruct ms'|]. split; [lia|]. done.
  - unfold restore. cbn [models ehsim.cpu]. eexists. split; [reflexivity|].
    cbn [snd models replicate]. rewrite removelast_snoc, length_app, map_app. cbn.
    split; [by destruct ms|]. split; [lia|]. split; [|done].
    destruct (nonempty_snoc _ Hne) as (ms' & m & ->). rewrite removelast_snoc.
    by apply prefix_app_r.
Qed.

Lemma count_restores_cons e es :
  count_restores (e :: es) = (count_restores [e] + count_restores es)%nat.
Proof. by destruct e. Qed.

End odab_records.

(** X19: while the statistics hold an open record, every driver run
    succeeds and keeps one; the number of records grows by the number of
    restores in the run, the closed records are never touched again, and
    neither a backup nor a restore adds to an instruction energy (a
    restore's new record starts at zero). *)
Theorem run_opens_one_record_per_restore
    (capacitor : Type) (consume_energy : capacitor -> float -> capacitor)
    (es : list event) (c : on_demand_all_backup capacitor * stats_bundle) :
  models c.2 <> [] ->
  exists c',
    run consume_energy es c = Some c'
    /\ length (models c'.2) = (length (models c.2) + count_restores es)%nat
    /\ removelast (models c.2) `prefix_of` removelast (models c'.2)
    /\ map instruction_energy (models c'.2)
       = map instruction_energy (models c.2) ++ replicate (count_restores es) 0%float.
Proof.
  revert c. induction es as [|e es IH]; intros c Hne.
  - exists c. cbn. rewrite Nat.add_0_r, app_nil_r. done.
  - destruct (step_records consume_energy e c Hne) as (c1 & Hstep & Hne1 & Hlen1 & Hpre1 & Hen1).
    destruct (IH c1 Hne1) as (c' & Hrun & Hlen & Hpre & Hen).
    exists c'. cbn [run]. rewrite Hstep. split; [exact Hrun|].
    rewrite count_restores_cons. split; [lia|]. split; [by etrans|].
    rewrite Hen, Hen1, <- app_assoc. f_equal. by rewrite replicate_add.
Qed.

Lemma run_opens_one_record_per_restore_witness :
  exists c',
    run drain two_period_run (power_on 2%float) = Some c'
    /\ length (models c'.2) = 2%nat.
Proof.
  destruct (run_opens_one_record_per_restore stored_energy_capacitor drain two_period_run
              (power_on 2%float))
    as (c' & Hrun & Hlen & _).
  - discriminate.
  - exists c'. split; [exact Hrun|exact Hlen].
Defined.

Lemma recorded_intervals_snoc cpu0 ms m :
  recorded_intervals (StatsBundle cpu0 (ms ++ [m]))
  = recorded_intervals (StatsBundle cpu0 ms) ++ [backup_times m].
Proof. unfold recorded_intervals. cbn. by rewrite map_app. Qed.

Lemma recorded_intervals_nonempty stats :
  recorded_intervals stats <> [] <-> models stats <> [].
Proof. unfold recorded_intervals. by destruct (models stats). Qed.

Lemma step_accounting {cap1 cap2 : Type}
    (consume1 : cap1 -> float -> cap1) (consume2 : cap2 -> float -> cap2)
    e (c1 : on_demand_all_backup cap1 * stats_bundle)
    (c2 : on_demand_all_backup cap2 * stats_bundle) :
  accounting_view c1 = accounting_view c2 ->
  option_map accounting_view (step consume1 e c1)
  = option_map accounting_view (step consume2 e c2)
  /\ (forall c1' c2', step consume1 e c1 = Some c1' -> step consume2 e c2 = Some c2' ->
        accounting_view c1' = accounting_view c2').
Proof.
  destruct c1 as [t1 [cpu1 ms1]], c2 as [t2 [cpu2 ms2]].
  unfold accounting_view, recorded_intervals. cbn [fst snd ehsim.cpu models].
  intros [= Hlast Hcc Hrec].
  assert (Hgoal : option_map accounting_view (step consume1 e (t1, StatsBundle cpu1 ms1))
                  = option_map accounting_view (step consume2 e (t2, StatsBundle cpu2 ms2))).
  { destruct e as [k| |]; cbn [step].
    - unfold accounting_view, recorded_intervals. cbn. by rewrite Hlast, Hcc, Hrec.
    - destruct (decide (ms1 = [])) as [->|Hne1].
      + assert (ms2 = []) as -> by (by destruct ms2). reflexivity.
      + assert (Hne2 : ms2 <> []) by (intros ->; by destruct ms1).
        destruct (nonempty_snoc _ Hne1) as (ms1' & m1 & ->).
        destruct (nonempty_snoc _ Hne2) as (ms2' & m2 & ->).
        rewrite !backup_snoc. unfold accounting_view, recorded_intervals.
        cbn [option_map fst snd ehsim.cpu last_cycle_count models].
        rewrite !map_app in *. cbn [map backup_times] in *.
        apply app_inj_tail in Hrec as [Hrec Hbt]. by rewrite Hlast, Hcc, Hrec, Hbt.
    - unfold restore, accounting_view, recorded_intervals.
      cbn [option_map fst snd ehsim.cpu last_cycle_count models].
      rewrite !map_app. by rewrite Hlast, Hcc, Hrec. }
  split; [exact Hgoal|]. intros c1' c2' H1 H2. rewrite H1, H2 in Hgoal.
  unfold accounting_view, recorded_intervals in Hgoal. cbn [option_map] in Hgoal.
  injection Hgoal as Hg1 Hg2 Hg3. by rewrite Hg1, Hg2, Hg3.
Qed.

Lemma run_accounting_view
    (cap1 cap2 : Type)
    (consume1 : cap1 -> float -> cap1) (consume2 : cap2 -> float -> cap2)
    (es : list event)
    (c1 : on_demand_all_backup cap1 * stats_bundle)
    (c2 : on_demand_all_backup cap2 * stats_bundle) :
  accounting_view c1 = accounting_view c2 ->
  option_map accounting_view (run consume1 es c1)
  = option_map accounting_view (run consume2 es c2).
Proof.
  revert c1 c2. induction es as [|e es IH]; intros c1 c2 Hv.
  - cbn. by rewrite Hv.
  - destruct (step_accounting consume1 consume2 e c1 c2 Hv) as [Hstep Hnext].
    cbn [run].
    destruct (step consume1 e c1) as [c1'|], (step consume2 e c2) as [c2'|];
      try discriminate; [|reflexivity].
    apply IH. by apply Hnext.
Qed.

(** X20: the cycle counter, the scheme's last-backup cycle count and the
    recorded backup intervals after a run depend on the events of the
    run and on their values before it only: not on the battery, its
    charge, or the way it is drained. *)
Theorem backup_accounting_ignores_battery
    (cap1 cap2 : Type)
    (consume1 : cap1 -> float -> cap1) (consume2 : cap2 -> float -> cap2)
    (es : list event)
    (c1 : on_demand_all_backup cap1 * stats_bundle)
    (c2 : on_demand_all_backup cap2 * stats_bundle) :
  accounting_view c1 = accounting_view c2 ->
  option_map accounting_view (run consume1 es c1)
  = option_map accounting_view (run consume2 es c2).
Proof. exact (run_accounting_view cap1 cap2 consume1 consume2 es c1 c2). Qed.

Lemma backup_accounting_ignores_battery_witness :
  option_map accounting_view (run drain two_period_run (power_on 2%float))
  = option_map accounting_view (run no_battery two_period_run (power_on tt)).
Proof.
  apply (backup_accounting_ignores_battery stored_energy_capacitor unit drain no_battery
           two_period_run (power_on 2%float) (power_on tt)).
  reflexivity.
Defined.

(** X21: [execute_instruction] drains normal_running_energy from the
    battery and touches the open record only: the cycle counter, the
    last-backup cycle count, the recorded intervals and the closed
    records are unchanged, so every later run records the same
    intervals with or without it. *)
Theorem execute_instruction_keeps_accounting
    (capacitor : Type) (consume_energy : capacitor -> float -> capacitor)
    (this : on_demand_all_backup capacitor) (stats : stats_bundle) :
  models stats <> [] ->
  exists this' stats',
    execute_instruction consume_energy this stats = Some (this', stats')
    /\ battery this' = consume_energy (battery this) normal_running_energy
    /\ accounting_view (this', stats') = accounting_view (this, stats)
    /\ removelast (models stats') = removelast (models stats)
    /\ (forall es,
          option_map accounting_view (run consume_energy es (this', stats'))
          = option_map accounting_view (run consume_energy es (this, stats))).
Proof.
  intros Hne. destruct stats as [cpu0 ms]. cbn [models] in Hne.
  destruct (nonempty_snoc _ Hne) as (ms' & m & ->).
  unfold execute_instruction. cbn [models ehsim.cpu]. rewrite update_back_snoc.
  eexists _, _. split; [reflexivity|]. split; [reflexivity|].
  assert (Hv : accounting_view
                 (ODAB (consume_energy (battery this) normal_running_energy)
                       (last_cycle_count this),
                  StatsBundle cpu0
                    (ms' ++ [ActiveStats (instruction_energy m + normal_running_energy)%float
                               (backup_times m)]))
               = accounting_view (this, StatsBundle cpu0 (ms' ++ [m]))).
  { unfold accounting_view. cbn [fst snd ehsim.cpu last_cycle_count].
    rewrite !recorded_intervals_snoc. reflexivity. }
  split; [exact Hv|]. split; [cbn [models]; by rewrite !removelast_snoc|].
  intros es. by apply run_accounting_view.
Qed.

Lemma execute_instruction_keeps_accounting_witness :
  exists this' stats',
    execute_instruction drain ample_battery (one_period_stats 100) = Some (this', stats')
    /\ accounting_view (this', stats') = (0, 100, [[]]).
Proof.
  destruct (execute_instruction_keeps_accounting stored_energy_capacitor drain ample_battery
              (one_period_stats 100))
    as (this' & stats' & Hrun & _ & Hview & _).
  - discriminate.
  - exists this', stats'. split; [exact Hrun|exact Hview].
Defined.

Lemma total_cycles_nonneg es : Forall forward es -> 0 <= total_cycles es.
Proof.
  induction 1 as [|e es He _ IH]; simpl; [lia|].
  destruct e; simpl in He; lia.
Qed.

Lemma concat_recorded_snoc cpu0 ms m :
  concat (recorded_intervals (StatsBundle cpu0 (ms ++ [m])))
  = concat (recorded_intervals (StatsBundle cpu0 ms)) ++ backup_times m.
Proof.
  rewrite recorded_intervals_snoc, concat_app. cbn. by rewrite app_nil_r.
Qed.

Section odab_bounds.

Context {capacitor : Type}.
Variable consume_energy : capacitor -> float -> capacitor.

Lemma step_bounded e (c : on_demand_all_backup capacitor * stats_bundle) :
  run_invariant c ->
  Forall (fun iv => 0 <= iv <= cycle_count (cpu c.2)) (concat (recorded_intervals c.2)) ->
  forward e ->
  cycle_count (cpu c.2) + total_cycles [e] < 2 ^ 64 ->
  exists c',
    step consume_energy e c = Some c'
    /\ run_invariant c'
    /\ cycle_count (cpu c'.2) = cycle_count (cpu c.2) + total_cycles [e]
    /\ Forall (fun iv => 0 <= iv <= cycle_count (cpu c'.2)) (concat (recorded_intervals c'.2)).
Proof.
  intros Hinv Hall He Hb.
  destruct (run_preserves_invariant consume_energy [e] c Hinv) as (c' & Hrun & Hinv' & Hcc & _).
  { by repeat constructor. }
  { exact Hb. }
  cbn [run] in Hrun. destruct (step consume_energy e c) as [c1|] eqn:Hstep; [|discriminate].
  injection Hrun as ->. exists c'. split; [reflexivity|]. split; [exact Hinv'|].
  split; [exact Hcc|].
  destruct c as [this [cpu0 ms]]. destruct Hinv as (Hne & Hord & Hlt & Hsum).
  cbn [fst snd ehsim.cpu models] in *.
  destruct e as [k| |]; cbn [step total_cycles forward] in Hstep, Hcc, He, Hb.
  - injection Hstep as <-. cbn [snd ehsim.cpu cycle_count] in *.
    eapply Forall_impl; [exact Hall|]. cbn. intros iv Hiv.
    unfold wrap64. rewrite Z.mod_small by lia. lia.
  - destruct (nonempty_snoc _ Hne) as (ms' & m & ->).
    rewrite backup_snoc in Hstep. injection Hstep as <-.
    cbn [snd ehsim.cpu] in *.
    rewrite concat_recorded_snoc in *. cbn [backup_times].
    rewrite app_assoc. apply Forall_app. split; [exact Hall|].
    apply Forall_singleton. unfold sub64, wrap64. rewrite Z.mod_small by lia. lia.
  - unfold restore in Hstep. injection Hstep as <-. cbn [snd ehsim.cpu models] in *.
    rewrite concat_recorded_snoc. cbn [backup_times new_active_stats].
    by rewrite app_nil_r.
Qed.

Lemma run_bounded es : forall c : on_demand_all_backup capacitor * stats_bundle,
  run_invariant c ->
  Forall (fun iv => 0 <= iv <= cycle_count (cpu c.2)) (concat (recorded_intervals c.2)) ->
  Forall forward es ->
  cycle_count (cpu c.2) + total_cycles es < 2 ^ 64 ->
  exists c',
    run consume_energy es c = Some c'
    /\ run_invariant c'
    /\ Forall (fun iv => 0 <= iv <= cycle_count (cpu c'.2)) (concat (recorded_intervals c'.2)).
Proof.
  induction es as [|e es IH]; intros c Hinv Hall Hfw Hb.
  - exists c. done.
  - apply Forall_cons in Hfw as [He Hfw].
    pose proof (total_cycles_nonneg es Hfw) as Hnn.
    assert (Hsplit : total_cycles (e :: es) = total_cycles [e] + total_cycles es)
      by (destruct e; simpl; lia).
    destruct (step_bounded e c Hinv Hall He) as (c1 & Hstep & Hinv1 & Hcc1 & Hall1); [lia|].
    destruct (IH c1 Hinv1 Hall1 Hfw) as (c' & Hrun & Hinv' & Hall'); [lia|].
    exists c'. cbn [run]. by rewrite Hstep.
Qed.

End odab_bounds.

(** X22: from power-on, while the cycle counter has not wrapped, every
    recorded backup interval lies between 0 and the cycle count, and so
    does their sum: the 64-bit subtraction in [backup] never wraps. *)
Theorem recorded_intervals_within_cycle_count
    (capacitor : Type) (consume_energy : capacitor -> float -> capacitor)
    (b : capacitor) (es : list event) :
  Forall forward es ->
  total_cycles es < 2 ^ 64 ->
  exists this stats,
    run consume_energy es (power_on b) = Some (this, stats)
    /\ Forall (fun iv => 0 <= iv <= cycle_count (cpu stats))
              (concat (recorded_intervals stats))
    /\ 0 <= total_intervals stats <= cycle_count (cpu stats).
Proof.
  intros Hfw Hb.
  destruct (run_bounded consume_energy es (power_on b))
    as ([this stats] & Hrun & (Hne & Hord & Hlt & Hsum) & Hall).
  - unfold run_invariant, power_on. cbn. split; [done|]. split; [lia|]. split; [lia|reflexivity].
  - unfold power_on. cbn. constructor.
  - exact Hfw.
  - unfold power_on. cbn. lia.
  - exists this, stats. cbn [fst snd] in *. split; [exact Hrun|]. split; [exact Hall|]. lia.
Qed.

Lemma recorded_intervals_within_cycle_count_witness :
  exists this stats,
    run drain two_period_run (power_on 2%float) = Some (this, stats)
    /\ 0 <= total_intervals stats <= cycle_count (cpu stats).
Proof.
  destruct (recorded_intervals_within_cycle_count stored_energy_capacitor drain 2%float
              two_period_run)
    as (this & stats & Hrun & _ & Hsum).
  - unfold two_period_run.
    repeat (apply Forall_cons; split; [first [exact I|simpl; lia]|]). constructor.
  - simpl. lia.
  - exists this, stats. split; [exact Hrun|exact Hsum].
Defined.
